(** * L2 validator of the Contiv-VPP CRD plugin

    A shallow embedding of [plugins/crd/validator/l2/l2_validator.go] and
    theorems about its six sub-validators.

    Conventions of the embedding:
    - Go [string] is [string] (a sequence of bytes); [int] is a 64-bit
      signed integer and [uint32] a 32-bit unsigned one, both carried by [Z]
      with the wrap-around written out ([wrap_int], [wrap_uint32]);
    - a Go map that the code ranges over is an association list whose order
      is the iteration order that the runtime happens to pick (Go leaves it
      unspecified), so a statement quantified over all lists covers every
      order; keys are looked up with [alookup];
    - a Go [map[string]bool] that is only filled with [true] and emptied with
      [delete] is a finite set of strings ([gset string]);
    - [*telemetrymodel.Pod] is an address into a store of pod records, so two
      maps may share one pod and pointer comparison is address comparison;
    - a loop over what is left in such a set visits the names in the order
      of [elements], one of the orders that Go may pick;
    - the lines of the report are kept as the format string (a constructor
      of [Msg]) with its arguments;
    - a run-time panic is an outcome of its own ([Panic]). *)

From Stdlib Require Import ZArith String Ascii List Lia Bool.
From stdpp Require Import base option list gmap sets strings.

Local Open Scope string_scope.
Local Open Scope list_scope.
Local Open Scope Z_scope.

#[local] Set Warnings "-clear-no-such-hyp".

(** ** Machine integers *)

Definition wrap_uint32 (z : Z) : Z := z mod 2 ^ 32.

Definition wrap_int (z : Z) : Z := (z + 2 ^ 63) mod 2 ^ 64 - 2 ^ 63.

Definition MaxInt : Z := 2 ^ 63 - 1.
Definition MinInt : Z := - 2 ^ 63.

(** ** The pieces of Go's [strings] and [strconv] that the validator calls *)

Module strings.

(** [strings.Split(s, sep)] for a separator of one byte: the pieces between
    the separators, always at least one piece. *)
Fixpoint Split (s : string) (sep : ascii) : list string :=
  match s with
  | EmptyString => [EmptyString]
  | String c rest =>
      if Ascii.eqb c sep then EmptyString :: Split rest sep
      else match Split rest sep with
           | [] => [String c EmptyString]
           | p :: ps => String c p :: ps
           end
  end.

(** [strings.Contains(s, substr)]. *)
Fixpoint Contains (s substr : string) : bool :=
  String.prefix substr s ||
  match s with
  | EmptyString => false
  | String _ rest => Contains rest substr
  end.

End strings.

Module strconv.

Inductive error := ErrSyntax | ErrRange.

Definition digit (c : ascii) : option Z :=
  let n := Z.of_N (N_of_ascii c) in
  if (48 <=? n) && (n <=? 57) then Some (n - 48) else None.

Definition maxUint64 : Z := 2 ^ 64 - 1.

(** The loop of [strconv.ParseUint] in base 10 on 64 bits: a byte that is
    not a digit ends it with a syntax error and 0; a digit that would take
    the number past 64 bits ends it at once, before the bytes that follow
    are looked at, with a range error and the largest [uint64]. *)
Fixpoint parseUint (n : Z) (s : string) : Z * option error :=
  match s with
  | EmptyString => (n, None)
  | String c rest =>
      match digit c with
      | None => (0, Some ErrSyntax)
      | Some d =>
          if maxUint64 / 10 + 1 <=? n then (maxUint64, Some ErrRange)
          else if maxUint64 <? n * 10 + d then (maxUint64, Some ErrRange)
          else parseUint (n * 10 + d) rest
      end
  end.

(** [strconv.Atoi]: an optional sign and at least one decimal digit.  A
    syntax error yields 0; a number that does not fit an [int] yields the
    largest [int] of the same sign, with [ErrRange].  (For fewer than 19
    bytes Go takes a shortcut that gives the same results: such a number
    cannot overflow.) *)
Definition Atoi (s : string) : Z * option error :=
  let '(neg, body) :=
    match s with
    | String "-"%char rest => (true, rest)
    | String "+"%char rest => (false, rest)
    | _ => (false, s)
    end in
  match body with
  | EmptyString => (0, Some ErrSyntax)
  | _ =>
      match parseUint 0 body with
      | (_, Some ErrSyntax) => (0, Some ErrSyntax)
      | (un, _) =>
          if negb neg && (2 ^ 63 <=? un) then (MaxInt, Some ErrRange)
          else if neg && (2 ^ 63 <? un) then (MinInt, Some ErrRange)
          else (if neg then - un else un, None)
      end
  end.

End strconv.

(** ** [maskLength2Mask] and [ip2uint32] *)

(** One turn of the loop of [maskLength2Mask]: [mask = mask << 1; mask++]
    on a [uint32]. *)
Definition mask_step (mask : Z) : Z :=
  wrap_uint32 (wrap_uint32 (Z.shiftl mask 1) + 1).

(** [for i := 0; i < 32-ml; i++]: the body runs [32 - ml] times (computed on
    [int]) when that is positive and not at all otherwise. *)
Definition maskLength2Mask (ml : Z) : Z :=
  Z.iter (wrap_int (32 - ml)) mask_step 0.

Definition ip2uint32 (ipAddress : string) : Z :=
  fold_left
    (fun ipu p =>
       let num := fst (strconv.Atoi p) in
       wrap_uint32 (wrap_uint32 (Z.shiftl ipu 8) + wrap_uint32 num))
    (strings.Split ipAddress "."%char) 0.

(** ** Data model *)

(** Modelled from the spec: the declarations of package [telemetrymodel] and
    of the vpp-agent interface model are not part of the sources; the records
    below have the fields that the validator reads, with the shapes of
    section 3 of the specification (interfaces and L2 FIB entries are maps,
    bridge domains an ordered list, ARP entries a list).  The bridge domains
    of a node are kept as the pairs of index and bridge domain that [range]
    yields, in range order; for the ordered list of the specification the
    indices are the positions 0, 1, ... (see [rangeOf]), and what is proved
    for all lists of pairs holds for a map keyed by the index as well. *)
Inductive InterfaceType :=
  | SOFTWARE_LOOPBACK
  | VXLAN_TUNNEL
  | TAP_INTERFACE
  | OTHER_INTERFACE.

#[global] Instance InterfaceType_eq_dec : EqDecision InterfaceType.
Proof. solve_decision. Defined.

Record Vxlan := {
  SrcAddress : string;
  DstAddress : string;
  Vni : Z
}.

Record Interface := {
  If_Name : string;
  IfType : InterfaceType;
  If_PhysAddress : string;
  IPAddresses : list string;
  If_Vxlan : Vxlan
}.

Record InterfaceMeta := {
  SwIfIndex : Z;
  VppInternalName : string
}.

Record NodeInterface := {
  If : Interface;
  IfMeta : InterfaceMeta
}.

Record BDInterface := {
  BDIfc_Name : string;
  BVI : bool
}.

Record BridgeDomain := {
  Bd_Name : string;
  Interfaces : list BDInterface
}.

Record BridgeDomainMeta := {
  BdID2Name : list (Z * string)
}.

Record NodeBridgeDomain := {
  Bd : BridgeDomain;
  BdMeta : BridgeDomainMeta
}.

Record IPArpEntry := {
  Ae_PhysAddress : string;
  Ae_IPAddress : string;
  Static : bool
}.

Record IPArpEntryMeta := {
  IfIndex : Z
}.

Record NodeIPArpEntry := {
  Ae : IPArpEntry;
  AeMeta : IPArpEntryMeta
}.

Record L2FibEntry := {
  Fe_PhysAddress : string;
  BridgedVirtualInterface : bool;
  StaticConfig : bool;
  OutgoingIfName : string
}.

Record L2FibEntryMeta := {
  BridgeDomainID : Z;
  OutgoingIfIndex : Z
}.

Record NodeL2FibEntry := {
  Fe : L2FibEntry;
  FeMeta : L2FibEntryMeta
}.

(** A [*Pod]: the address of a pod record in the pod store. *)
Definition PodRef := nat.

Record Pod := {
  Pod_Name : string;
  HostIPAddress : string;
  IPAddress : string;
  VppIfIPAddr : string;
  VppIfInternalName : string;
  VppIfName : string;
  VppSwIfIdx : Z
}.

Record Node := {
  Node_Name : string;
  NodeInterfaces : list (Z * NodeInterface);
  NodeBridgeDomains : list (Z * NodeBridgeDomain);
  NodeL2Fibs : list (string * NodeL2FibEntry);
  NodeIPArp : list NodeIPArpEntry;
  PodMap : gmap string PodRef
}.

Record NodeAddress := {
  Addr_Type : Z;
  Address : string
}.

Record K8sNode := {
  K8sNode_Name : string;
  Addresses : list NodeAddress;
  Pod_CIDR : string
}.

(** The zero values that Go returns when a map has no entry for a key. *)
Definition zeroNodeInterface : NodeInterface :=
  {| If := {| If_Name := ""; IfType := SOFTWARE_LOOPBACK; If_PhysAddress := "";
              IPAddresses := [];
              If_Vxlan := {| SrcAddress := ""; DstAddress := ""; Vni := 0 |} |};
     IfMeta := {| SwIfIndex := 0; VppInternalName := "" |} |}.

(** [m[k]] with its [ok] flag, for a map kept as an association list. *)
Fixpoint alookup {K} `{EqDecision K} {V} (k : K) (m : list (K * V)) : option V :=
  match m with
  | [] => None
  | (k', v) :: m' => if decide (k' = k) then Some v else alookup k m'
  end.

(** The pairs that [range] yields over a slice. *)
Definition rangeOf {X} (l : list X) : list (Z * X) :=
  imap (fun i x => (Z.of_nat i, x)) l.

(** ** Collaborators *)

(** Modelled from the spec: the interfaces [api.VppCache] and [api.K8sCache]
    (section 6); a lookup that returns an error is [None].  The caches are
    read-only snapshots, so a lookup is a function of its key. *)
Record VppCache := {
  RetrieveAllNodes : list Node;
  RetrieveNodeByLoopMacAddr : string -> option Node;
  RetrieveNodeByLoopIPAddr : string -> option Node;
  RetrieveNodeByGigEIPAddr : string -> option Node;
  RetrieveNodeByHostIPAddr : string -> option Node
}.

Record K8sCache := {
  RetrieveAllK8sNodes : list K8sNode;
  RetrieveK8sNode : string -> option K8sNode;
  RetrieveAllPods : list PodRef
}.

(** The validator with what it imports: the two caches, the constants
    [api.GlobalMsg] and [api.VppVNI], and [datastore.GetNodeLoopIFInfo],
    whose body is not part of the sources and is taken as given. *)
Record Validator := {
  vppCache : VppCache;
  k8sCache : K8sCache;
  GlobalMsg : string;
  VppVNI : Z;
  GetNodeLoopIFInfo : Node -> option NodeInterface
}.

(** ** The report sink *)

(** One constructor per format string of the validator, carrying the
    arguments of the [Sprintf]. *)
Inductive Msg :=
  (* ValidateArpTables *)
  | ArpBadIfIndex (mac ip : string) (ifIndex : Z)
  | ArpBadMac (mac ip : string)
  | ArpBadIP (mac ip : string)
  | ArpMismatch (mac ip macNode ipNode : string)
  | ArpMissing (nodeName : string)
  | ArpOK
  | ArpErrors (errCnt : Z) (plural : string)
  (* ValidateL2Connectivity *)
  | MultipleVxlanBD
  | NoVxlanBD
  | IfIndexInvalid (ifIndex : Z) (bdIfc : string)
  | DuplicateBVI (t : InterfaceType) (bdIfc : string) (ifIndex : Z) (ifName : string)
  | InvalidBVIType (t : InterfaceType) (bdIfc : string) (ifIndex : Z) (ifName : string)
  | BadMacAddrIndex (mac bdIfc : string) (ifIndex : Z) (ifName : string)
  | InvalidBDIfType (t : InterfaceType) (bdIfc : string) (ifIndex : Z) (ifName : string)
  | BadVNI (ifName internalName : string) (got expected : Z)
  | SrcNodeNotFound (src : string)
  | SrcOtherNode (ifName src nodeName : string)
  | DstNodeNotFound (dst ifName : string)
  | NoMatchingTunnel (remote ifName : string)
  | InconsistentGigE (dst : string)
  | WrongIfCount (got expected : Z)
  | BVIMissing
  | BDIfMissing (nodeName : string)
  | FailedToValidateBD
  | L2ConnOK
  | L2ConnErrors (errCnt : Z)
  (* ValidateL2FibEntries *)
  | FibSkipping (nodeName : string)
  | FibLoopNotFound (feKey nodeName : string)
  | FibBviBadMac (feKey have expecting : string)
  | FibInconsistentMac (mac : string)
  | FibOutIfNotFound (mac ifName : string) (ifIndex : Z)
  | FibRemoteNotFound (feKey dst : string)
  | FibMissingRemoteLoop (mac nodeName : string)
  | FibBadMac (feKey have expecting : string)
  | FibLoop0NotFound
  | FibMissing (nodeName : string)
  | FibDangling (feKey : string)
  | FibOK
  | FibErrors (errCnt : Z)
  (* ValidateK8sNodeInfo *)
  | NodeNotInK8s (nodeName : string)
  | ContivNodeMissing (k8sNode : string)
  | K8sNodeMissing (nodeName : string)
  (* ValidatePodInfo *)
  | PodNodeNotFound (pod hostIP : string)
  | PodNotInPodMap (pod nodeName : string)
  | PodNotSame (podPtr pod : string)
  | PodK8sNodeNotFound (nodeName : string)
  | PodHostIPMismatch (hostIP addr : string)
  | PodHostNameMismatch (addr nodeName : string)
  | PodError (pod : string)
  | PodSuccess
  (* ValidateTapToPod *)
  | TapInconsistentHostIP (ip : string)
  | TapInconsistentK8sNode (nodeName : string)
  | InvalidPodCIDR (cidr : string)
  | NoValidTap (pod : string).

#[global] Instance Msg_eq_dec : EqDecision Msg.
Proof. solve_decision. Defined.

(** An entry of the report: the bucket, the message, and whether the logging
    variant [LogErrAndAppendToNodeReport] wrote it. *)
Record ReportEntry := {
  target : string;
  message : Msg;
  logged : bool
}.

#[global] Instance ReportEntry_eq_dec : EqDecision ReportEntry.
Proof. solve_decision. Defined.

Abbreviation Report := (list ReportEntry).

Definition AppendToNodeReport (nodeName : string) (m : Msg) (r : Report) : Report :=
  (r ++ [{| target := nodeName; message := m; logged := false |}]).

Definition LogErrAndAppendToNodeReport (nodeName : string) (m : Msg) (r : Report) : Report :=
  (r ++ [{| target := nodeName; message := m; logged := true |}]).

(** ** Outcomes *)

Inductive PanicKind :=
  | IndexOutOfRange
  | NilPointerDereference.

Inductive Outcome (A : Type) :=
  | Done (a : A)
  | Panic (why : PanicKind).
Arguments Done {A} a.
Arguments Panic {A} why.

#[global] Instance Outcome_ret : MRet Outcome := fun A a => Done a.

#[global] Instance Outcome_bind : MBind Outcome := fun A B k m =>
  match m with
  | Done a => k a
  | Panic why => Panic why
  end.

(** A [for ... range] loop whose body may panic. *)
Fixpoint forRange {X S} (body : X -> S -> Outcome S) (l : list X) (s : S) : Outcome S :=
  match l with
  | [] => Done s
  | x :: l' => s' ← body x s; forRange body l' s'
  end.

(** The set of names that [for _, n := range l { m[name n] = true }] builds. *)
Definition nameSet {X} (name : X -> string) (l : list X) : gset string :=
  list_to_set (map name l).

(** [errCnt++] and [i++] on an [int]. *)
Definition incr (z : Z) : Z := wrap_int (z + 1).

(** [m[k]] without the [ok] flag: the zero value when the key is absent. *)
Definition mapIndex (k : Z) (m : list (Z * NodeInterface)) : NodeInterface :=
  default zeroNodeInterface (alookup k m).

Definition printS (errCnt : Z) : string :=
  if 0 <? errCnt then "s" else "".

(** ** ValidateArpTables *)

Record ArpState := {
  arp_errCnt : Z;
  arp_report : Report;
  loopNodeMap : gset string
}.

(** An error line in the report of [nodeName] together with [errCnt++]. *)
Definition arpFail (nodeName : string) (m : Msg) (st : ArpState) : ArpState :=
  {| arp_errCnt := incr (arp_errCnt st);
     arp_report := AppendToNodeReport nodeName m (arp_report st);
     loopNodeMap := loopNodeMap st |}.

(** The body of [for _, arpTableEntry := range node.NodeIPArp]. *)
Definition arpEntryStep (v : Validator) (node : Node)
    (arpTableEntry : NodeIPArpEntry) (st : ArpState) : ArpState :=
  let mac := Ae_PhysAddress (Ae arpTableEntry) in
  let ip := Ae_IPAddress (Ae arpTableEntry) in
  let ifIndex := IfIndex (AeMeta arpTableEntry) in
  if negb (Static (Ae arpTableEntry)) then st
  else
    match alookup ifIndex (NodeInterfaces node) with
    | None => arpFail (Node_Name node) (ArpBadIfIndex mac ip ifIndex) st
    | Some arpIf =>
        if bool_decide (IfType (If arpIf) ≠ SOFTWARE_LOOPBACK)
           || bool_decide (If_Name (If arpIf) ≠ "vxlanBVI")
        then st
        else
          let macNode := RetrieveNodeByLoopMacAddr (vppCache v) mac in
          let st :=
            match macNode with
            | None => arpFail (Node_Name node) (ArpBadMac mac ip) st
            | Some _ => st
            end in
          let ipNode := RetrieveNodeByLoopIPAddr (vppCache v) (ip +:+ "/24") in
          let st :=
            match ipNode with
            | None => arpFail (Node_Name node) (ArpBadIP mac ip) st
            | Some _ => st
            end in
          match macNode, ipNode with
          | Some macNode, Some ipNode =>
              let st :=
                if bool_decide (Node_Name macNode ≠ Node_Name ipNode)
                then arpFail (Node_Name node)
                       (ArpMismatch mac ip (Node_Name macNode) (Node_Name ipNode)) st
                else st in
              {| arp_errCnt := arp_errCnt st;
                 arp_report := arp_report st;
                 loopNodeMap := loopNodeMap st ∖ {[ Node_Name ipNode ]} |}
          | _, _ => st
          end
    end.

(** The expected peers of [node]: the names of all the other nodes. *)
Definition expectedPeers (nodeList : list Node) (node : Node) : gset string :=
  nameSet Node_Name (filter (fun n => Node_Name n ≠ Node_Name node) nodeList).

Definition scanArpEntries (v : Validator) (node : Node) (st : ArpState) : ArpState :=
  fold_left (fun st e => arpEntryStep v node e st) (NodeIPArp node) st.

(** [for nodeName := range loopNodeMap]: one error per name that is left. *)
Definition reportMissingArp (node : Node) (st : ArpState) : ArpState :=
  fold_left (fun st nodeName => arpFail (Node_Name node) (ArpMissing nodeName) st)
            (elements (loopNodeMap st)) st.

(** The body of [for _, node := range nodeList]. *)
Definition validateArpNode (v : Validator) (nodeList : list Node) (node : Node)
    (acc : Z * Report) : Z * Report :=
  let st := {| arp_errCnt := fst acc; arp_report := snd acc;
               loopNodeMap := expectedPeers nodeList node |} in
  let st := reportMissingArp node (scanArpEntries v node st) in
  (arp_errCnt st, arp_report st).

Definition ValidateArpTables (v : Validator) (r : Report) : Report :=
  let nodeList := RetrieveAllNodes (vppCache v) in
  let '(errCnt, r) :=
    fold_left (fun acc node => validateArpNode v nodeList node acc) nodeList (0, r) in
  if bool_decide (errCnt = 0) then AppendToNodeReport (GlobalMsg v) ArpOK r
  else AppendToNodeReport (GlobalMsg v) (ArpErrors errCnt (printS errCnt)) r.

(** ** ValidateL2Connectivity *)

(** What the search for the bridge domain named [vxlanBD] leaves behind. *)
Inductive VxlanBDSearch :=
  | MultipleBD
  | NoBD
  | PointsTo (bdomain : NodeBridgeDomain).

(** [for _, bdomain := range node.NodeBridgeDomains] with
    [vxLanBD = &bdomain].  The sources are built with Go 1.10 (see the
    builder image of the repository), where [bdomain] is one variable for
    the whole loop: the pointer taken at the match aliases the loop variable,
    and every later iteration overwrites what it points to.  [isSet] says
    whether [vxLanBD] is non-nil and [bdomain] is the current content of the
    loop variable. *)
Fixpoint searchVxlanBD (bds : list (Z * NodeBridgeDomain)) (isSet : bool)
    (bdomain : option NodeBridgeDomain) : VxlanBDSearch :=
  match bds with
  | [] =>
      match isSet, bdomain with
      | true, Some bd => PointsTo bd
      | _, _ => NoBD
      end
  | (_, bd) :: rest =>
      if bool_decide (Bd_Name (Bd bd) = "vxlanBD") then
        if isSet then MultipleBD
        else searchVxlanBD rest true (Some bd)
      else searchVxlanBD rest isSet (Some bd)
  end.

Record L2State := {
  l2_errCnt : Z;
  l2_report : Report;
  l2_i : Z;
  hasBviIfc : bool;
  nodeVxlanMap : gset string
}.

Definition l2Fail (nodeName : string) (m : Msg) (st : L2State) : L2State :=
  {| l2_errCnt := incr (l2_errCnt st);
     l2_report := AppendToNodeReport nodeName m (l2_report st);
     l2_i := l2_i st;
     hasBviIfc := hasBviIfc st;
     nodeVxlanMap := nodeVxlanMap st |}.

Definition l2Account (peer : string) (st : L2State) : L2State :=
  {| l2_errCnt := l2_errCnt st;
     l2_report := l2_report st;
     l2_i := l2_i st;
     hasBviIfc := hasBviIfc st;
     nodeVxlanMap := nodeVxlanMap st ∖ {[ peer ]} |}.

(** [bdName2Id]: the inverse of [BdID2Name], later entries overwriting
    earlier ones. *)
Definition buildBdName2Id (bdID2Name : list (Z * string)) : gmap string Z :=
  fold_left (fun m e => <[snd e := fst e]> m) bdID2Name ∅.

(** Is there, on the remote node, an interface of the same type whose
    destination is this tunnel's source? *)
Definition matchingTunnel (nodeIfc : NodeInterface) (dstipNode : Node) : bool :=
  existsb
    (fun e =>
       let dstIntf := snd e in
       bool_decide (IfType (If dstIntf) = IfType (If nodeIfc))
       && bool_decide (DstAddress (If_Vxlan (If dstIntf)) = SrcAddress (If_Vxlan (If nodeIfc))))
    (NodeInterfaces dstipNode).

(** The body of [for _, bdIfc := range vxLanBD.Bd.Interfaces]. *)
Definition bdIfcStep (v : Validator) (node : Node) (bdName2Id : gmap string Z)
    (bdIfc : BDInterface) (st : L2State) : Outcome L2State :=
  let name := Node_Name node in
  let ifIndex := default 0 (bdName2Id !! BDIfc_Name bdIfc) in
  match alookup ifIndex (NodeInterfaces node) with
  | None => Done (l2Fail name (IfIndexInvalid ifIndex (BDIfc_Name bdIfc)) st)
  | Some nodeIfc =>
      let ifc := If nodeIfc in
      if BVI bdIfc then
        let st :=
          if hasBviIfc st
          then l2Fail name (DuplicateBVI (IfType ifc) (BDIfc_Name bdIfc) ifIndex (If_Name ifc)) st
          else st in
        if bool_decide (IfType ifc ≠ SOFTWARE_LOOPBACK) then
          Done (l2Fail name (InvalidBVIType (IfType ifc) (BDIfc_Name bdIfc) ifIndex (If_Name ifc)) st)
        else
          let st := {| l2_errCnt := l2_errCnt st; l2_report := l2_report st;
                       l2_i := incr (l2_i st); hasBviIfc := true;
                       nodeVxlanMap := nodeVxlanMap st |} in
          match RetrieveNodeByLoopMacAddr (vppCache v) (If_PhysAddress ifc) with
          | None =>
              Done (l2Fail name
                      (BadMacAddrIndex (If_PhysAddress ifc) (BDIfc_Name bdIfc) ifIndex (If_Name ifc)) st)
          | Some n => Done (l2Account (Node_Name n) st)
          end
      else
        if bool_decide (IfType ifc ≠ VXLAN_TUNNEL) then
          Done (l2Fail name (InvalidBDIfType (IfType ifc) (BDIfc_Name bdIfc) ifIndex (If_Name ifc)) st)
        else
          let cur := mapIndex ifIndex (NodeInterfaces node) in
          let st :=
            if bool_decide (Vni (If_Vxlan ifc) ≠ VppVNI v)
            then l2Fail name
                   (BadVNI (If_Name (If cur)) (VppInternalName (IfMeta cur))
                           (Vni (If_Vxlan (If cur))) (VppVNI v)) st
            else st in
          match RetrieveNodeByGigEIPAddr (vppCache v) (SrcAddress (If_Vxlan ifc)) with
          | None => Done (l2Fail name (SrcNodeNotFound (SrcAddress (If_Vxlan ifc))) st)
          | Some srcIPNode =>
              if bool_decide (Node_Name srcIPNode ≠ name) then
                Done (l2Fail name (SrcOtherNode (If_Name ifc) (SrcAddress (If_Vxlan ifc)) name) st)
              else
                match RetrieveNodeByGigEIPAddr (vppCache v) (DstAddress (If_Vxlan ifc)) with
                | None =>
                    Done (l2Fail name (DstNodeNotFound (DstAddress (If_Vxlan ifc)) (If_Name ifc)) st)
                | Some dstipNode =>
                    let st :=
                      if negb (matchingTunnel nodeIfc dstipNode)
                      then l2Fail name (NoMatchingTunnel (Node_Name dstipNode) (If_Name ifc)) st
                      else st in
                    let st := {| l2_errCnt := l2_errCnt st; l2_report := l2_report st;
                                 l2_i := incr (l2_i st); hasBviIfc := hasBviIfc st;
                                 nodeVxlanMap := nodeVxlanMap st |} in
                    let dstAddr := DstAddress (If_Vxlan (If cur)) in
                    match RetrieveNodeByGigEIPAddr (vppCache v) dstAddr with
                    | Some n1 => Done (l2Account (Node_Name n1) st)
                    | None =>
                        (* [n1.Name] with [n1 == nil] *)
                        Panic NilPointerDereference
                    end
                end
          end
  end.

(** What the outer loop carries from node to node. *)
Record L2Acc := {
  acc_errCnt : Z;
  acc_report : Report;
  nodeMap : gset string
}.

Definition l2SkipNode (nodeName : string) (m : Msg) (acc : L2Acc) : L2Acc :=
  {| acc_errCnt := incr (acc_errCnt acc);
     acc_report := AppendToNodeReport nodeName m (acc_report acc);
     nodeMap := nodeMap acc |}.

(** [for n := range nodeVxlanMap]: one error per peer that is left. *)
Definition reportMissingBDIf (nodeName : string) (st : L2State) : L2State :=
  fold_left (fun st n => l2Fail nodeName (BDIfMissing n) st)
            (elements (nodeVxlanMap st)) st.

(** The checks after the member scan, down to [delete(nodeMap, node.Name)]. *)
Definition l2Conclude (nodeList : list Node) (node : Node) (acc : L2Acc)
    (st : L2State) : L2Acc :=
  let name := Node_Name node in
  let len := Z.of_nat (length nodeList) in
  let st :=
    if bool_decide (l2_i st ≠ len) then l2Fail name (WrongIfCount (l2_i st) len) st
    else st in
  if negb (hasBviIfc st) then
    let st := l2Fail name BVIMissing st in
    {| acc_errCnt := l2_errCnt st; acc_report := l2_report st; nodeMap := nodeMap acc |}
  else if bool_decide (0 < size (nodeVxlanMap st))%nat then
    let st := reportMissingBDIf name st in
    {| acc_errCnt := l2_errCnt st; acc_report := l2_report st; nodeMap := nodeMap acc |}
  else
    {| acc_errCnt := l2_errCnt st; acc_report := l2_report st;
       nodeMap := nodeMap acc ∖ {[ name ]} |}.

(** The member scan of the bridge domain that [vxLanBD] points to. *)
Definition scanBD (v : Validator) (nodeList : list Node) (node : Node)
    (vxLanBD : NodeBridgeDomain) (acc : L2Acc) : Outcome L2State :=
  forRange (bdIfcStep v node (buildBdName2Id (BdID2Name (BdMeta vxLanBD))))
           (Interfaces (Bd vxLanBD))
           {| l2_errCnt := acc_errCnt acc; l2_report := acc_report acc; l2_i := 0;
              hasBviIfc := false; nodeVxlanMap := nameSet Node_Name nodeList |}.

(** The body of the loop labelled [validateNodeBD]. *)
Definition validateNodeBD (v : Validator) (nodeList : list Node) (node : Node)
    (acc : L2Acc) : Outcome L2Acc :=
  match searchVxlanBD (NodeBridgeDomains node) false None with
  | MultipleBD => Done (l2SkipNode (Node_Name node) MultipleVxlanBD acc)
  | NoBD => Done (l2SkipNode (Node_Name node) NoVxlanBD acc)
  | PointsTo vxLanBD =>
      st ← scanBD v nodeList node vxLanBD acc;
      Done (l2Conclude nodeList node acc st)
  end.

(** [for nodeName := range nodeMap]: the nodes that were not validated. *)
Definition reportUnvalidated (unvalidated : gset string) (r : Report) : Report :=
  fold_left (fun r nodeName => AppendToNodeReport nodeName FailedToValidateBD r)
            (elements unvalidated) r.

Definition ValidateL2Connectivity (v : Validator) (r : Report) : Outcome Report :=
  let nodeList := RetrieveAllNodes (vppCache v) in
  acc ← forRange (validateNodeBD v nodeList) nodeList
        {| acc_errCnt := 0; acc_report := r; nodeMap := nameSet Node_Name nodeList |};
  let r := reportUnvalidated (nodeMap acc) (acc_report acc) in
  Done (if bool_decide (acc_errCnt acc = 0)
        then AppendToNodeReport (GlobalMsg v) L2ConnOK r
        else AppendToNodeReport (GlobalMsg v) (L2ConnErrors (acc_errCnt acc)) r).

(** ** ValidateL2FibEntries *)

Fixpoint getVxlanBDIn (bds : list (Z * NodeBridgeDomain)) : option Z :=
  match bds with
  | [] => None
  | (bdomainIdx, bdomain) :: rest =>
      if bool_decide (Bd_Name (Bd bdomain) = "vxlanBD") then Some bdomainIdx
      else getVxlanBDIn rest
  end.

(** [getVxlanBD]: the index of the first bridge domain named [vxlanBD];
    [None] stands for the error [vxlanBD not found]. *)
Definition getVxlanBD (node : Node) : option Z :=
  getVxlanBDIn (NodeBridgeDomains node).

Record FibState := {
  fib_errCnt : Z;
  fib_report : Report;
  fibHasLoopIF : bool;
  nodeFibMap : gset string;
  fibNodeMap : gset string
}.

Definition fibFail (nodeName : string) (m : Msg) (st : FibState) : FibState :=
  {| fib_errCnt := incr (fib_errCnt st);
     fib_report := AppendToNodeReport nodeName m (fib_report st);
     fibHasLoopIF := fibHasLoopIF st;
     nodeFibMap := nodeFibMap st;
     fibNodeMap := fibNodeMap st |}.

Definition fibFailLog (nodeName : string) (m : Msg) (st : FibState) : FibState :=
  {| fib_errCnt := incr (fib_errCnt st);
     fib_report := LogErrAndAppendToNodeReport nodeName m (fib_report st);
     fibHasLoopIF := fibHasLoopIF st;
     nodeFibMap := nodeFibMap st;
     fibNodeMap := fibNodeMap st |}.

(** [delete(fibNodeMap, feKey); delete(nodeFibMap, peer)]. *)
Definition fibAccount (feKey peer : string) (st : FibState) : FibState :=
  {| fib_errCnt := fib_errCnt st;
     fib_report := fib_report st;
     fibHasLoopIF := fibHasLoopIF st;
     nodeFibMap := nodeFibMap st ∖ {[ peer ]};
     fibNodeMap := fibNodeMap st ∖ {[ feKey ]} |}.

(** The body of the first loop over [node.NodeL2Fibs], which fills
    [fibNodeMap]. *)
Definition fibMarkStep (vxLanBD : Z) (e : string * NodeL2FibEntry)
    (fibNodeMap : gset string) : gset string :=
  let '(feKey, feVal) := e in
  if bool_decide (BridgeDomainID (FeMeta feVal) ≠ vxLanBD) then fibNodeMap
  else if negb (StaticConfig (Fe feVal)) then fibNodeMap
  else {[ feKey ]} ∪ fibNodeMap.

(** The body of the second loop over [node.NodeL2Fibs]. *)
Definition fibEntryStep (v : Validator) (node : Node) (vxLanBD : Z)
    (e : string * NodeL2FibEntry) (st : FibState) : FibState :=
  let '(feKey, feVal) := e in
  let name := Node_Name node in
  let mac := Fe_PhysAddress (Fe feVal) in
  if bool_decide (BridgeDomainID (FeMeta feVal) ≠ vxLanBD) then st
  else if negb (StaticConfig (Fe feVal)) then st
  else if BridgedVirtualInterface (Fe feVal) then
    let st :=
      match GetNodeLoopIFInfo v node with
      | None => fibFail name (FibLoopNotFound feKey name) st
      | Some loopIf =>
          if bool_decide (mac ≠ If_PhysAddress (If loopIf))
          then fibFailLog name (FibBviBadMac feKey mac (If_PhysAddress (If loopIf))) st
          else st
      end in
    let st :=
      match RetrieveNodeByLoopMacAddr (vppCache v) mac with
      | Some _ =>
          {| fib_errCnt := fib_errCnt st; fib_report := fib_report st;
             fibHasLoopIF := true;
             nodeFibMap := nodeFibMap st; fibNodeMap := fibNodeMap st |}
      | None => fibFailLog name (FibInconsistentMac mac) st
      end in
    fibAccount feKey name st
  else
    match alookup (OutgoingIfIndex (FeMeta feVal)) (NodeInterfaces node) with
    | None =>
        fibFail name
          (FibOutIfNotFound mac (OutgoingIfName (Fe feVal)) (OutgoingIfIndex (FeMeta feVal))) st
    | Some intf =>
        let dst := DstAddress (If_Vxlan (If intf)) in
        match RetrieveNodeByGigEIPAddr (vppCache v) dst with
        | None => fibFail name (FibRemoteNotFound feKey dst) st
        | Some macNode =>
            match GetNodeLoopIFInfo v macNode with
            | None =>
                fibFail name (FibMissingRemoteLoop mac (Node_Name macNode))
                  (fibAccount feKey (Node_Name macNode) st)
            | Some remoteLoopIF =>
                let st :=
                  if bool_decide (If_PhysAddress (If remoteLoopIF) ≠ mac)
                  then fibFail name (FibBadMac feKey mac (If_PhysAddress (If remoteLoopIF))) st
                  else st in
                let st :=
                  match RetrieveNodeByLoopMacAddr (vppCache v) mac with
                  | None => fibFail name (FibInconsistentMac mac) st
                  | Some _ => st
                  end in
                fibAccount feKey (Node_Name macNode) st
            end
        end
    end.

(** The two loops over the L2 FIB of a node and the three reports that
    follow them, for the FIB table [fibs].  Go may range over the map in two
    different orders; the first loop only collects keys into a set, so one
    list serves both. *)
Definition scanFib (v : Validator) (nodeList : list Node) (node : Node) (vxLanBD : Z)
    (fibs : list (string * NodeL2FibEntry)) (acc : Z * Report) : Z * Report :=
  let name := Node_Name node in
  let st := {| fib_errCnt := fst acc; fib_report := snd acc; fibHasLoopIF := false;
               nodeFibMap := nameSet Node_Name nodeList;
               fibNodeMap := fold_left (fun s e => fibMarkStep vxLanBD e s) fibs ∅ |} in
  let st := fold_left (fun st e => fibEntryStep v node vxLanBD e st) fibs st in
  let st := if negb (fibHasLoopIF st) then fibFail name FibLoop0NotFound st else st in
  let st := fold_left (fun st remoteNodeName => fibFailLog name (FibMissing remoteNodeName) st)
                      (elements (nodeFibMap st)) st in
  let st := fold_left (fun st fibEntry => fibFail name (FibDangling fibEntry) st)
                      (elements (fibNodeMap st)) st in
  (fib_errCnt st, fib_report st).

(** The body of [for _, node := range nodeList]. *)
Definition validateFibNode (v : Validator) (nodeList : list Node) (node : Node)
    (acc : Z * Report) : Z * Report :=
  match getVxlanBD node with
  | None =>
      (incr (fst acc), AppendToNodeReport (Node_Name node) (FibSkipping (Node_Name node)) (snd acc))
  | Some vxLanBD => scanFib v nodeList node vxLanBD (NodeL2Fibs node) acc
  end.

Definition ValidateL2FibEntries (v : Validator) (r : Report) : Report :=
  let nodeList := RetrieveAllNodes (vppCache v) in
  let '(errCnt, r) :=
    fold_left (fun acc node => validateFibNode v nodeList node acc) nodeList (0, r) in
  if bool_decide (errCnt = 0) then AppendToNodeReport (GlobalMsg v) FibOK r
  else AppendToNodeReport (GlobalMsg v) (FibErrors errCnt) r.

(** ** ValidateK8sNodeInfo *)

Record K8sInfoState := {
  ki_report : Report;
  ki_nodeMap : gset string;
  ki_k8sNodeMap : gset string
}.

Definition k8sNodeInfoStep (v : Validator) (node : Node) (st : K8sInfoState) : K8sInfoState :=
  match RetrieveK8sNode (k8sCache v) (Node_Name node) with
  | None =>
      {| ki_report := AppendToNodeReport (Node_Name node) (NodeNotInK8s (Node_Name node)) (ki_report st);
         ki_nodeMap := ki_nodeMap st; ki_k8sNodeMap := ki_k8sNodeMap st |}
  | Some k8sNode =>
      if bool_decide (Node_Name node = K8sNode_Name k8sNode) then
        {| ki_report := ki_report st;
           ki_nodeMap := ki_nodeMap st ∖ {[ Node_Name node ]};
           ki_k8sNodeMap := ki_k8sNodeMap st ∖ {[ K8sNode_Name k8sNode ]} |}
      else st
  end.

Definition ValidateK8sNodeInfo (v : Validator) (r : Report) : Report :=
  let nodeList := RetrieveAllNodes (vppCache v) in
  let st := fold_left (fun st node => k8sNodeInfoStep v node st) nodeList
              {| ki_report := r;
                 ki_nodeMap := nameSet Node_Name nodeList;
                 ki_k8sNodeMap := nameSet K8sNode_Name (RetrieveAllK8sNodes (k8sCache v)) |} in
  let r := fold_left (fun r k8sNode => AppendToNodeReport k8sNode (ContivNodeMissing k8sNode) r)
                     (elements (ki_k8sNodeMap st)) (ki_report st) in
  fold_left (fun r contivNode => AppendToNodeReport contivNode (K8sNodeMissing contivNode) r)
            (elements (ki_nodeMap st)) r.

(** ** The pod store *)

(** Reading a field through a [*Pod]; an address outside the store is a nil
    pointer. *)
Definition deref (pods : list Pod) (pod : PodRef) : Outcome Pod :=
  match pods !! pod with
  | Some p => Done p
  | None => Panic NilPointerDereference
  end.

(** [for _, pod := range podList { podMap[pod.Name] = true }]. *)
Definition trackPods (pods : list Pod) (podList : list PodRef) : Outcome (gset string) :=
  forRange (fun pod podMap => p ← deref pods pod; Done ({[ Pod_Name p ]} ∪ podMap)) podList ∅.

(** ** ValidatePodInfo *)

Record PodInfoState := {
  pi_report : Report;
  pi_podMap : gset string
}.

Definition podInfoReport (tgt : string) (m : Msg) (st : PodInfoState) : PodInfoState :=
  {| pi_report := AppendToNodeReport tgt m (pi_report st); pi_podMap := pi_podMap st |}.

(** The body of [for _, adr := range k8snode.Addresses]. *)
Definition podAddrStep (p : Pod) (node : Node) (adr : NodeAddress) (st : Z * Report) : Z * Report :=
  let '(i, r) := st in
  if bool_decide (Addr_Type adr = 3) && bool_decide (Address adr ≠ HostIPAddress p) then
    (i, AppendToNodeReport (Node_Name node) (PodHostIPMismatch (HostIPAddress p) (Address adr)) r)
  else
    let i := if bool_decide (Addr_Type adr = 3) then incr i else i in
    if bool_decide (Addr_Type adr = 1) && bool_decide (Address adr ≠ Node_Name node) then
      (i, AppendToNodeReport (Node_Name node) (PodHostNameMismatch (Address adr) (Node_Name node)) r)
    else
      (if bool_decide (Addr_Type adr = 1) then incr i else i, r).

(** The rest of the loop body once the pod of the node's [PodMap] is known
    to be the pod at hand. *)
Definition podInfoK8s (v : Validator) (p : Pod) (node : Node) (st : PodInfoState) : PodInfoState :=
  match RetrieveK8sNode (k8sCache v) (Node_Name node) with
  | None =>
      {| pi_report := LogErrAndAppendToNodeReport (Node_Name node)
                        (PodK8sNodeNotFound (Node_Name node)) (pi_report st);
         pi_podMap := pi_podMap st |}
  | Some k8snode =>
      let '(i, r) := fold_left (fun acc adr => podAddrStep p node adr acc)
                               (Addresses k8snode) (0, pi_report st) in
      if bool_decide (i ≠ 2) then {| pi_report := r; pi_podMap := pi_podMap st |}
      else {| pi_report := r; pi_podMap := pi_podMap st ∖ {[ Pod_Name p ]} |}
  end.

(** The body of the second [for _, pod := range podList]. *)
Definition podInfoStep (v : Validator) (pods : list Pod) (pod : PodRef)
    (st : PodInfoState) : Outcome PodInfoState :=
  p ← deref pods pod;
  match RetrieveNodeByHostIPAddr (vppCache v) (HostIPAddress p) with
  | None =>
      Done (podInfoReport (GlobalMsg v) (PodNodeNotFound (Pod_Name p) (HostIPAddress p)) st)
  | Some node =>
      match PodMap node !! Pod_Name p with
      | None => Done (podInfoReport (Node_Name node) (PodNotInPodMap (Pod_Name p) (Node_Name node)) st)
      | Some podPtr =>
          if bool_decide (pod ≠ podPtr) then
            q ← deref pods podPtr;
            Done (podInfoReport (Node_Name node) (PodNotSame (Pod_Name q) (Pod_Name p)) st)
          else Done (podInfoK8s v p node st)
      end
  end.

Definition ValidatePodInfo (v : Validator) (pods : list Pod) (r : Report) : Outcome Report :=
  let podList := RetrieveAllPods (k8sCache v) in
  podMap ← trackPods pods podList;
  st ← forRange (podInfoStep v pods) podList {| pi_report := r; pi_podMap := podMap |};
  Done (if bool_decide (0 < size (pi_podMap st))%nat
        then fold_left (fun r p => AppendToNodeReport (GlobalMsg v) (PodError p) r)
                       (elements (pi_podMap st)) (pi_report st)
        else AppendToNodeReport (GlobalMsg v) PodSuccess (pi_report st)).

(** ** ValidateTapToPod *)

Record TapState := {
  tap_report : Report;
  tap_pods : list Pod;
  tap_podMap : gset string
}.

(** The four assignments to the binding fields of a pod. *)
Definition bindTap (ip : string) (intf : NodeInterface) (p : Pod) : Pod :=
  {| Pod_Name := Pod_Name p;
     HostIPAddress := HostIPAddress p;
     IPAddress := IPAddress p;
     VppIfIPAddr := ip;
     VppIfInternalName := VppInternalName (IfMeta intf);
     VppIfName := If_Name (If intf);
     VppSwIfIdx := SwIfIndex (IfMeta intf) |}.

(** The test of the inner loop: [(podIP & bitmask) == (tapIP & bitmask)],
    with [tapIP] taken from the part of [ip] before the first ['/'].
    ([strings.Split] never returns an empty slice, see [Split_nonempty].) *)
Definition tapMatches (p : Pod) (bitmask : Z) (ip : string) : bool :=
  let ipAddr := strings.Split ip "/"%char in
  let podIP := ip2uint32 (IPAddress p) in
  let tapIP := ip2uint32 (default "" (head ipAddr)) in
  bool_decide (Z.land podIP bitmask = Z.land tapIP bitmask).

(** The body of [for _, ip := range intf.If.IPAddresses].  The pod is
    written through its pointer; the fields [Name] and [IPAddress] that the
    body reads are not among the written ones, so they are those of [p],
    the record read at the top of the iteration of the pod. *)
Definition tapIPStep (pod : PodRef) (p : Pod) (bitmask : Z) (intf : NodeInterface)
    (ip : string) (st : TapState) : TapState :=
  if tapMatches p bitmask ip then
    {| tap_report := tap_report st;
       tap_pods := alter (bindTap ip intf) pod (tap_pods st);
       tap_podMap := tap_podMap st ∖ {[ Pod_Name p ]} |}
  else st.

(** The body of [for _, intf := range vppNode.NodeInterfaces]. *)
Definition tapIntfStep (pod : PodRef) (p : Pod) (bitmask : Z) (e : Z * NodeInterface)
    (st : TapState) : TapState :=
  let intf := snd e in
  if strings.Contains (VppInternalName (IfMeta intf)) "tap" then
    fold_left (fun st ip => tapIPStep pod p bitmask intf ip st) (IPAddresses (If intf)) st
  else st.

Definition scanTaps (pod : PodRef) (p : Pod) (bitmask : Z) (vppNode : Node)
    (st : TapState) : TapState :=
  fold_left (fun st e => tapIntfStep pod p bitmask e st) (NodeInterfaces vppNode) st.

Definition tapLogErr (tgt : string) (m : Msg) (st : TapState) : TapState :=
  {| tap_report := LogErrAndAppendToNodeReport tgt m (tap_report st);
     tap_pods := tap_pods st;
     tap_podMap := tap_podMap st |}.

(** From [strings.Split(k8sNode.Pod_CIDR, "/")] to the end of the loop body. *)
Definition bindByCIDR (pod : PodRef) (p : Pod) (vppNode : Node) (k8sNode : K8sNode)
    (st : TapState) : Outcome TapState :=
  let str := strings.Split (Pod_CIDR k8sNode) "/"%char in
  match str !! 1%nat with
  | None => Panic IndexOutOfRange
  | Some mask =>
      let '(i, err) := strconv.Atoi mask in
      let st :=
        match err with
        | Some _ =>
            {| tap_report := AppendToNodeReport (K8sNode_Name k8sNode)
                               (InvalidPodCIDR (Pod_CIDR k8sNode)) (tap_report st);
               tap_pods := tap_pods st;
               tap_podMap := tap_podMap st |}
        | None => st
        end in
      Done (scanTaps pod p (maskLength2Mask i) vppNode st)
  end.

(** The body of the second [for _, pod := range podList]. *)
Definition tapPodStep (v : Validator) (pod : PodRef) (st : TapState) : Outcome TapState :=
  p ← deref (tap_pods st) pod;
  if bool_decide (IPAddress p = HostIPAddress p) then
    Done {| tap_report := tap_report st;
            tap_pods := tap_pods st;
            tap_podMap := tap_podMap st ∖ {[ Pod_Name p ]} |}
  else
    match RetrieveNodeByHostIPAddr (vppCache v) (HostIPAddress p) with
    | None => Done (tapLogErr (GlobalMsg v) (TapInconsistentHostIP (HostIPAddress p)) st)
    | Some vppNode =>
        match RetrieveK8sNode (k8sCache v) (Node_Name vppNode) with
        | None =>
            Done (tapLogErr (Node_Name vppNode) (TapInconsistentK8sNode (Node_Name vppNode)) st)
        | Some k8sNode => bindByCIDR pod p vppNode k8sNode st
        end
    end.

(** What the validator works on: the report sink, the pod records behind the
    pod pointers, and the standard output of the process. *)
Record World := {
  report : Report;
  podStore : list Pod;
  stdout : list Msg
}.

Definition ValidateTapToPod (v : Validator) (w : World) : Outcome World :=
  let podList := RetrieveAllPods (k8sCache v) in
  podMap ← trackPods (podStore w) podList;
  st ← forRange (tapPodStep v) podList
         {| tap_report := report w; tap_pods := podStore w; tap_podMap := podMap |};
  Done {| report := tap_report st;
          podStore := tap_pods st;
          stdout := (stdout w ++ map NoValidTap (elements (tap_podMap st))) |}.

(** ** Validate *)

Definition Validate (v : Validator) (w : World) : Outcome World :=
  let r := ValidateArpTables v (report w) in
  r ← ValidateL2Connectivity v r;
  let r := ValidateL2FibEntries v r in
  let r := ValidateK8sNodeInfo v r in
  r ← ValidatePodInfo v (podStore w) r;
  ValidateTapToPod v {| report := r; podStore := podStore w; stdout := stdout w |}.

(** ** Properties stated with the words of the specification *)

(** The candidates of the tap scan of a node, in scan order: every IP/prefix
    entry of every interface whose internal name contains [tap]. *)
Definition tapCandidates (vppNode : Node) : list (NodeInterface * string) :=
  flat_map
    (fun e : Z * NodeInterface =>
       if strings.Contains (VppInternalName (IfMeta (snd e))) "tap"
       then map (fun ip => (snd e, ip)) (IPAddresses (If (snd e)))
       else [])
    (NodeInterfaces vppNode).

(** The address part of an IP/prefix entry, as a [uint32]. *)
Definition tapAddr (ip : string) : Z :=
  ip2uint32 (default "" (head (strings.Split ip "/"%char))).

(** Two addresses lie in the same subnet of prefix length [ml]: their first
    [ml] bits agree. *)
Definition sameSubnet (ml a b : Z) : Prop :=
  Z.shiftr a (32 - ml) = Z.shiftr b (32 - ml).

(** Two addresses have the same host part under prefix length [ml]: their
    last [32 - ml] bits agree. *)
Definition sameHostPart (ml a b : Z) : Prop :=
  a mod 2 ^ (32 - ml) = b mod 2 ^ (32 - ml).

#[global] Instance sameHostPart_dec ml a b : Decision (sameHostPart ml a b).
Proof. unfold sameHostPart. apply _. Defined.

(** The state in which the binder leaves a pod that it has bound to the
    entry [ip] of [intf]. *)
Definition boundState (pod : PodRef) (p : Pod) (intf : NodeInterface) (ip : string)
    (st : TapState) : TapState :=
  {| tap_report := tap_report st;
     tap_pods := alter (bindTap ip intf) pod (tap_pods st);
     tap_podMap := tap_podMap st ∖ {[ Pod_Name p ]} |}.

(** The binder, as the specification words it: a pod that is not host
    networked, whose node and K8s node resolve and whose Pod CIDR has the
    prefix length [ml], leaves the tracking set exactly when some tap entry
    of its node lies in the subnet of the pod's IP. *)
Definition binds_iff_same_subnet (v : Validator) (pod : PodRef) (st : TapState) : Prop :=
  forall p vppNode k8sNode mask ml st',
    tap_pods st !! pod = Some p ->
    IPAddress p ≠ HostIPAddress p ->
    RetrieveNodeByHostIPAddr (vppCache v) (HostIPAddress p) = Some vppNode ->
    RetrieveK8sNode (k8sCache v) (Node_Name vppNode) = Some k8sNode ->
    strings.Split (Pod_CIDR k8sNode) "/"%char !! 1%nat = Some mask ->
    strconv.Atoi mask = (ml, None) ->
    Pod_Name p ∈ tap_podMap st ->
    tapPodStep v pod st = Done st' ->
    (Pod_Name p ∉ tap_podMap st' <->
     exists intf ip, (intf, ip) ∈ tapCandidates vppNode
                     /\ sameSubnet ml (ip2uint32 (IPAddress p)) (tapAddr ip)).

(** The binder after a failed parse of the prefix length, as the
    specification words it: the scan goes on with the mask of prefix length
    zero. *)
Definition failed_parse_uses_length_zero (v : Validator) (pod : PodRef) (st : TapState) : Prop :=
  forall p vppNode k8sNode mask i err,
    tap_pods st !! pod = Some p ->
    IPAddress p ≠ HostIPAddress p ->
    RetrieveNodeByHostIPAddr (vppCache v) (HostIPAddress p) = Some vppNode ->
    RetrieveK8sNode (k8sCache v) (Node_Name vppNode) = Some k8sNode ->
    strings.Split (Pod_CIDR k8sNode) "/"%char !! 1%nat = Some mask ->
    strconv.Atoi mask = (i, Some err) ->
    tapPodStep v pod st =
      Done (scanTaps pod p (maskLength2Mask 0) vppNode
              {| tap_report := AppendToNodeReport (K8sNode_Name k8sNode)
                                 (InvalidPodCIDR (Pod_CIDR k8sNode)) (tap_report st);
                 tap_pods := tap_pods st;
                 tap_podMap := tap_podMap st |}).

(** The ARP validator, as the specification words it: a static entry on
    the overlay BVI whose MAC and IP both resolve takes the peer out of the
    expected set only when the two resolve to the same node. *)
Definition arp_peer_removed_only_on_agreement (v : Validator) (node : Node)
    (e : NodeIPArpEntry) (st : ArpState) : Prop :=
  forall arpIf macNode ipNode,
    Static (Ae e) = true ->
    alookup (IfIndex (AeMeta e)) (NodeInterfaces node) = Some arpIf ->
    IfType (If arpIf) = SOFTWARE_LOOPBACK ->
    If_Name (If arpIf) = "vxlanBVI" ->
    RetrieveNodeByLoopMacAddr (vppCache v) (Ae_PhysAddress (Ae e)) = Some macNode ->
    RetrieveNodeByLoopIPAddr (vppCache v) (Ae_IPAddress (Ae e) +:+ "/24") = Some ipNode ->
    Node_Name ipNode ∈ loopNodeMap st ->
    Node_Name ipNode ∉ loopNodeMap (arpEntryStep v node e st) ->
    Node_Name macNode = Node_Name ipNode.

(** The entry that [AppendToNodeReport] adds. *)
Definition entry (tgt : string) (m : Msg) : ReportEntry :=
  {| target := tgt; message := m; logged := false |}.

(** How often an entry occurs in a report. *)
Definition occurrences (e : ReportEntry) (r : Report) : nat :=
  length (filter (fun x => x = e) r).

(** A key of the loopback-IP index that ends in the prefix length 24. *)
Definition keyedWithLength24 (k : string) : Prop :=
  exists addr, k = addr +:+ "/24".

(** The validator with another loopback-IP index. *)
Definition withLoopIPIndex (v : Validator) (index : string -> option Node) : Validator :=
  {| vppCache :=
       {| RetrieveAllNodes := RetrieveAllNodes (vppCache v);
          RetrieveNodeByLoopMacAddr := RetrieveNodeByLoopMacAddr (vppCache v);
          RetrieveNodeByLoopIPAddr := index;
          RetrieveNodeByGigEIPAddr := RetrieveNodeByGigEIPAddr (vppCache v);
          RetrieveNodeByHostIPAddr := RetrieveNodeByHostIPAddr (vppCache v) |};
     k8sCache := k8sCache v;
     GlobalMsg := GlobalMsg v;
     VppVNI := VppVNI v;
     GetNodeLoopIFInfo := GetNodeLoopIFInfo v |}.

(** The scan over the interfaces and their entries, as one pass over the
    candidates. *)
Definition scanCandidates (pod : PodRef) (p : Pod) (bitmask : Z)
    (cands : list (NodeInterface * string)) (st : TapState) : TapState :=
  fold_left (fun st c => tapIPStep pod p bitmask (fst c) (snd c) st) cands st.


(** The bridge domains of a list that are named [vxlanBD]. *)
Definition overlayBDs (bds : list (Z * NodeBridgeDomain)) : list (Z * NodeBridgeDomain) :=
  filter (fun e => Bd_Name (Bd e.2) = "vxlanBD") bds.

(** The last line of the report of the VXLAN validator. *)
Definition l2Summary (v : Validator) (errCnt : Z) : ReportEntry :=
  entry (GlobalMsg v) (if bool_decide (errCnt = 0) then L2ConnOK else L2ConnErrors errCnt).

(** A FIB entry qualifies: it belongs to the bridge domain with the index
    [vxLanBD] and is statically configured. *)
Definition qualifies (vxLanBD : Z) (e : string * NodeL2FibEntry) : Prop :=
  BridgeDomainID (FeMeta e.2) = vxLanBD /\ StaticConfig (Fe e.2) = true.

#[global] Instance qualifies_dec vxLanBD e : Decision (qualifies vxLanBD e).
Proof. unfold qualifies. apply _. Defined.

(** ** Fixtures *)

Module Fixture.

Definition noVxlan : Vxlan := {| SrcAddress := ""; DstAddress := ""; Vni := 0 |}.

Definition tapIfc (swIfIndex : Z) (ips : list string) : NodeInterface :=
  {| If := {| If_Name := "tap-pod"; IfType := TAP_INTERFACE; If_PhysAddress := "02:fe:00:00:00:01";
              IPAddresses := ips; If_Vxlan := noVxlan |};
     IfMeta := {| SwIfIndex := swIfIndex; VppInternalName := "tap3" |} |}.

Definition loopIfc (mac : string) (ips : list string) : NodeInterface :=
  {| If := {| If_Name := "vxlanBVI"; IfType := SOFTWARE_LOOPBACK; If_PhysAddress := mac;
              IPAddresses := ips; If_Vxlan := noVxlan |};
     IfMeta := {| SwIfIndex := 1; VppInternalName := "loop0" |} |}.

Definition emptyNode (name : string) : Node :=
  {| Node_Name := name; NodeInterfaces := []; NodeBridgeDomains := [];
     NodeL2Fibs := []; NodeIPArp := []; PodMap := ∅ |}.

(** A cache over a list of nodes, each with the keys under which the four
    indices know it. *)
Record Indexed := {
  ix_node : Node;
  ix_loopMac : string;
  ix_loopIP : string;
  ix_gigEIP : string;
  ix_hostIP : string
}.

Definition findBy (key : Indexed -> string) (l : list Indexed) (k : string) : option Node :=
  ix_node <$> head (filter (fun e => key e = k) l).

Definition cacheOf (l : list Indexed) : VppCache :=
  {| RetrieveAllNodes := map ix_node l;
     RetrieveNodeByLoopMacAddr := findBy ix_loopMac l;
     RetrieveNodeByLoopIPAddr := findBy ix_loopIP l;
     RetrieveNodeByGigEIPAddr := findBy ix_gigEIP l;
     RetrieveNodeByHostIPAddr := findBy ix_hostIP l |}.

Definition k8sCacheOf (l : list K8sNode) (pods : list PodRef) : K8sCache :=
  {| RetrieveAllK8sNodes := l;
     RetrieveK8sNode := fun name => head (filter (fun n => K8sNode_Name n = name) l);
     RetrieveAllPods := pods |}.

Definition loopOf (node : Node) : option NodeInterface :=
  snd <$> head (filter (fun e => If_Name (If (snd e)) = "vxlanBVI") (NodeInterfaces node)).

Definition validatorOf (l : list Indexed) (k : list K8sNode) (pods : list PodRef) : Validator :=
  {| vppCache := cacheOf l; k8sCache := k8sCacheOf k pods;
     GlobalMsg := "global"; VppVNI := 10; GetNodeLoopIFInfo := loopOf |}.

(** *** One node with one pod behind a tap interface *)

Definition web : Pod :=
  {| Pod_Name := "web"; HostIPAddress := "192.168.16.1"; IPAddress := "10.1.1.5";
     VppIfIPAddr := ""; VppIfInternalName := ""; VppIfName := ""; VppSwIfIdx := 0 |}.

Definition tapNode (tapIPs : list string) : Node :=
  {| Node_Name := "k8s-master"; NodeInterfaces := [(3, tapIfc 3 tapIPs)];
     NodeBridgeDomains := []; NodeL2Fibs := []; NodeIPArp := [];
     PodMap := {[ "web" := 0%nat ]} |}.

Definition tapK8sNode (cidr : string) : K8sNode :=
  {| K8sNode_Name := "k8s-master";
     Addresses := [{| Addr_Type := 3; Address := "192.168.16.1" |};
                   {| Addr_Type := 1; Address := "k8s-master" |}];
     Pod_CIDR := cidr |}.

Definition tapCluster (cidr : string) (tapIPs : list string) : Validator :=
  validatorOf
    [{| ix_node := tapNode tapIPs; ix_loopMac := "1a:2b:3c:4d:5e:01";
        ix_loopIP := "192.168.30.1/24"; ix_gigEIP := "192.168.16.1";
        ix_hostIP := "192.168.16.1" |}]
    [tapK8sNode cidr]
    [0%nat].

Definition tapStart : TapState :=
  {| tap_report := []; tap_pods := [web]; tap_podMap := {[ "web" ]} |}.

Definition world : World := {| report := []; podStore := [web]; stdout := [] |}.

(** *** A host-networked pod *)

Definition hostPod : Pod :=
  {| Pod_Name := "kube-proxy"; HostIPAddress := "192.168.16.1"; IPAddress := "192.168.16.1";
     VppIfIPAddr := ""; VppIfInternalName := ""; VppIfName := ""; VppSwIfIdx := 0 |}.

Definition hostStart : TapState :=
  {| tap_report := []; tap_pods := [hostPod]; tap_podMap := {[ "kube-proxy" ]} |}.

(** *** Three nodes with their loopback indices; the first node has a
    static ARP entry on its BVI with the MAC of the third node and the IP
    of the second *)

Definition arpEntry (mac ip : string) : NodeIPArpEntry :=
  {| Ae := {| Ae_PhysAddress := mac; Ae_IPAddress := ip; Static := true |};
     AeMeta := {| IfIndex := 1 |} |}.

Definition arpNode1 (arps : list NodeIPArpEntry) : Node :=
  {| Node_Name := "k8s-master";
     NodeInterfaces := [(1, loopIfc "1a:2b:3c:4d:5e:01" ["192.168.30.1/24"])];
     NodeBridgeDomains := []; NodeL2Fibs := []; NodeIPArp := arps; PodMap := ∅ |}.

Definition indexed (node : Node) (n : string) : Indexed :=
  {| ix_node := node; ix_loopMac := "1a:2b:3c:4d:5e:0" +:+ n;
     ix_loopIP := "192.168.30." +:+ n +:+ "/24"; ix_gigEIP := "192.168.16." +:+ n;
     ix_hostIP := "192.168.16." +:+ n |}.

Definition arpCluster (arps : list NodeIPArpEntry) : Validator :=
  validatorOf
    [indexed (arpNode1 arps) "1"; indexed (emptyNode "k8s-worker1") "2";
     indexed (emptyNode "k8s-worker2") "3"]
    [] [].

Definition crossedEntry : NodeIPArpEntry := arpEntry "1a:2b:3c:4d:5e:03" "192.168.30.2".

Definition arpStart : ArpState :=
  {| arp_errCnt := 0; arp_report := [];
     loopNodeMap := {[ "k8s-worker1"; "k8s-worker2" ]} |}.

(** *** Bridge domains *)

Definition overlayBD (members : list BDInterface) (names : list (Z * string)) : NodeBridgeDomain :=
  {| Bd := {| Bd_Name := "vxlanBD"; Interfaces := members |};
     BdMeta := {| BdID2Name := names |} |}.

Definition otherBD : NodeBridgeDomain :=
  {| Bd := {| Bd_Name := "otherBD"; Interfaces := [] |};
     BdMeta := {| BdID2Name := [] |} |}.

Definition bviMember : BDInterface := {| BDIfc_Name := "vxlanBVI"; BVI := true |}.

Definition tunnelMember (name : string) : BDInterface := {| BDIfc_Name := name; BVI := false |}.

Definition vxlanIfc (name src dst : string) : NodeInterface :=
  {| If := {| If_Name := name; IfType := VXLAN_TUNNEL; If_PhysAddress := "";
              IPAddresses := [];
              If_Vxlan := {| SrcAddress := src; DstAddress := dst; Vni := 10 |} |};
     IfMeta := {| SwIfIndex := 0; VppInternalName := "vxlan_tunnel0" |} |}.

(** *** One node whose overlay bridge domain is followed by another
    bridge domain, and the same node with the two in the other order *)

Definition soloBD : NodeBridgeDomain := overlayBD [bviMember] [(1, "vxlanBVI")].

Definition soloNode (bds : list NodeBridgeDomain) : Node :=
  {| Node_Name := "k8s-master";
     NodeInterfaces := [(1, loopIfc "1a:2b:3c:4d:5e:01" ["192.168.30.1/24"])];
     NodeBridgeDomains := rangeOf bds; NodeL2Fibs := []; NodeIPArp := []; PodMap := ∅ |}.

Definition soloCluster (bds : list NodeBridgeDomain) : Validator :=
  validatorOf [indexed (soloNode bds) "1"] [] [].

(** *** Two nodes; the first has its BVI and two tunnels to the second *)

Definition twinBD : NodeBridgeDomain :=
  overlayBD [bviMember; tunnelMember "vxlan2"; tunnelMember "vxlan3"]
            [(1, "vxlanBVI"); (2, "vxlan2"); (3, "vxlan3")].

Definition twinNode1 : Node :=
  {| Node_Name := "k8s-master";
     NodeInterfaces :=
       [(1, loopIfc "1a:2b:3c:4d:5e:01" ["192.168.30.1/24"]);
        (2, vxlanIfc "vxlan2" "192.168.16.1" "192.168.16.2");
        (3, vxlanIfc "vxlan3" "192.168.16.1" "192.168.16.2")];
     NodeBridgeDomains := rangeOf [twinBD]; NodeL2Fibs := []; NodeIPArp := []; PodMap := ∅ |}.

Definition twinNode2 : Node :=
  {| Node_Name := "k8s-worker1";
     NodeInterfaces :=
       [(1, loopIfc "1a:2b:3c:4d:5e:02" ["192.168.30.2/24"]);
        (2, vxlanIfc "vxlan1" "192.168.16.2" "192.168.16.1")];
     NodeBridgeDomains :=
       rangeOf [overlayBD [bviMember; tunnelMember "vxlan1"] [(1, "vxlanBVI"); (2, "vxlan1")]];
     NodeL2Fibs := []; NodeIPArp := []; PodMap := ∅ |}.

Definition twinCluster : Validator :=
  validatorOf [indexed twinNode1 "1"; indexed twinNode2 "2"] [] [].

Definition twinStart : L2Acc :=
  {| acc_errCnt := 0; acc_report := []; nodeMap := {[ "k8s-master"; "k8s-worker1" ]} |}.

(** *** Two nodes; the L2 FIB of the first holds its own BVI entry, the
    entry of the second node, a dynamic entry of the overlay bridge domain
    and a static entry of another bridge domain *)

Definition fibEntry (mac : string) (bvi static : bool) (bd outIf : Z) : NodeL2FibEntry :=
  {| Fe := {| Fe_PhysAddress := mac; BridgedVirtualInterface := bvi; StaticConfig := static;
              OutgoingIfName := "vxlan2" |};
     FeMeta := {| BridgeDomainID := bd; OutgoingIfIndex := outIf |} |}.

Definition fibTable : list (string * NodeL2FibEntry) :=
  [("1a:2b:3c:4d:5e:01", fibEntry "1a:2b:3c:4d:5e:01" true true 1 1);
   ("1a:2b:3c:4d:5e:02", fibEntry "1a:2b:3c:4d:5e:02" false true 1 2);
   ("02:fe:aa:bb:cc:01", fibEntry "02:fe:aa:bb:cc:01" false false 1 7);
   ("02:fe:aa:bb:cc:02", fibEntry "02:fe:aa:bb:cc:02" false true 0 7)].

Definition fibNode1 (fibs : list (string * NodeL2FibEntry)) : Node :=
  {| Node_Name := "k8s-master";
     NodeInterfaces :=
       [(1, loopIfc "1a:2b:3c:4d:5e:01" ["192.168.30.1/24"]);
        (2, vxlanIfc "vxlan2" "192.168.16.1" "192.168.16.2")];
     NodeBridgeDomains :=
       rangeOf [otherBD;
                overlayBD [bviMember; tunnelMember "vxlan2"] [(1, "vxlanBVI"); (2, "vxlan2")]];
     NodeL2Fibs := fibs; NodeIPArp := []; PodMap := ∅ |}.

Definition fibCluster (fibs : list (string * NodeL2FibEntry)) : Validator :=
  validatorOf [indexed (fibNode1 fibs) "1"; indexed twinNode2 "2"] [] [].

(** *** Three nodes whose loopback-IP index is keyed with the prefix
    length 16 *)

Definition indexed16 (node : Node) (n : string) : Indexed :=
  {| ix_node := node; ix_loopMac := "1a:2b:3c:4d:5e:0" +:+ n;
     ix_loopIP := "192.168.30." +:+ n +:+ "/16"; ix_gigEIP := "192.168.16." +:+ n;
     ix_hostIP := "192.168.16." +:+ n |}.

Definition arpCluster16 (arps : list NodeIPArpEntry) : Validator :=
  validatorOf
    [indexed16 (arpNode1 arps) "1"; indexed16 (emptyNode "k8s-worker1") "2";
     indexed16 (emptyNode "k8s-worker2") "3"]
    [] [].

End Fixture.

(** ** Notions used by the further properties *)

(** The value of a dotted quad whose four parts are [a], [b], [c], [d]. *)
Definition quad (a b c d : Z) : Z :=
  a * 2 ^ 24 + b * 2 ^ 16 + c * 2 ^ 8 + d.

(** [n] times [errCnt++]. *)
Definition incrBy (n : nat) (z : Z) : Z := Nat.iter n incr z.

(** A static ARP entry on the overlay BVI, with a MAC that resolves, whose
    IP resolves to the node named [n]. *)
Definition arpAccounts (v : Validator) (node : Node) (e : NodeIPArpEntry) (n : string) : Prop :=
  Static (Ae e) = true
  /\ (exists arpIf,
        alookup (IfIndex (AeMeta e)) (NodeInterfaces node) = Some arpIf
        /\ IfType (If arpIf) = SOFTWARE_LOOPBACK
        /\ If_Name (If arpIf) = "vxlanBVI")
  /\ is_Some (RetrieveNodeByLoopMacAddr (vppCache v) (Ae_PhysAddress (Ae e)))
  /\ (exists ipNode,
        RetrieveNodeByLoopIPAddr (vppCache v) (Ae_IPAddress (Ae e) +:+ "/24") = Some ipNode
        /\ Node_Name ipNode = n).

(** The last line of the report of the ARP validator. *)
Definition arpSummary (v : Validator) (errCnt : Z) : ReportEntry :=
  entry (GlobalMsg v)
    (if bool_decide (errCnt = 0) then ArpOK else ArpErrors errCnt (printS errCnt)).

(** The dataplane node has a K8s node of its own name. *)
Definition k8sMatches (v : Validator) (node : Node) : Prop :=
  exists k8sNode,
    RetrieveK8sNode (k8sCache v) (Node_Name node) = Some k8sNode
    /\ Node_Name node = K8sNode_Name k8sNode.

#[global] Instance k8sMatches_dec v node : Decision (k8sMatches v node).
Proof.
  unfold k8sMatches. destruct (RetrieveK8sNode (k8sCache v) (Node_Name node)) as [k|].
  - destruct (decide (Node_Name node = K8sNode_Name k)) as [He|Hne].
    + left. by exists k.
    + right. intros (k' & [= <-] & He). done.
  - right. by intros (k' & [=] & _).
Defined.

(** The names of the dataplane nodes that have a K8s node of their name. *)
Definition k8sMatched (v : Validator) (nodeList : list Node) : gset string :=
  nameSet Node_Name (filter (k8sMatches v) nodeList).

(** The address entry counts for the pod: an internal IP (type 3) equal to
    the host IP of the pod, or a host name (type 1) equal to the name of the
    node. *)
Definition addrCounts (p : Pod) (node : Node) (adr : NodeAddress) : Prop :=
  (Addr_Type adr = 3 /\ Address adr = HostIPAddress p)
  \/ (Addr_Type adr = 1 /\ Address adr = Node_Name node).

#[global] Instance addrCounts_dec p node adr : Decision (addrCounts p node adr).
Proof. unfold addrCounts. apply _. Defined.

(** A member of the bridge domain that sets the BVI flag: it is marked BVI
    and its index leads to a loopback interface of the node. *)
Definition setsBviFlag (node : Node) (bdName2Id : gmap string Z) (bdIfc : BDInterface) : bool :=
  BVI bdIfc
  && match alookup (default 0 (bdName2Id !! BDIfc_Name bdIfc)) (NodeInterfaces node) with
     | Some nodeIfc => bool_decide (IfType (If nodeIfc) = SOFTWARE_LOOPBACK)
     | None => false
     end.

(** Two pod records with the same name, host IP and IP. *)
Definition samePod (p q : Pod) : Prop :=
  Pod_Name p = Pod_Name q
  /\ HostIPAddress p = HostIPAddress q
  /\ IPAddress p = IPAddress q.

(** The entry that [LogErrAndAppendToNodeReport] adds. *)
Definition loggedEntry (tgt : string) (m : Msg) : ReportEntry :=
  {| target := tgt; message := m; logged := true |}.

(** The dataplane node has no K8s node under its name. *)
Definition k8sAbsent (v : Validator) (node : Node) : Prop :=
  RetrieveK8sNode (k8sCache v) (Node_Name node) = None.

#[global] Instance k8sAbsent_dec v node : Decision (k8sAbsent v node).
Proof.
  unfold k8sAbsent. destruct (RetrieveK8sNode (k8sCache v) (Node_Name node)).
  - right. discriminate.
  - left. reflexivity.
Defined.

(** The pointer is not nil: it is an address of the pod store. *)
Definition validRef (pods : list Pod) (pod : PodRef) : Prop := is_Some (pods !! pod).

#[global] Instance validRef_dec pods pod : Decision (validRef pods pod).
Proof. unfold validRef. apply _. Defined.

(** The names of the pods behind a list of pointers. *)
Definition podNames (pods : list Pod) (podList : list PodRef) : gset string :=
  list_to_set (omap (fun pod => Pod_Name <$> pods !! pod) podList).

(** The last line of the report of the L2 FIB validator. *)
Definition fibSummary (v : Validator) (errCnt : Z) : ReportEntry :=
  entry (GlobalMsg v) (if bool_decide (errCnt = 0) then FibOK else FibErrors errCnt).

(** What the second loop of the L2 FIB validator does with an entry that
    qualifies, branch by branch: the lines it adds to the report of the
    node, the peer it accounts for (none when the entry is given up after an
    error), and whether it sets the flag of the node's own BVI entry. *)
Definition fibEntryLines (v : Validator) (node : Node) (feKey : string)
    (feVal : NodeL2FibEntry) : list ReportEntry :=
  let name := Node_Name node in
  let mac := Fe_PhysAddress (Fe feVal) in
  if BridgedVirtualInterface (Fe feVal) then
    match GetNodeLoopIFInfo v node with
    | None => [entry name (FibLoopNotFound feKey name)]
    | Some loopIf =>
        if bool_decide (mac = If_PhysAddress (If loopIf)) then []
        else [loggedEntry name (FibBviBadMac feKey mac (If_PhysAddress (If loopIf)))]
    end
    ++ match RetrieveNodeByLoopMacAddr (vppCache v) mac with
       | Some _ => []
       | None => [loggedEntry name (FibInconsistentMac mac)]
       end
  else
    match alookup (OutgoingIfIndex (FeMeta feVal)) (NodeInterfaces node) with
    | None =>
        [entry name (FibOutIfNotFound mac (OutgoingIfName (Fe feVal))
                       (OutgoingIfIndex (FeMeta feVal)))]
    | Some intf =>
        match RetrieveNodeByGigEIPAddr (vppCache v) (DstAddress (If_Vxlan (If intf))) with
        | None => [entry name (FibRemoteNotFound feKey (DstAddress (If_Vxlan (If intf))))]
        | Some macNode =>
            match GetNodeLoopIFInfo v macNode with
            | None => [entry name (FibMissingRemoteLoop mac (Node_Name macNode))]
            | Some remoteLoopIF =>
                (if bool_decide (If_PhysAddress (If remoteLoopIF) = mac) then []
                 else [entry name (FibBadMac feKey mac (If_PhysAddress (If remoteLoopIF)))])
                ++ match RetrieveNodeByLoopMacAddr (vppCache v) mac with
                   | Some _ => []
                   | None => [entry name (FibInconsistentMac mac)]
                   end
            end
        end
    end.

Definition fibEntryPeer (v : Validator) (node : Node) (feVal : NodeL2FibEntry) : option string :=
  if BridgedVirtualInterface (Fe feVal) then Some (Node_Name node)
  else
    match alookup (OutgoingIfIndex (FeMeta feVal)) (NodeInterfaces node) with
    | None => None
    | Some intf =>
        Node_Name <$> RetrieveNodeByGigEIPAddr (vppCache v) (DstAddress (If_Vxlan (If intf)))
    end.

Definition fibEntrySetsFlag (v : Validator) (feVal : NodeL2FibEntry) : bool :=
  BridgedVirtualInterface (Fe feVal)
  && bool_decide (is_Some (RetrieveNodeByLoopMacAddr (vppCache v) (Fe_PhysAddress (Fe feVal)))).

(** The lines that close the validation of a node of the L2 FIB validator,
    from the state in which the scan of the entries ends. *)
Definition fibClosingLines (node : Node) (st : FibState) : list ReportEntry :=
  (if fibHasLoopIF st then [] else [entry (Node_Name node) FibLoop0NotFound])
  ++ map (fun n => loggedEntry (Node_Name node) (FibMissing n)) (elements (nodeFibMap st))
  ++ map (fun k => entry (Node_Name node) (FibDangling k)) (elements (fibNodeMap st)).

(** [s] ends in [suffix]. *)
Fixpoint endsWith (s suffix : string) : bool :=
  String.eqb s suffix
  || match s with
     | EmptyString => false
     | String _ rest => endsWith rest suffix
     end.

(** The lines that the binder adds to the report for a pod, and whether it
    takes the pod out of its tracking set: both are settled by the name, the
    host IP and the IP of the pod. *)
Definition binderLines (v : Validator) (p : Pod) : list ReportEntry :=
  if bool_decide (IPAddress p = HostIPAddress p) then []
  else
    match RetrieveNodeByHostIPAddr (vppCache v) (HostIPAddress p) with
    | None => [loggedEntry (GlobalMsg v) (TapInconsistentHostIP (HostIPAddress p))]
    | Some vppNode =>
        match RetrieveK8sNode (k8sCache v) (Node_Name vppNode) with
        | None => [loggedEntry (Node_Name vppNode) (TapInconsistentK8sNode (Node_Name vppNode))]
        | Some k8sNode =>
            match strings.Split (Pod_CIDR k8sNode) "/"%char !! 1%nat with
            | None => []
            | Some mask =>
                match snd (strconv.Atoi mask) with
                | Some _ => [entry (K8sNode_Name k8sNode) (InvalidPodCIDR (Pod_CIDR k8sNode))]
                | None => []
                end
            end
        end
    end.

Definition binderRemoves (v : Validator) (p : Pod) : bool :=
  bool_decide (IPAddress p = HostIPAddress p)
  || match RetrieveNodeByHostIPAddr (vppCache v) (HostIPAddress p) with
     | None => false
     | Some vppNode =>
         match RetrieveK8sNode (k8sCache v) (Node_Name vppNode) with
         | None => false
         | Some k8sNode =>
             match strings.Split (Pod_CIDR k8sNode) "/"%char !! 1%nat with
             | None => false
             | Some mask =>
                 existsb (fun c => tapMatches p (maskLength2Mask (fst (strconv.Atoi mask))) c.2)
                         (tapCandidates vppNode)
             end
         end
     end.

(** The pod records behind a list of pointers, in the order of the list. *)
Definition podRecords (pods : list Pod) (podList : list PodRef) : list Pod :=
  omap (fun pod => pods !! pod) podList.

(** * Theorems *)

(** A decidable statement without variables, by evaluation. *)
Ltac by_compute := apply (bool_decide_unpack _); vm_compute; exact I.

(** ** The library functions on the inputs of the validator *)

Example Split_cidr : strings.Split "10.1.1.0/24" "/"%char = ["10.1.1.0"; "24"].
Proof. reflexivity. Qed.

Example Split_no_sep : strings.Split "10.1.1.0" "/"%char = ["10.1.1.0"].
Proof. reflexivity. Qed.

Example Atoi_24 : strconv.Atoi "24" = (24, None).
Proof. reflexivity. Qed.

Example Atoi_bad : strconv.Atoi "2x" = (0, Some strconv.ErrSyntax).
Proof. reflexivity. Qed.

Example Atoi_huge :
  strconv.Atoi "99999999999999999999" = (MaxInt, Some strconv.ErrRange).
Proof. reflexivity. Qed.

(** The range error comes before the bytes after the overflow are read. *)
Example Atoi_huge_then_letter :
  strconv.Atoi "99999999999999999999x" = (MaxInt, Some strconv.ErrRange)
  /\ strconv.Atoi "9223372036854775808x" = (0, Some strconv.ErrSyntax)
  /\ strconv.Atoi "-9223372036854775808" = (MinInt, None)
  /\ strconv.Atoi "9223372036854775808" = (MaxInt, Some strconv.ErrRange).
Proof. repeat split; reflexivity. Qed.

Example mask_24 : maskLength2Mask 24 = 255.
Proof. reflexivity. Qed.

Example ip_10_1_1_5 : ip2uint32 "10.1.1.5" = 167837957.
Proof. reflexivity. Qed.

Lemma Split_nonempty s sep : strings.Split s sep ≠ [].
Proof.
  destruct s as [|c s]; simpl; [done|].
  destruct (Ascii.eqb c sep); [done|].
  destruct (strings.Split s sep); done.
Qed.

Lemma wrap_uint32_range z : 0 <= wrap_uint32 z < 2 ^ 32.
Proof. unfold wrap_uint32. apply Z.mod_pos_bound. lia. Qed.

Lemma ip2uint32_range s : 0 <= ip2uint32 s < 2 ^ 32.
Proof.
  unfold ip2uint32.
  cut (forall l z, 0 <= z < 2 ^ 32 ->
         0 <= fold_left (fun ipu p =>
                wrap_uint32 (wrap_uint32 (Z.shiftl ipu 8)
                             + wrap_uint32 (fst (strconv.Atoi p)))) l z < 2 ^ 32).
  { intros H. apply H. lia. }
  induction l as [|p l IH]; intros z Hz; cbn [fold_left]; [exact Hz|].
  apply IH, wrap_uint32_range.
Qed.

Lemma Z_iter_succ {A} (f : A -> A) (x : A) n :
  0 <= n -> Z.iter (Z.succ n) f x = f (Z.iter n f x).
Proof.
  intros Hn. rewrite !iter_nat_of_Z by lia.
  rewrite Zabs2Nat.inj_succ by done. done.
Qed.

(** After [n] turns, at most 32, the mask has its [n] low bits set. *)
Lemma mask_iter n : 0 <= n <= 32 -> Z.iter n mask_step 0 = 2 ^ n - 1.
Proof.
  intros [Hn Hle]. revert Hle. pattern n. apply natlike_ind; [done| |done].
  clear n Hn. intros n Hn IH Hle.
  rewrite Z_iter_succ by done. rewrite IH by lia.
  unfold mask_step, wrap_uint32. rewrite Z.shiftl_mul_pow2 by lia.
  rewrite Z.pow_succ_r by done. change (2 ^ 1) with 2.
  assert (0 < 2 ^ n) by (apply Z.pow_pos_nonneg; lia).
  assert (2 ^ n <= 2 ^ 31) by (apply Z.pow_le_mono_r; lia).
  change (2 ^ 31) with 2147483648 in *. change (2 ^ 32) with 4294967296.
  rewrite (Z.mod_small ((2 ^ n - 1) * 2)) by lia.
  rewrite Z.mod_small by lia. lia.
Qed.

Lemma maskLength2Mask_ones ml :
  0 <= ml <= 32 -> maskLength2Mask ml = Z.ones (32 - ml).
Proof.
  intros H. unfold maskLength2Mask.
  replace (wrap_int (32 - ml)) with (32 - ml).
  - rewrite mask_iter by lia. rewrite Z.ones_equiv. lia.
  - unfold wrap_int. change (2 ^ 63) with 9223372036854775808.
    change (2 ^ 64) with 18446744073709551616.
    rewrite Z.mod_small; lia.
Qed.

(** With the mask of a prefix length the test of the binder compares the
    host parts of the two addresses. *)
Lemma tapMatches_hostPart p ml ip :
  0 <= ml <= 32 ->
  tapMatches p (maskLength2Mask ml) ip
  = bool_decide (sameHostPart ml (ip2uint32 (IPAddress p)) (tapAddr ip)).
Proof.
  intros H. unfold tapMatches, sameHostPart, tapAddr.
  rewrite maskLength2Mask_ones by done.
  rewrite !Z.land_ones by lia. done.
Qed.

(** ** The tap scan *)

Lemma scanTaps_candidates pod p bitmask vppNode st :
  scanTaps pod p bitmask vppNode st
  = scanCandidates pod p bitmask (tapCandidates vppNode) st.
Proof.
  unfold scanTaps, tapCandidates, scanCandidates.
  revert st. induction (NodeInterfaces vppNode) as [|e l IH]; intros st; simpl; [done|].
  rewrite fold_left_app, <- IH. f_equal.
  unfold tapIntfStep. destruct (strings.Contains _ _); [|done].
  generalize (IPAddresses (If e.2)). clear. intros ips. revert st.
  induction ips as [|ip ips IH]; intros st; simpl; [done|]. apply IH.
Qed.

Lemma boundState_twice pod p intf ip intf' ip' st :
  boundState pod p intf' ip' (boundState pod p intf ip st) = boundState pod p intf' ip' st.
Proof.
  unfold boundState; simpl. f_equal.
  - rewrite list_alter_alter_eq. by apply list_alter_ext.
  - set_solver.
Qed.

(** The scan binds the pod to the last candidate that passes the test, and
    leaves the state alone when there is none. *)
Lemma scanCandidates_last pod p bitmask cands st :
  scanCandidates pod p bitmask cands st
  = match last (filter (fun c => tapMatches p bitmask c.2 = true) cands) with
    | None => st
    | Some c => boundState pod p c.1 c.2 st
    end.
Proof.
  revert st. induction cands as [|c cands IH]; intros st; [done|].
  unfold scanCandidates in *. simpl. rewrite IH. clear IH.
  unfold tapIPStep. destruct (tapMatches p bitmask c.2) eqn:Hm.
  - rewrite filter_cons_True by done. rewrite last_cons.
    destruct (last _); [|done]. apply boundState_twice.
  - rewrite filter_cons_False by (rewrite Hm; done). done.
Qed.

Lemma scanCandidates_bound pod p bitmask cands st :
  Pod_Name p ∈ tap_podMap st ->
  (Pod_Name p ∉ tap_podMap (scanCandidates pod p bitmask cands st)
   <-> exists c, c ∈ cands /\ tapMatches p bitmask c.2 = true).
Proof.
  intros Hin. rewrite scanCandidates_last.
  destruct (last _) as [c|] eqn:Hl.
  - apply last_Some_elem_of, list_elem_of_filter in Hl as [Hm Hc].
    split; [eauto|]. intros _. simpl. set_solver.
  - apply last_None in Hl. split; [done|].
    intros (c & Hc & Hm). destruct (filter_nil_not_elem_of _ _ c Hl Hm Hc).
Qed.

(** ** The binder *)

(** C1 (amended).  For a pod that is not host networked, whose host node and
    K8s node resolve and whose Pod CIDR carries a prefix length [ml] between
    0 and 32, the binder ends the iteration normally, and it binds the pod
    (writes the binding fields and takes the pod out of the tracking set)
    exactly when some IP/prefix entry of a tap interface of the node has the
    same host part as the pod's IP, that is, the same last [32 - ml] bits;
    the entry it binds to is the last such entry of the scan. *)
Theorem binder_binds_same_host_part v pod st p vppNode k8sNode mask ml :
  tap_pods st !! pod = Some p ->
  IPAddress p ≠ HostIPAddress p ->
  RetrieveNodeByHostIPAddr (vppCache v) (HostIPAddress p) = Some vppNode ->
  RetrieveK8sNode (k8sCache v) (Node_Name vppNode) = Some k8sNode ->
  strings.Split (Pod_CIDR k8sNode) "/"%char !! 1%nat = Some mask ->
  strconv.Atoi mask = (ml, None) ->
  0 <= ml <= 32 ->
  exists st',
    tapPodStep v pod st = Done st'
    /\ st' = match last (filter (fun c => sameHostPart ml (ip2uint32 (IPAddress p)) (tapAddr c.2))
                                (tapCandidates vppNode)) with
             | None => st
             | Some c => boundState pod p c.1 c.2 st
             end
    /\ (Pod_Name p ∈ tap_podMap st ->
        (Pod_Name p ∉ tap_podMap st'
         <-> exists intf ip, (intf, ip) ∈ tapCandidates vppNode
                             /\ sameHostPart ml (ip2uint32 (IPAddress p)) (tapAddr ip))).
Proof.
  intros Hp Hne Hnode Hk8s Hsplit Hatoi Hml.
  eexists. split; [|split].
  - unfold tapPodStep, deref. rewrite Hp. simpl.
    rewrite bool_decide_eq_false_2 by done. rewrite Hnode, Hk8s.
    unfold bindByCIDR. rewrite Hsplit, Hatoi. reflexivity.
  - rewrite scanTaps_candidates, scanCandidates_last.
    rewrite (list_filter_iff _
               (fun c => sameHostPart ml (ip2uint32 (IPAddress p)) (tapAddr c.2))); [done|].
    intros c. rewrite tapMatches_hostPart by done. apply bool_decide_eq_true.
  - intros Hin. rewrite scanTaps_candidates, scanCandidates_bound by done.
    split.
    + intros ([intf ip] & Hc & Hm). exists intf, ip. split; [done|].
      rewrite tapMatches_hostPart in Hm by done. by apply bool_decide_eq_true in Hm.
    + intros (intf & ip & Hc & Hm). exists (intf, ip). split; [done|].
      rewrite tapMatches_hostPart by done. by apply bool_decide_eq_true.
Qed.

Lemma binder_binds_same_host_part_witness :
  tapPodStep (Fixture.tapCluster "10.1.1.0/24" ["172.30.9.5/32"]) 0%nat Fixture.tapStart
  = Done (boundState 0%nat Fixture.web (Fixture.tapIfc 3 ["172.30.9.5/32"]) "172.30.9.5/32"
            Fixture.tapStart).
Proof.
  destruct (binder_binds_same_host_part
              (Fixture.tapCluster "10.1.1.0/24" ["172.30.9.5/32"]) 0%nat Fixture.tapStart
              Fixture.web (Fixture.tapNode ["172.30.9.5/32"])
              (Fixture.tapK8sNode "10.1.1.0/24") "24" 24
              eq_refl ltac:(discriminate) eq_refl eq_refl eq_refl eq_refl ltac:(lia))
    as (st' & Hstep & -> & _).
  exact Hstep.
Defined.

(** The claim as the specification words it fails: a tap entry in the
    subnet of the pod's IP whose host part differs does not bind the pod. *)
Lemma binder_same_subnet_counterexample :
  ~ binds_iff_same_subnet (Fixture.tapCluster "10.1.1.0/24" ["10.1.1.1/24"]) 0%nat
      Fixture.tapStart.
Proof.
  intros H.
  specialize (H Fixture.web (Fixture.tapNode ["10.1.1.1/24"])
                (Fixture.tapK8sNode "10.1.1.0/24") "24" 24 Fixture.tapStart
                eq_refl).
  destruct H as [_ H].
  - discriminate.
  - reflexivity.
  - reflexivity.
  - reflexivity.
  - reflexivity.
  - by_compute.
  - vm_compute. reflexivity.
  - apply H; [|by_compute].
    exists (Fixture.tapIfc 3 ["10.1.1.1/24"]), "10.1.1.1/24". split.
    + vm_compute. left.
    + vm_compute. reflexivity.
Qed.

(** A failed [Atoi] returns 0 on a syntax error and the largest [int] of
    either sign on a range error. *)
Lemma Atoi_error s i err :
  strconv.Atoi s = (i, Some err) ->
  (err = strconv.ErrSyntax /\ i = 0)
  \/ (err = strconv.ErrRange /\ (i = MaxInt \/ i = MinInt)).
Proof.
  unfold strconv.Atoi.
  destruct (match s with
            | String "-"%char rest => (true, rest)
            | String "+"%char rest => (false, rest)
            | _ => (false, s)
            end) as [neg body].
  destruct body as [|c body]; [intros [= <- <-]; by left|].
  destruct (strconv.parseUint 0 (String c body)) as [un [[]|]];
    [intros [= <- <-]; by left|..];
    (destruct (negb neg && (2 ^ 63 <=? un)); [intros [= <- <-]; right; auto|]);
    (destruct (neg && (2 ^ 63 <? un)); [intros [= <- <-]; right; auto|]);
    discriminate.
Qed.

Lemma tapMatches_full_mask p ip :
  tapMatches p (2 ^ 32 - 1) ip = bool_decide (ip2uint32 (IPAddress p) = tapAddr ip).
Proof.
  unfold tapMatches, tapAddr.
  change (2 ^ 32 - 1) with (Z.ones 32). rewrite !Z.land_ones by lia.
  pose proof (ip2uint32_range (IPAddress p)).
  pose proof (ip2uint32_range (default "" (head (strings.Split ip "/"%char)))).
  rewrite !Z.mod_small by done. done.
Qed.

Lemma tapMatches_empty_mask p ip : tapMatches p 0 ip = true.
Proof. unfold tapMatches. rewrite !Z.land_0_r. by apply bool_decide_eq_true. Qed.

(** C9 (amended).  When [Atoi] fails on the prefix length of the Pod CIDR,
    the binder reports the invalid Pod CIDR in the bucket of the K8s node and
    goes on with the tap scan, with the mask of the number that [Atoi]
    returned with the error.  After a syntax error that number is 0, the mask
    has all 32 bits set and an entry passes when its address equals the pod's
    IP; after a range error the number is the largest [int] of either sign,
    the mask is 0 and every entry passes.  In both cases an entry that passes
    takes the pod out of the tracking set. *)
Theorem failed_parse_continues_scan v pod st p vppNode k8sNode mask i err :
  tap_pods st !! pod = Some p ->
  IPAddress p ≠ HostIPAddress p ->
  RetrieveNodeByHostIPAddr (vppCache v) (HostIPAddress p) = Some vppNode ->
  RetrieveK8sNode (k8sCache v) (Node_Name vppNode) = Some k8sNode ->
  strings.Split (Pod_CIDR k8sNode) "/"%char !! 1%nat = Some mask ->
  strconv.Atoi mask = (i, Some err) ->
  exists st',
    tapPodStep v pod st = Done st'
    /\ st' = scanTaps pod p (maskLength2Mask i) vppNode
               {| tap_report := AppendToNodeReport (K8sNode_Name k8sNode)
                                  (InvalidPodCIDR (Pod_CIDR k8sNode)) (tap_report st);
                  tap_pods := tap_pods st;
                  tap_podMap := tap_podMap st |}
    /\ (err = strconv.ErrSyntax ->
        i = 0 /\ maskLength2Mask i = 2 ^ 32 - 1
        /\ forall ip, tapMatches p (maskLength2Mask i) ip
                      = bool_decide (ip2uint32 (IPAddress p) = tapAddr ip))
    /\ (err = strconv.ErrRange ->
        maskLength2Mask i = 0
        /\ forall ip, tapMatches p (maskLength2Mask i) ip = true)
    /\ (forall intf ip,
          (intf, ip) ∈ tapCandidates vppNode ->
          tapMatches p (maskLength2Mask i) ip = true ->
          Pod_Name p ∉ tap_podMap st').
Proof.
  intros Hp Hne Hnode Hk8s Hsplit Hatoi.
  eexists. split; [|split; [reflexivity|]].
  - unfold tapPodStep, deref. rewrite Hp. simpl.
    rewrite bool_decide_eq_false_2 by done. rewrite Hnode, Hk8s.
    unfold bindByCIDR. rewrite Hsplit, Hatoi. reflexivity.
  - apply Atoi_error in Hatoi. repeat split.
    + destruct Hatoi as [[_ ->]|[-> _]]; [done|discriminate].
    + destruct Hatoi as [[_ ->]|[-> _]]; [done|discriminate].
    + destruct Hatoi as [[_ ->]|[-> _]]; [|discriminate].
      intros ip. change (maskLength2Mask 0) with (2 ^ 32 - 1). apply tapMatches_full_mask.
    + destruct Hatoi as [[-> _]|[_ [-> | ->]]]; [discriminate|done|done].
    + destruct Hatoi as [[-> _]|[_ Hi]]; [discriminate|].
      intros ip. replace (maskLength2Mask i) with 0 by (by destruct Hi as [-> | ->]).
      apply tapMatches_empty_mask.
    + intros intf ip Hc Hm. rewrite scanTaps_candidates.
      rewrite scanCandidates_last.
      destruct (last _) as [c|] eqn:Hl; [simpl; set_solver|].
      apply last_None in Hl.
      destruct (filter_nil_not_elem_of _ _ (intf, ip) Hl Hm Hc).
Qed.

Lemma failed_parse_continues_scan_witness :
  tapPodStep (Fixture.tapCluster "10.1.1.0/x" ["172.30.9.9/32"; "10.1.1.5/32"]) 0%nat
    Fixture.tapStart
  = Done (scanTaps 0%nat Fixture.web (maskLength2Mask 0)
            (Fixture.tapNode ["172.30.9.9/32"; "10.1.1.5/32"])
            {| tap_report := AppendToNodeReport "k8s-master" (InvalidPodCIDR "10.1.1.0/x") [];
               tap_pods := [Fixture.web];
               tap_podMap := {[ "web" ]} |}).
Proof.
  destruct (failed_parse_continues_scan
              (Fixture.tapCluster "10.1.1.0/x" ["172.30.9.9/32"; "10.1.1.5/32"]) 0%nat
              Fixture.tapStart Fixture.web
              (Fixture.tapNode ["172.30.9.9/32"; "10.1.1.5/32"])
              (Fixture.tapK8sNode "10.1.1.0/x") "x" 0 strconv.ErrSyntax
              eq_refl ltac:(discriminate) eq_refl eq_refl eq_refl eq_refl)
    as (st' & Hstep & -> & _).
  exact Hstep.
Defined.

(** The claim as it is worded fails on a prefix length that is too large for
    an [int]: the scan then runs with the empty mask, not with the mask of
    prefix length zero, and binds the pod to an entry with another address. *)
Lemma failed_parse_length_zero_counterexample :
  ~ failed_parse_uses_length_zero
      (Fixture.tapCluster "10.1.1.0/99999999999999999999" ["172.30.9.9/32"]) 0%nat
      Fixture.tapStart.
Proof.
  intros H.
  specialize (H Fixture.web (Fixture.tapNode ["172.30.9.9/32"])
                (Fixture.tapK8sNode "10.1.1.0/99999999999999999999")
                "99999999999999999999" MaxInt strconv.ErrRange eq_refl).
  apply (f_equal (fun o => match o with
                           | Done s => VppIfIPAddr <$> tap_pods s
                           | Panic _ => []
                           end)) in H.
  - vm_compute in H. discriminate H.
  - discriminate.
  - reflexivity.
  - reflexivity.
  - reflexivity.
  - reflexivity.
Qed.

(** C8.  A pod whose IP is its host IP leaves the tracking set and nothing
    else changes: the iteration ends normally, it gives the same result
    whatever the two caches answer (no lookup is made), the report and every
    pod record are as before, and a whole run of the binder leaves the record
    of such a pod, binding fields included, as it was. *)
Theorem host_network_pod_skipped v st pod p :
  tap_pods st !! pod = Some p ->
  IPAddress p = HostIPAddress p ->
  tapPodStep v pod st
  = Done {| tap_report := tap_report st;
            tap_pods := tap_pods st;
            tap_podMap := tap_podMap st ∖ {[ Pod_Name p ]} |}
  /\ (forall v', tapPodStep v' pod st = tapPodStep v pod st)
  /\ (forall w w',
        podStore w = tap_pods st ->
        ValidateTapToPod v w = Done w' ->
        podStore w' !! pod = Some p).
Proof.
  intros Hp Hhost.
  assert (Hstep : forall v0, tapPodStep v0 pod st
                  = Done {| tap_report := tap_report st; tap_pods := tap_pods st;
                            tap_podMap := tap_podMap st ∖ {[ Pod_Name p ]} |}).
  { intros v0. unfold tapPodStep, deref. rewrite Hp. simpl.
    by rewrite bool_decide_eq_true_2. }
  split; [apply Hstep|]. split; [intros v'; by rewrite !Hstep|].
  intros w w' Hw. unfold ValidateTapToPod.
  destruct (trackPods _ _) as [podMap|]; [simpl|done].
  assert (Hframe : forall l s s',
            tap_pods s !! pod = Some p ->
            forRange (tapPodStep v) l s = Done s' -> tap_pods s' !! pod = Some p).
  { clear -Hhost. induction l as [|r l IH]; intros s s' Hs; simpl.
    - by intros [= <-].
    - destruct (tapPodStep v r s) as [s1|] eqn:Hr; [simpl|done].
      apply IH. revert Hr. unfold tapPodStep, deref.
      destruct (tap_pods s !! r) as [q|] eqn:Hq; [simpl|done].
      destruct (bool_decide (IPAddress q = HostIPAddress q)) eqn:Hb.
      { by intros [= <-]. }
      assert (r ≠ pod) as Hrp.
      { intros ->. rewrite Hs in Hq. injection Hq as <-.
        by rewrite bool_decide_eq_true_2 in Hb. }
      destruct (RetrieveNodeByHostIPAddr _ _) as [vppNode|]; [|by intros [= <-]].
      destruct (RetrieveK8sNode _ _) as [k8sNode|]; [|by intros [= <-]].
      unfold bindByCIDR. destruct (_ !! 1%nat) as [mask|]; [|done].
      destruct (strconv.Atoi mask) as [i err]. intros [= <-].
      rewrite scanTaps_candidates, scanCandidates_last.
      destruct (last _) as [c|]; simpl.
      + rewrite list_lookup_alter_ne by done. by destruct err.
      + by destruct err. }
  destruct (forRange _ _ _) as [s'|] eqn:Hrun; [simpl|done].
  intros [= <-]. simpl. eapply Hframe; [|exact Hrun]. simpl. by rewrite Hw.
Qed.

Lemma host_network_pod_skipped_witness :
  tapPodStep (Fixture.tapCluster "10.1.1.0/24" []) 0%nat Fixture.hostStart
  = Done {| tap_report := []; tap_pods := [Fixture.hostPod];
            tap_podMap := tap_podMap Fixture.hostStart ∖ {[ "kube-proxy" ]} |}.
Proof.
  pose proof (host_network_pod_skipped (Fixture.tapCluster "10.1.1.0/24" [])
                Fixture.hostStart 0%nat Fixture.hostPod eq_refl eq_refl) as [H _].
  exact H.
Defined.

(** ** Panics *)

(** A Pod CIDR without ['/'] makes [str[1]] an index out of range. *)
Lemma bindByCIDR_without_slash pod p vppNode k8sNode st :
  strings.Split (Pod_CIDR k8sNode) "/"%char !! 1%nat = None ->
  bindByCIDR pod p vppNode k8sNode st = Panic IndexOutOfRange.
Proof. intros H. unfold bindByCIDR. by rewrite H. Qed.

(** C5 (the code departs from it).  On a cluster of one node whose K8s
    record has the Pod CIDR [10.1.1.0], without a prefix length, and one pod
    that is not host networked, [Validate] does not return: the binder
    panics with an index out of range.  The same happens when the Pod CIDR
    is the empty string. *)
Theorem Validate_panics_on_cidr_without_slash :
  Validate (Fixture.tapCluster "10.1.1.0" ["10.1.1.5/32"]) Fixture.world
  = Panic IndexOutOfRange
  /\ Validate (Fixture.tapCluster "" ["10.1.1.5/32"]) Fixture.world
     = Panic IndexOutOfRange.
Proof. split; vm_compute; reflexivity. Qed.

(** The member scan of the VXLAN validator, on the other hand, never
    panics: the second lookup of the destination address repeats the first,
    which has succeeded, so [n1] is never nil where [n1.Name] is read. *)
Lemma bdIfcStep_total v node bdName2Id bdIfc st :
  exists st', bdIfcStep v node bdName2Id bdIfc st = Done st'.
Proof.
  unfold bdIfcStep, mapIndex.
  destruct (alookup _ _) as [nodeIfc|]; [simpl|by eexists].
  destruct (BVI bdIfc).
  - destruct (bool_decide (IfType _ ≠ _)); [by eexists|].
    destruct (RetrieveNodeByLoopMacAddr _ _); by eexists.
  - destruct (bool_decide (IfType _ ≠ _)); [by eexists|].
    destruct (RetrieveNodeByGigEIPAddr _ (SrcAddress _)); [|by eexists].
    destruct (bool_decide (Node_Name _ ≠ _)); [by eexists|].
    destruct (RetrieveNodeByGigEIPAddr _ (DstAddress _)) eqn:Hdst; by eexists.
Qed.

Lemma forRange_total {X S} (body : X -> S -> Outcome S) l :
  (forall x s, exists s', body x s = Done s') ->
  forall s, exists s', forRange body l s = Done s'.
Proof.
  intros Hbody. induction l as [|x l IH]; intros s; simpl; [by eexists|].
  destruct (Hbody x s) as [s1 ->]. simpl. apply IH.
Qed.

Lemma validateNodeBD_total v nodeList node acc :
  exists acc', validateNodeBD v nodeList node acc = Done acc'.
Proof.
  unfold validateNodeBD. destruct (searchVxlanBD _ _ _); [by eexists..|].
  unfold scanBD.
  edestruct (forRange_total (bdIfcStep v node (buildBdName2Id (BdID2Name (BdMeta bdomain)))))
    as [st ->]; [intros; apply bdIfcStep_total|].
  simpl. by eexists.
Qed.

Lemma ValidateL2Connectivity_total v r :
  exists r', ValidateL2Connectivity v r = Done r'.
Proof.
  unfold ValidateL2Connectivity.
  edestruct (forRange_total (validateNodeBD v (RetrieveAllNodes (vppCache v))))
    as [acc ->]; [intros; apply validateNodeBD_total|].
  simpl. by eexists.
Qed.

(** ** The ARP validator *)

Lemma arpEntryStep_appends v node e st :
  exists out,
    arp_report (arpEntryStep v node e st) = (arp_report st ++ out)
    /\ Forall (fun x => forall n, message x ≠ ArpMissing n) out.
Proof.
  unfold arpEntryStep.
  destruct (negb _); [exists []; by rewrite app_nil_r|].
  destruct (alookup _ _) as [arpIf|];
    [|eexists [_]; split; [reflexivity|by repeat constructor]].
  destruct (_ || _); [exists []; by rewrite app_nil_r|].
  destruct (RetrieveNodeByLoopMacAddr _ _) as [macNode|],
           (RetrieveNodeByLoopIPAddr _ _) as [ipNode|];
    try destruct (bool_decide (Node_Name macNode ≠ Node_Name ipNode));
    unfold arpFail, AppendToNodeReport; simpl; rewrite <- ?app_assoc;
    (eexists; split; [reflexivity|by repeat constructor])
    || (exists []; by rewrite app_nil_r).
Qed.

Lemma scanArpEntries_appends v node st :
  exists out,
    arp_report (scanArpEntries v node st) = (arp_report st ++ out)
    /\ Forall (fun x => forall n, message x ≠ ArpMissing n) out.
Proof.
  unfold scanArpEntries. revert st.
  induction (NodeIPArp node) as [|e l IH]; intros st; simpl.
  - exists []. by rewrite app_nil_r.
  - destruct (IH (arpEntryStep v node e st)) as (out2 & -> & H2).
    destruct (arpEntryStep_appends v node e st) as (out1 & -> & H1).
    exists (out1 ++ out2). split; [by rewrite app_assoc|by apply Forall_app].
Qed.

Lemma reportMissingArp_report node st :
  arp_report (reportMissingArp node st)
  = (arp_report st ++ map (fun n => entry (Node_Name node) (ArpMissing n))
                          (elements (loopNodeMap st))).
Proof.
  unfold reportMissingArp. generalize (elements (loopNodeMap st)). intros l.
  revert st. induction l as [|n l IH]; intros st; simpl; [by rewrite app_nil_r|].
  rewrite IH. unfold arpFail, AppendToNodeReport; simpl. by rewrite <- app_assoc.
Qed.

Lemma occurrences_app e r1 r2 :
  occurrences e (r1 ++ r2) = (occurrences e r1 + occurrences e r2)%nat.
Proof. unfold occurrences. by rewrite filter_app, length_app. Qed.

Lemma occurrences_none e r : e ∉ r -> occurrences e r = 0%nat.
Proof.
  unfold occurrences. induction r as [|x r IH]; intros H; [done|].
  rewrite filter_cons_False by set_solver. apply IH. set_solver.
Qed.

(** One report per element of a set: an entry made of a name occurs once
    when the name is in the set and not at all otherwise. *)
Lemma occurrences_elements (f : string -> ReportEntry) (X : gset string) n :
  Inj (=) (=) f ->
  occurrences (f n) (map f (elements X)) = if decide (n ∈ X) then 1%nat else 0%nat.
Proof.
  intros Hinj.
  assert (Hl : forall l, NoDup l ->
            occurrences (f n) (map f l) = if decide (n ∈ l) then 1%nat else 0%nat).
  { induction 1 as [|x l Hx Hnd IH]; [done|]. unfold occurrences in *. simpl.
    destruct (decide (x = n)) as [->|Hne].
    - rewrite filter_cons_True by done. simpl. rewrite IH.
      rewrite decide_False by done. rewrite decide_True by set_solver. done.
    - rewrite filter_cons_False by (intros ?%Hinj; done). rewrite IH.
      destruct (decide (n ∈ l)); [rewrite decide_True by set_solver; done|].
      rewrite decide_False by set_solver. done. }
  rewrite Hl by apply NoDup_elements.
  destruct (decide (n ∈ X)); [rewrite decide_True by set_solver|rewrite decide_False by set_solver];
    done.
Qed.

Lemma entry_ArpMissing_inj tgt : Inj (=) (=) (fun n => entry tgt (ArpMissing n)).
Proof. intros n1 n2 [= ->]. done. Qed.

(** C4 (amended).  For a static ARP entry on the overlay BVI whose MAC and IP
    both resolve to nodes, the node that the IP resolves to leaves the
    expected-peer set whether or not the MAC resolves to the same node; when
    the two differ, one mismatch line is added to the report of the node and
    the error count grows by one, and nothing else changes.  After the scan
    of a node, each name that is still in the expected-peer set gets exactly
    one missing-ARP-entry line in the report of that node, and no other name
    gets one. *)
Theorem arp_peer_accounted_by_ip v nodeList node e st arpIf macNode ipNode :
  Static (Ae e) = true ->
  alookup (IfIndex (AeMeta e)) (NodeInterfaces node) = Some arpIf ->
  IfType (If arpIf) = SOFTWARE_LOOPBACK ->
  If_Name (If arpIf) = "vxlanBVI" ->
  RetrieveNodeByLoopMacAddr (vppCache v) (Ae_PhysAddress (Ae e)) = Some macNode ->
  RetrieveNodeByLoopIPAddr (vppCache v) (Ae_IPAddress (Ae e) +:+ "/24") = Some ipNode ->
  loopNodeMap (arpEntryStep v node e st) = loopNodeMap st ∖ {[ Node_Name ipNode ]}
  /\ (Node_Name macNode = Node_Name ipNode ->
      arp_report (arpEntryStep v node e st) = arp_report st
      /\ arp_errCnt (arpEntryStep v node e st) = arp_errCnt st)
  /\ (Node_Name macNode ≠ Node_Name ipNode ->
      arp_report (arpEntryStep v node e st)
      = arp_report st ++ [entry (Node_Name node)
                            (ArpMismatch (Ae_PhysAddress (Ae e)) (Ae_IPAddress (Ae e))
                                         (Node_Name macNode) (Node_Name ipNode))]
      /\ arp_errCnt (arpEntryStep v node e st) = incr (arp_errCnt st))
  /\ (forall acc,
        let scanned := scanArpEntries v node
                         {| arp_errCnt := fst acc; arp_report := snd acc;
                            loopNodeMap := expectedPeers nodeList node |} in
        exists out,
          snd (validateArpNode v nodeList node acc) = snd acc ++ out
          /\ forall n, occurrences (entry (Node_Name node) (ArpMissing n)) out
                       = if decide (n ∈ loopNodeMap scanned) then 1%nat else 0%nat).
Proof.
  intros Hstatic Hif Htype Hname Hmac Hip.
  assert (Hstep : arpEntryStep v node e st
                  = let st1 := if bool_decide (Node_Name macNode ≠ Node_Name ipNode)
                               then arpFail (Node_Name node)
                                      (ArpMismatch (Ae_PhysAddress (Ae e)) (Ae_IPAddress (Ae e))
                                                   (Node_Name macNode) (Node_Name ipNode)) st
                               else st in
                    {| arp_errCnt := arp_errCnt st1; arp_report := arp_report st1;
                       loopNodeMap := loopNodeMap st1 ∖ {[ Node_Name ipNode ]} |}).
  { unfold arpEntryStep. rewrite Hstatic, Hif, Htype, Hname, Hmac, Hip. simpl.
    done. }
  rewrite Hstep. clear Hstep. simpl. split; [|split; [|split]].
  - by destruct (bool_decide _).
  - intros Heq. rewrite bool_decide_eq_false_2 by (intros H'; by apply H'). done.
  - intros Hne. by rewrite bool_decide_eq_true_2.
  - intros acc. unfold validateArpNode. simpl.
    rewrite reportMissingArp_report.
    destruct (scanArpEntries_appends v node
                {| arp_errCnt := fst acc; arp_report := snd acc;
                   loopNodeMap := expectedPeers nodeList node |}) as (out & Hout & Hnm).
    rewrite Hout. simpl. rewrite <- app_assoc.
    eexists. split; [reflexivity|]. intros n.
    rewrite occurrences_app, occurrences_none.
    + simpl. apply (occurrences_elements (fun n => entry (Node_Name node) (ArpMissing n))).
      apply entry_ArpMissing_inj.
    + intros Hin. rewrite Forall_forall in Hnm. by apply (Hnm _ Hin n).
Qed.

Lemma arp_peer_accounted_by_ip_witness :
  loopNodeMap (arpEntryStep (Fixture.arpCluster [Fixture.crossedEntry])
                 (Fixture.arpNode1 [Fixture.crossedEntry]) Fixture.crossedEntry Fixture.arpStart)
  = loopNodeMap Fixture.arpStart ∖ {[ "k8s-worker1" ]}.
Proof.
  pose proof (arp_peer_accounted_by_ip (Fixture.arpCluster [Fixture.crossedEntry])
                (RetrieveAllNodes (vppCache (Fixture.arpCluster [Fixture.crossedEntry])))
                (Fixture.arpNode1 [Fixture.crossedEntry]) Fixture.crossedEntry Fixture.arpStart
                (Fixture.loopIfc "1a:2b:3c:4d:5e:01" ["192.168.30.1/24"])
                (Fixture.emptyNode "k8s-worker2") (Fixture.emptyNode "k8s-worker1")
                eq_refl eq_refl eq_refl eq_refl eq_refl eq_refl) as [H _].
  exact H.
Defined.

(** The claim as the specification words it fails: the first node holds a
    static entry on its BVI with the MAC of the third node and the IP of the
    second, and the second node leaves the expected-peer set all the same. *)
Lemma arp_mismatch_counterexample :
  ~ arp_peer_removed_only_on_agreement (Fixture.arpCluster [Fixture.crossedEntry])
      (Fixture.arpNode1 [Fixture.crossedEntry]) Fixture.crossedEntry Fixture.arpStart.
Proof.
  intros H.
  specialize (H (Fixture.loopIfc "1a:2b:3c:4d:5e:01" ["192.168.30.1/24"])
                (Fixture.emptyNode "k8s-worker2") (Fixture.emptyNode "k8s-worker1")
                eq_refl eq_refl eq_refl eq_refl eq_refl eq_refl).
  assert (Hne : Node_Name (Fixture.emptyNode "k8s-worker2")
                ≠ Node_Name (Fixture.emptyNode "k8s-worker1")) by discriminate.
  apply Hne, H.
  - by_compute.
  - by_compute.
Qed.

Lemma endsWith_app addr suffix : endsWith (addr +:+ suffix) suffix = true.
Proof.
  induction addr as [|c addr IH]; simpl.
  - destruct suffix; simpl; [done|]. by rewrite Ascii.eqb_refl, String.eqb_refl.
  - by rewrite IH, orb_true_r.
Qed.

Lemma keyedWithLength24_endsWith k : keyedWithLength24 k -> endsWith k "/24" = true.
Proof. intros [addr ->]. apply endsWith_app. Qed.

(** C10.  For a static ARP entry on the overlay BVI, the loopback-IP index
    is asked for the IP of the entry followed by [/24] and for nothing else:
    the iteration gives the same result with any other index that answers
    this one key alike.  When the index answers this key with a node and the
    MAC resolves too, no bad-IP line is written and the node that the index
    gave leaves the expected-peer set.  When no key that the index knows ends
    in [/24], the lookup fails: the report of the node gets the bad-IP line
    of the entry (after the bad-MAC line, if the MAC did not resolve
    either), the error count grows by one for each of these lines, and the
    expected-peer set stays as it was. *)
Theorem arp_ip_lookup_suffixed_24 v node e st arpIf :
  Static (Ae e) = true ->
  alookup (IfIndex (AeMeta e)) (NodeInterfaces node) = Some arpIf ->
  IfType (If arpIf) = SOFTWARE_LOOPBACK ->
  If_Name (If arpIf) = "vxlanBVI" ->
  (forall index,
     index (Ae_IPAddress (Ae e) +:+ "/24")
     = RetrieveNodeByLoopIPAddr (vppCache v) (Ae_IPAddress (Ae e) +:+ "/24") ->
     arpEntryStep (withLoopIPIndex v index) node e st = arpEntryStep v node e st)
  /\ (forall macNode ipNode,
        RetrieveNodeByLoopMacAddr (vppCache v) (Ae_PhysAddress (Ae e)) = Some macNode ->
        RetrieveNodeByLoopIPAddr (vppCache v) (Ae_IPAddress (Ae e) +:+ "/24") = Some ipNode ->
        arpEntryStep v node e st
        = {| arp_errCnt := if bool_decide (Node_Name macNode = Node_Name ipNode)
                           then arp_errCnt st else incr (arp_errCnt st);
             arp_report :=
               arp_report st
               ++ (if bool_decide (Node_Name macNode = Node_Name ipNode) then []
                   else [entry (Node_Name node)
                           (ArpMismatch (Ae_PhysAddress (Ae e)) (Ae_IPAddress (Ae e))
                              (Node_Name macNode) (Node_Name ipNode))]);
             loopNodeMap := loopNodeMap st ∖ {[ Node_Name ipNode ]} |})
  /\ ((forall k n, RetrieveNodeByLoopIPAddr (vppCache v) k = Some n -> ~ keyedWithLength24 k) ->
      RetrieveNodeByLoopIPAddr (vppCache v) (Ae_IPAddress (Ae e) +:+ "/24") = None
      /\ arpEntryStep v node e st
         = {| arp_errCnt :=
                incr (match RetrieveNodeByLoopMacAddr (vppCache v) (Ae_PhysAddress (Ae e)) with
                      | None => incr (arp_errCnt st)
                      | Some _ => arp_errCnt st
                      end);
              arp_report :=
                arp_report st
                ++ match RetrieveNodeByLoopMacAddr (vppCache v) (Ae_PhysAddress (Ae e)) with
                   | None => [entry (Node_Name node)
                                (ArpBadMac (Ae_PhysAddress (Ae e)) (Ae_IPAddress (Ae e)))]
                   | Some _ => []
                   end
                ++ [entry (Node_Name node)
                      (ArpBadIP (Ae_PhysAddress (Ae e)) (Ae_IPAddress (Ae e)))];
              loopNodeMap := loopNodeMap st |}).
Proof.
  intros Hstatic Hif Htype Hname. split; [|split].
  - intros index Hindex. unfold arpEntryStep. simpl. by rewrite Hindex.
  - intros macNode ipNode Hmac Hip.
    unfold arpEntryStep. rewrite Hstatic, Hif, Htype, Hname, Hmac, Hip.
    destruct st as [c r peers]. unfold arpFail, AppendToNodeReport, entry. simpl.
    destruct (decide (Node_Name macNode = Node_Name ipNode)) as [Heq|Hne].
    + rewrite (bool_decide_eq_true_2 _ Heq).
      rewrite bool_decide_eq_false_2 by (intros H; by apply H).
      simpl. by rewrite app_nil_r.
    + rewrite (bool_decide_eq_false_2 _ Hne), (bool_decide_eq_true_2 _ Hne). done.
  - intros Hkeys.
    assert (Hnone : RetrieveNodeByLoopIPAddr (vppCache v) (Ae_IPAddress (Ae e) +:+ "/24") = None).
    { destruct (RetrieveNodeByLoopIPAddr _ _) as [n|] eqn:Hn; [|done].
      destruct (Hkeys _ _ Hn). by eexists. }
    split; [done|].
    unfold arpEntryStep. rewrite Hstatic, Hif, Htype, Hname, Hnone.
    destruct st as [c r peers]. unfold arpFail, AppendToNodeReport, entry. simpl.
    destruct (RetrieveNodeByLoopMacAddr _ _); simpl; by rewrite <- ?app_assoc.
Qed.

Lemma arp_ip_lookup_suffixed_24_witness :
  arpEntryStep (Fixture.arpCluster16 [Fixture.crossedEntry])
    (Fixture.arpNode1 [Fixture.crossedEntry]) Fixture.crossedEntry Fixture.arpStart
  = {| arp_errCnt := 1;
       arp_report := [entry "k8s-master" (ArpBadIP "1a:2b:3c:4d:5e:03" "192.168.30.2")];
       loopNodeMap := loopNodeMap Fixture.arpStart |}.
Proof.
  pose proof (arp_ip_lookup_suffixed_24 (Fixture.arpCluster16 [Fixture.crossedEntry])
                (Fixture.arpNode1 [Fixture.crossedEntry]) Fixture.crossedEntry Fixture.arpStart
                (Fixture.loopIfc "1a:2b:3c:4d:5e:01" ["192.168.30.1/24"])
                eq_refl eq_refl eq_refl eq_refl) as (_ & _ & H).
  destruct H as [_ H].
  - intros k n Hk Hkey. apply keyedWithLength24_endsWith in Hkey.
    cbn [Fixture.arpCluster16 Fixture.validatorOf vppCache Fixture.cacheOf
         RetrieveNodeByLoopIPAddr] in Hk.
    unfold Fixture.findBy in Hk.
    repeat (rewrite filter_cons in Hk;
            match type of Hk with
            | context [decide (?a = k)] =>
                destruct (decide (a = k)) as [<-|_]; [by vm_compute in Hkey|]
            end).
    done.
  - rewrite H. reflexivity.
Defined.

(** ** The VXLAN mesh validator *)

(** What the search returns, from any state of the loop: with the bridge
    domains named [vxlanBD] counted (one more when the pointer is already
    set), none gives [NoBD], two or more give [MultipleBD], and exactly one
    gives the content of the loop variable after the loop, the last bridge
    domain of the list. *)
Lemma searchVxlanBD_spec bds isSet cur :
  searchVxlanBD bds isSet cur
  = match (length (overlayBDs bds) + (if isSet then 1 else 0))%nat with
    | O => NoBD
    | S O => match (match last bds with Some e => Some e.2 | None => cur end) with
             | Some bd => PointsTo bd
             | None => NoBD
             end
    | _ => MultipleBD
    end.
Proof.
  unfold overlayBDs. revert isSet cur.
  induction bds as [|[idx bd] bds IH]; intros isSet cur.
  - simpl. by destruct isSet, cur.
  - cbn [searchVxlanBD]. rewrite last_cons. case_bool_decide as Hn.
    + rewrite filter_cons_True by done. destruct isSet.
      * simpl. by rewrite Nat.add_1_r.
      * rewrite IH. simpl. rewrite Nat.add_1_r, Nat.add_0_r. by destruct (last bds).
    + rewrite filter_cons_False by done. rewrite IH. by destruct (last bds).
Qed.

Lemma searchVxlanBD_PointsTo bds bd :
  searchVxlanBD bds false None = PointsTo bd
  <-> length (overlayBDs bds) = 1%nat /\ snd <$> last bds = Some bd.
Proof.
  rewrite searchVxlanBD_spec, Nat.add_0_r.
  destruct (length (overlayBDs bds)) as [|[|k]]; [naive_solver| |naive_solver].
  destruct (last bds); naive_solver.
Qed.

Lemma searchVxlanBD_NoBD bds :
  overlayBDs bds = [] -> searchVxlanBD bds false None = NoBD.
Proof. intros H. rewrite searchVxlanBD_spec, H. done. Qed.

Lemma searchVxlanBD_MultipleBD bds :
  (2 <= length (overlayBDs bds))%nat -> searchVxlanBD bds false None = MultipleBD.
Proof.
  intros H. rewrite searchVxlanBD_spec, Nat.add_0_r.
  destruct (length (overlayBDs bds)) as [|[|k]]; [lia|lia|done].
Qed.

(** A node without a bridge domain named [vxlanBD], or with several, is
    reported and skipped: the error count grows by one, one line is added,
    and the set of unvalidated nodes stays as it was. *)
Lemma validateNodeBD_skips v nodeList node acc :
  (overlayBDs (NodeBridgeDomains node) = [] ->
   validateNodeBD v nodeList node acc = Done (l2SkipNode (Node_Name node) NoVxlanBD acc))
  /\ ((2 <= length (overlayBDs (NodeBridgeDomains node)))%nat ->
      validateNodeBD v nodeList node acc
      = Done (l2SkipNode (Node_Name node) MultipleVxlanBD acc)).
Proof.
  unfold validateNodeBD. split; intros H.
  - by rewrite searchVxlanBD_NoBD.
  - by rewrite searchVxlanBD_MultipleBD.
Qed.

(** C2 (the code departs from it).  The node [k8s-master] of a one-node
    cluster has exactly one bridge domain named [vxlanBD], with the BVI as
    its only member, followed by a second bridge domain without members.  The
    pointer [vxLanBD] ends up on the second bridge domain, whose (empty)
    member list is the one that is scanned: the node is reported with a wrong
    interface count and a missing BVI and fails validation.  With the same
    two bridge domains in the other order the node validates without an
    error.  In general the bridge domain that is scanned is the last of the
    list, whatever its name. *)
Theorem vxlan_bd_pointer_follows_loop_variable :
  length (overlayBDs (rangeOf [Fixture.soloBD; Fixture.otherBD])) = 1%nat
  /\ searchVxlanBD (rangeOf [Fixture.soloBD; Fixture.otherBD]) false None
     = PointsTo Fixture.otherBD
  /\ ValidateL2Connectivity (Fixture.soloCluster [Fixture.soloBD; Fixture.otherBD]) []
     = Done [entry "k8s-master" (WrongIfCount 0 1);
             entry "k8s-master" BVIMissing;
             entry "k8s-master" FailedToValidateBD;
             entry "global" (L2ConnErrors 2)]
  /\ ValidateL2Connectivity (Fixture.soloCluster [Fixture.otherBD; Fixture.soloBD]) []
     = Done [entry "global" L2ConnOK]
  /\ (forall bds bd,
        searchVxlanBD bds false None = PointsTo bd -> snd <$> last bds = Some bd).
Proof.
  split; [reflexivity|]. split; [reflexivity|].
  split; [vm_compute; reflexivity|]. split; [vm_compute; reflexivity|].
  intros bds bd H. by apply searchVxlanBD_PointsTo in H as [_ H].
Qed.

Lemma reportMissingBDIf_nodeMap name st :
  nodeVxlanMap (reportMissingBDIf name st) = nodeVxlanMap st.
Proof.
  unfold reportMissingBDIf. generalize (elements (nodeVxlanMap st)). intros l.
  revert st. induction l as [|n l IH]; intros st; simpl; [done|]. by rewrite IH.
Qed.



Lemma reportUnvalidated_report unvalidated r :
  reportUnvalidated unvalidated r
  = r ++ map (fun n => entry n FailedToValidateBD) (elements unvalidated).
Proof.
  unfold reportUnvalidated. generalize (elements unvalidated). intros l.
  revert r. induction l as [|n l IH]; intros r; simpl; [by rewrite app_nil_r|].
  rewrite IH. unfold AppendToNodeReport. by rewrite <- app_assoc.
Qed.





(** ** The L2 FIB validator *)

Lemma fold_left_filter {A S} (f : S -> A -> S) (P : A -> Prop) `{!forall x, Decision (P x)} l :
  (forall x s, ~ P x -> f s x = s) ->
  forall s, fold_left f l s = fold_left f (filter P l) s.
Proof.
  intros Hskip. induction l as [|x l IH]; intros s; [done|].
  destruct (decide (P x)).
  - rewrite filter_cons_True by done. simpl. apply IH.
  - rewrite filter_cons_False by done. simpl. by rewrite Hskip.
Qed.

Lemma fibEntryStep_skip v node vxLanBD e st :
  ~ qualifies vxLanBD e -> fibEntryStep v node vxLanBD e st = st.
Proof.
  destruct e as [feKey feVal]. unfold qualifies, fibEntryStep. simpl. intros Hq.
  case_bool_decide; [done|]. destruct (StaticConfig (Fe feVal)); [|done].
  destruct Hq. done.
Qed.

Lemma fibMarkStep_skip vxLanBD e s :
  ~ qualifies vxLanBD e -> fibMarkStep vxLanBD e s = s.
Proof.
  destruct e as [feKey feVal]. unfold qualifies, fibMarkStep. simpl. intros Hq.
  case_bool_decide; [done|]. destruct (StaticConfig (Fe feVal)); [|done].
  destruct Hq. done.
Qed.

Lemma fibMarkStep_mark vxLanBD e s :
  qualifies vxLanBD e -> fibMarkStep vxLanBD e s = {[ e.1 ]} ∪ s.
Proof.
  destruct e as [feKey feVal]. unfold qualifies, fibMarkStep. simpl. intros [Hbd Hs].
  rewrite bool_decide_eq_false_2 by (intros H; by apply H). by rewrite Hs.
Qed.

Lemma fibMark_elem_of vxLanBD fibs s feKey :
  feKey ∈ fold_left (fun s e => fibMarkStep vxLanBD e s) fibs s
  <-> feKey ∈ s \/ exists feVal, (feKey, feVal) ∈ fibs /\ qualifies vxLanBD (feKey, feVal).
Proof.
  revert s. induction fibs as [|e fibs IH]; intros s; simpl.
  - split; [auto|]. intros [H|(feVal & H & _)]; [done|]. by apply elem_of_nil in H.
  - rewrite IH. destruct (decide (qualifies vxLanBD e)) as [Hq|Hq].
    + rewrite fibMarkStep_mark by done. destruct e as [k val]. simpl. split.
      * intros [[->%elem_of_singleton|H]%elem_of_union|(feVal & H & Hq')].
        -- right. exists val. split; [left|done].
        -- by left.
        -- right. exists feVal. split; [by right|done].
      * intros [H|(feVal & H & Hq')]; [left; set_solver|].
        apply elem_of_cons in H as [[= -> ->]|H]; [left; set_solver|].
        right. by exists feVal.
    + rewrite fibMarkStep_skip by done. split.
      * intros [H|(feVal & H & Hq')]; [by left|]. right. exists feVal. split; [by right|done].
      * intros [H|(feVal & H & Hq')]; [by left|].
        apply elem_of_cons in H as [<-|H]; [done|]. right. by exists feVal.
Qed.

(** [getVxlanBD] returns the index of the first bridge domain named
    [vxlanBD] that the loop meets. *)
Lemma getVxlanBDIn_first bds idx :
  getVxlanBDIn bds = Some idx ->
  exists k bd,
    bds !! k = Some (idx, bd)
    /\ Bd_Name (Bd bd) = "vxlanBD"
    /\ forall j e, (j < k)%nat -> bds !! j = Some e -> Bd_Name (Bd e.2) ≠ "vxlanBD".
Proof.
  induction bds as [|[i bd] bds IH]; simpl; [done|].
  case_bool_decide as Hn.
  - intros [= <-]. exists 0%nat, bd. repeat split; [done|]. intros; lia.
  - intros (k & bd' & Hk & Hname & Hfirst)%IH.
    exists (S k), bd'. repeat split; [done|done|].
    intros [|j] e Hj; simpl; [by intros [= <-]|]. apply Hfirst. lia.
Qed.

(** ** The pod cross-validator *)

(** C7.  For a pod whose host IP resolves to a node: when the pod map of the
    node has no entry under the name of the pod, or has one that is another
    pointer than the pod at hand (be the two records equal or not), the
    iteration ends with one error line in the report of the node and the
    tracking set as it was; the pod goes on to the K8s checks only when the
    entry is the very pointer of the pod, and so only then can the iteration
    take the pod out of the tracking set. *)
Theorem pod_identity_gates_checks v pods pod st p node :
  pods !! pod = Some p ->
  RetrieveNodeByHostIPAddr (vppCache v) (HostIPAddress p) = Some node ->
  (PodMap node !! Pod_Name p = None ->
   podInfoStep v pods pod st
   = Done {| pi_report := pi_report st ++ [entry (Node_Name node)
                                             (PodNotInPodMap (Pod_Name p) (Node_Name node))];
             pi_podMap := pi_podMap st |})
  /\ (forall podPtr q,
        PodMap node !! Pod_Name p = Some podPtr ->
        podPtr ≠ pod ->
        pods !! podPtr = Some q ->
        podInfoStep v pods pod st
        = Done {| pi_report := pi_report st ++ [entry (Node_Name node)
                                                  (PodNotSame (Pod_Name q) (Pod_Name p))];
                  pi_podMap := pi_podMap st |})
  /\ (PodMap node !! Pod_Name p = Some pod ->
      podInfoStep v pods pod st = Done (podInfoK8s v p node st))
  /\ (forall st',
        podInfoStep v pods pod st = Done st' ->
        Pod_Name p ∈ pi_podMap st ->
        Pod_Name p ∉ pi_podMap st' ->
        PodMap node !! Pod_Name p = Some pod).
Proof.
  intros Hp Hnode. unfold podInfoStep, deref. rewrite Hp. simpl. rewrite Hnode.
  split; [|split; [|split]].
  - by intros ->.
  - intros podPtr q -> Hne Hq. rewrite bool_decide_eq_true_2 by done. by rewrite Hq.
  - intros ->. by rewrite bool_decide_eq_false_2 by (intros H; by apply H).
  - intros st'. destruct (PodMap node !! Pod_Name p) as [podPtr|].
    + case_bool_decide as Hne.
      * destruct (pods !! podPtr); [|done]. simpl. by intros [= <-].
      * intros _ _ _. f_equal. by destruct (decide (pod = podPtr)).
    + by intros [= <-].
Qed.

Lemma pod_identity_gates_checks_witness :
  podInfoStep (Fixture.tapCluster "10.1.1.0/24" []) [Fixture.web] 0%nat
    {| pi_report := []; pi_podMap := {[ "web" ]} |}
  = Done (podInfoK8s (Fixture.tapCluster "10.1.1.0/24" []) Fixture.web (Fixture.tapNode [])
            {| pi_report := []; pi_podMap := {[ "web" ]} |}).
Proof.
  pose proof (pod_identity_gates_checks (Fixture.tapCluster "10.1.1.0/24" []) [Fixture.web]
                0%nat {| pi_report := []; pi_podMap := {[ "web" ]} |} Fixture.web
                (Fixture.tapNode []) eq_refl eq_refl) as (_ & _ & H & _).
  apply H. reflexivity.
Defined.

(** Two records with the same content at two addresses: the pod of the
    cache is not the pod of the node's map, and the cross-validator says so
    and leaves the pod in the tracking set. *)
Example pod_copy_is_flagged :
  podInfoStep (Fixture.tapCluster "10.1.1.0/24" []) [Fixture.web; Fixture.web] 1%nat
    {| pi_report := []; pi_podMap := {[ "web" ]} |}
  = Done {| pi_report := [entry "k8s-master" (PodNotSame "web" "web")];
            pi_podMap := {[ "web" ]} |}.
Proof. reflexivity. Qed.

(** * Further properties *)

(** ** Masks and addresses *)

Lemma mask_iter_saturated n : 32 <= n -> Z.iter n mask_step 0 = 2 ^ 32 - 1.
Proof.
  intros Hn. replace n with (32 + (n - 32)) by lia.
  assert (Hk : 0 <= n - 32) by lia. revert Hk. generalize (n - 32). clear.
  intros k Hk. pattern k. apply natlike_ind.
  - vm_compute. reflexivity.
  - clear. intros k Hk IH. replace (32 + Z.succ k) with (Z.succ (32 + k)) by lia.
    rewrite Z_iter_succ by lia. rewrite IH. vm_compute. reflexivity.
  - exact Hk.
Qed.

(** X1.  For every [int] prefix length, the mask has its [32 - ml] low bits
    set when [ml] lies between 0 and 32, all 32 bits when [ml] is negative,
    and none when [ml] is above 32; for the 33 smallest values of an [int]
    the subtraction [32 - ml] overflows and the mask is empty as well. *)
Theorem maskLength2Mask_closed_form ml :
  MinInt <= ml <= MaxInt ->
  maskLength2Mask ml
  = if (MinInt + 33 <=? ml) && (ml <? 32) then 2 ^ Z.min 32 (32 - ml) - 1 else 0.
Proof.
  intros H.
  destruct (Z.leb_spec (MinInt + 33) ml) as [Hlo|Hlo];
    destruct (Z.ltb_spec ml 32) as [Hhi|Hhi]; cbn [andb];
    unfold maskLength2Mask, wrap_int; unfold MinInt, MaxInt in *;
    change (2 ^ 63) with 9223372036854775808 in *;
    change (2 ^ 64) with 18446744073709551616.
  - rewrite Z.mod_small by lia.
    replace (32 - ml + 9223372036854775808 - 9223372036854775808) with (32 - ml) by lia.
    destruct (Z.le_gt_cases ml 0).
    + rewrite mask_iter_saturated by lia. rewrite Z.min_l by lia. reflexivity.
    + rewrite mask_iter by lia. rewrite Z.min_r by lia. reflexivity.
  - rewrite Z.mod_small by lia.
    destruct (32 - ml + 9223372036854775808 - 9223372036854775808) eqn:E; try lia; reflexivity.
  - replace (32 - ml + 9223372036854775808)
      with (32 - ml - 9223372036854775808 + 1 * 18446744073709551616) by lia.
    rewrite Z.mod_add by lia. rewrite Z.mod_small by lia.
    destruct (32 - ml - 9223372036854775808 - 9223372036854775808) eqn:E; try lia; reflexivity.
  - lia.
Qed.

Lemma maskLength2Mask_closed_form_witness : maskLength2Mask 24 = 2 ^ Z.min 32 (32 - 24) - 1.
Proof.
  apply (maskLength2Mask_closed_form 24). unfold MinInt, MaxInt. lia.
Defined.

(** X2.  An address of four parts between 0 and 255 becomes the 32-bit
    number with these four bytes, the first part in the highest byte; and
    whatever the string, the result fits 32 bits. *)
Theorem ip2uint32_dotted_quad s p1 p2 p3 p4 :
  strings.Split s "."%char = [p1; p2; p3; p4] ->
  0 <= fst (strconv.Atoi p1) < 256 ->
  0 <= fst (strconv.Atoi p2) < 256 ->
  0 <= fst (strconv.Atoi p3) < 256 ->
  0 <= fst (strconv.Atoi p4) < 256 ->
  ip2uint32 s
  = quad (fst (strconv.Atoi p1)) (fst (strconv.Atoi p2))
         (fst (strconv.Atoi p3)) (fst (strconv.Atoi p4))
  /\ forall s', 0 <= ip2uint32 s' < 2 ^ 32.
Proof.
  intros Hs H1 H2 H3 H4. split; [|apply ip2uint32_range].
  unfold ip2uint32, quad. rewrite Hs. cbn [fold_left].
  generalize dependent (fst (strconv.Atoi p1)). intros a Ha.
  generalize dependent (fst (strconv.Atoi p2)). intros b Hb.
  generalize dependent (fst (strconv.Atoi p3)). intros c Hc.
  generalize dependent (fst (strconv.Atoi p4)). intros d Hd.
  unfold wrap_uint32. rewrite !Z.shiftl_mul_pow2 by lia.
  change (2 ^ 8) with 256. change (2 ^ 16) with 65536. change (2 ^ 24) with 16777216.
  change (2 ^ 32) with 4294967296.
  rewrite (Z.mod_small (0 * 256)) by lia. rewrite (Z.mod_small a) by lia.
  rewrite (Z.mod_small (0 * 256 + a)) by lia.
  rewrite (Z.mod_small ((0 * 256 + a) * 256)) by lia. rewrite (Z.mod_small b) by lia.
  rewrite (Z.mod_small ((0 * 256 + a) * 256 + b)) by lia.
  rewrite (Z.mod_small (((0 * 256 + a) * 256 + b) * 256)) by lia.
  rewrite (Z.mod_small c) by lia.
  rewrite (Z.mod_small (((0 * 256 + a) * 256 + b) * 256 + c)) by lia.
  rewrite (Z.mod_small ((((0 * 256 + a) * 256 + b) * 256 + c) * 256)) by lia.
  rewrite (Z.mod_small d) by lia.
  rewrite Z.mod_small by lia. lia.
Qed.

Lemma ip2uint32_dotted_quad_witness : ip2uint32 "10.1.1.5" = quad 10 1 1 5.
Proof.
  pose proof (ip2uint32_dotted_quad "10.1.1.5" "10" "1" "1" "5" eq_refl) as H.
  apply H; simpl; lia.
Defined.

(** ** The overlay bridge domain *)

Lemma getVxlanBDIn_None bds : getVxlanBDIn bds = None <-> overlayBDs bds = [].
Proof.
  unfold overlayBDs. induction bds as [|[idx bd] bds IH]; simpl; [done|].
  case_bool_decide as Hn.
  - rewrite filter_cons_True by done. done.
  - rewrite filter_cons_False by done. done.
Qed.

Lemma searchVxlanBD_NoBD_iff bds :
  searchVxlanBD bds false None = NoBD <-> overlayBDs bds = [].
Proof.
  split; [|apply searchVxlanBD_NoBD].
  rewrite searchVxlanBD_spec, Nat.add_0_r.
  destruct (overlayBDs bds) as [|e [|e' l]] eqn:Hl; [done| |done]. simpl.
  destruct (last bds) as [x|] eqn:Hlast; [done|].
  apply last_None in Hlast. subst bds. done.
Qed.

(** X3.  The L2 FIB validator and the VXLAN validator agree on when the
    overlay bridge domain is missing: [getVxlanBD] fails exactly when no
    bridge domain of the node is named [vxlanBD], which is when the search of
    the VXLAN validator finds none, and both then report the node and skip
    it.  They part on a node with several such bridge domains: the VXLAN
    validator skips the node, the L2 FIB validator goes on with the first. *)
Theorem overlay_bd_missing_in_both v nodeList node acc acc2 :
  (getVxlanBD node = None <-> overlayBDs (NodeBridgeDomains node) = [])
  /\ (searchVxlanBD (NodeBridgeDomains node) false None = NoBD
      <-> overlayBDs (NodeBridgeDomains node) = [])
  /\ (overlayBDs (NodeBridgeDomains node) = [] ->
      validateFibNode v nodeList node acc
      = (incr (fst acc), snd acc ++ [entry (Node_Name node) (FibSkipping (Node_Name node))])
      /\ validateNodeBD v nodeList node acc2
         = Done (l2SkipNode (Node_Name node) NoVxlanBD acc2))
  /\ ((2 <= length (overlayBDs (NodeBridgeDomains node)))%nat ->
      (exists vxLanBD,
         getVxlanBD node = Some vxLanBD
         /\ validateFibNode v nodeList node acc
            = scanFib v nodeList node vxLanBD (NodeL2Fibs node) acc)
      /\ validateNodeBD v nodeList node acc2
         = Done (l2SkipNode (Node_Name node) MultipleVxlanBD acc2)).
Proof.
  split; [apply getVxlanBDIn_None|]. split; [apply searchVxlanBD_NoBD_iff|]. split.
  - intros Hnone. split.
    + unfold validateFibNode, getVxlanBD. by rewrite (proj2 (getVxlanBDIn_None _) Hnone).
    + unfold validateNodeBD. by rewrite searchVxlanBD_NoBD.
  - intros Hmany. split.
    + unfold validateFibNode. destruct (getVxlanBD node) as [idx|] eqn:Hidx.
      * by exists idx.
      * apply getVxlanBDIn_None in Hidx. rewrite Hidx in Hmany. simpl in Hmany. lia.
    + unfold validateNodeBD. by rewrite searchVxlanBD_MultipleBD.
Qed.

Lemma buildBdName2Id_snoc l e :
  buildBdName2Id (l ++ [e]) = <[e.2 := e.1]> (buildBdName2Id l).
Proof. unfold buildBdName2Id. by rewrite fold_left_app. Qed.

(** X4.  The name-to-index map of the VXLAN validator inverts [BdID2Name]:
    a name has an index exactly when some entry carries it; when several
    entries carry one name, the index of the name is that of the last of
    them in range order, wherever in the map it stands; and when no name
    occurs twice, the index of a name is the index of its entry. *)
Theorem buildBdName2Id_inverts bdID2Name :
  (forall name, buildBdName2Id bdID2Name !! name = None <-> name ∉ bdID2Name.*2)
  /\ (forall before after id name,
        name ∉ after.*2 ->
        buildBdName2Id (before ++ (id, name) :: after) !! name = Some id)
  /\ (NoDup bdID2Name.*2 ->
      forall id name, buildBdName2Id bdID2Name !! name = Some id <-> (id, name) ∈ bdID2Name).
Proof.
  split; [|split].
  - induction bdID2Name as [|[id n] l IH] using rev_ind; intros name.
    + split; [intros _; apply not_elem_of_nil|done].
    + rewrite buildBdName2Id_snoc, fmap_app. simpl.
      rewrite lookup_insert_None, IH, not_elem_of_app.
      rewrite list_elem_of_singleton. naive_solver.
  - intros before after id name.
    induction after as [|[id' n] after IH] using rev_ind; intros Hlast.
    + rewrite buildBdName2Id_snoc. simpl. apply lookup_insert_eq.
    + rewrite fmap_app, not_elem_of_app in Hlast. destruct Hlast as [Hafter Hne].
      assert (n ≠ name) by (intros ->; apply Hne; simpl; left).
      rewrite app_comm_cons, app_assoc, buildBdName2Id_snoc. simpl.
      rewrite lookup_insert_ne by done. by apply IH.
  - induction bdID2Name as [|[id' n] l IH] using rev_ind; intros Hnd id name.
    + split; [done|]. intros H. by apply elem_of_nil in H.
    + rewrite fmap_app in Hnd. apply NoDup_app in Hnd as (Hl & Hfresh & _).
      rewrite buildBdName2Id_snoc. simpl. rewrite elem_of_app, list_elem_of_singleton.
      destruct (decide (n = name)) as [->|Hne].
      * rewrite lookup_insert_eq. split.
        -- intros [= ->]. by right.
        -- intros [Hin|[= ->]]; [|done].
           destruct (Hfresh name); [|left].
           apply list_elem_of_fmap. by exists (id, name).
      * rewrite lookup_insert_ne by done. rewrite IH by done. naive_solver.
Qed.

Lemma buildBdName2Id_inverts_witness :
  buildBdName2Id ([(1, "vxlan2")] ++ (2, "vxlan2") :: [(3, "vxlanBVI")]) !! "vxlan2" = Some 2
  /\ (buildBdName2Id [(1, "vxlanBVI"); (2, "vxlan2")] !! "vxlan2" = Some 2
      <-> (2, "vxlan2") ∈ [(1, "vxlanBVI"); (2, "vxlan2")]).
Proof.
  split.
  - apply (buildBdName2Id_inverts []).
    apply (bool_decide_unpack _). vm_compute. exact I.
  - apply (buildBdName2Id_inverts [(1, "vxlanBVI"); (2, "vxlan2")]).
    apply (bool_decide_unpack _). vm_compute. exact I.
Defined.

(** ** The member scan of the VXLAN validator *)

Lemma bdIfcStep_flag v node bdName2Id bdIfc st st' :
  bdIfcStep v node bdName2Id bdIfc st = Done st' ->
  hasBviIfc st' = hasBviIfc st || setsBviFlag node bdName2Id bdIfc.
Proof.
  unfold bdIfcStep, setsBviFlag, mapIndex.
  destruct (alookup _ _) as [nodeIfc|]; simpl;
    [|intros [= <-]; simpl; by rewrite andb_false_r, orb_false_r].
  destruct (BVI bdIfc); simpl.
  - destruct (decide (IfType (If nodeIfc) = SOFTWARE_LOOPBACK)) as [Ht|Ht].
    + rewrite (bool_decide_eq_true_2 _ Ht).
      rewrite bool_decide_eq_false_2 by (intros H; by apply H).
      destruct (RetrieveNodeByLoopMacAddr _ _); intros [= <-]; simpl; by rewrite orb_true_r.
    + rewrite (bool_decide_eq_false_2 _ Ht). rewrite bool_decide_eq_true_2 by done.
      intros [= <-]. rewrite orb_false_r. destruct (hasBviIfc st) eqn:Hb; simpl; by rewrite ?Hb.
  - rewrite orb_false_r.
    destruct (bool_decide (IfType _ ≠ _)); [by intros [= <-]|].
    destruct (RetrieveNodeByGigEIPAddr _ (SrcAddress _));
      [|intros [= <-]; by destruct (bool_decide _)].
    destruct (bool_decide (Node_Name _ ≠ _)); [intros [= <-]; by destruct (bool_decide _)|].
    destruct (RetrieveNodeByGigEIPAddr _ (DstAddress _)) eqn:Hdst;
      [|intros [= <-]; by destruct (bool_decide _)].
    intros [= <-]. simpl. by destruct (negb _), (bool_decide _).
Qed.

(** X5.  After the member scan of a bridge domain the BVI flag is set
    exactly when some member is marked BVI and its index (0 when the name of
    the member has no index) leads to a loopback interface of the node; the
    flag does not wait for the MAC of that interface to resolve. *)
Theorem bvi_flag_after_scan v nodeList node vxLanBD acc st :
  scanBD v nodeList node vxLanBD acc = Done st ->
  hasBviIfc st
  = existsb (setsBviFlag node (buildBdName2Id (BdID2Name (BdMeta vxLanBD))))
            (Interfaces (Bd vxLanBD)).
Proof.
  unfold scanBD. set (m := buildBdName2Id _).
  assert (Hgen : forall members st0,
            forRange (bdIfcStep v node m) members st0 = Done st ->
            hasBviIfc st = hasBviIfc st0 || existsb (setsBviFlag node m) members).
  { induction members as [|bdIfc members IH]; intros st0; simpl.
    - intros [= <-]. by rewrite orb_false_r.
    - destruct (bdIfcStep v node m bdIfc st0) as [st1|] eqn:Hstep; [simpl|done].
      intros Hrest. apply IH in Hrest. apply bdIfcStep_flag in Hstep.
      by rewrite Hrest, Hstep, orb_assoc. }
  intros Hscan. by apply Hgen in Hscan.
Qed.

Lemma bvi_flag_after_scan_witness :
  exists st,
    scanBD Fixture.twinCluster [Fixture.twinNode1; Fixture.twinNode2] Fixture.twinNode1
      Fixture.twinBD Fixture.twinStart = Done st
    /\ hasBviIfc st = true.
Proof.
  destruct (scanBD Fixture.twinCluster [Fixture.twinNode1; Fixture.twinNode2]
              Fixture.twinNode1 Fixture.twinBD Fixture.twinStart) as [st|] eqn:Hscan.
  - exists st. split; [reflexivity|].
    rewrite (bvi_flag_after_scan _ _ _ _ _ _ Hscan). reflexivity.
  - vm_compute in Hscan. discriminate Hscan.
Defined.

(** X6.  A tunnel member whose interface is a VXLAN tunnel, whose source
    resolves to the node itself and whose destination resolves to a node, is
    counted and its destination node leaves the set of unaccounted peers,
    whether or not the VNI is the expected one and whether or not the
    destination node has a tunnel back: each of the two adds one error line
    and nothing more. *)
Theorem tunnel_counted_without_reciprocal v node bdName2Id bdIfc st nodeIfc srcIPNode dstipNode :
  alookup (default 0 (bdName2Id !! BDIfc_Name bdIfc)) (NodeInterfaces node) = Some nodeIfc ->
  BVI bdIfc = false ->
  IfType (If nodeIfc) = VXLAN_TUNNEL ->
  RetrieveNodeByGigEIPAddr (vppCache v) (SrcAddress (If_Vxlan (If nodeIfc))) = Some srcIPNode ->
  Node_Name srcIPNode = Node_Name node ->
  RetrieveNodeByGigEIPAddr (vppCache v) (DstAddress (If_Vxlan (If nodeIfc))) = Some dstipNode ->
  exists st',
    bdIfcStep v node bdName2Id bdIfc st = Done st'
    /\ l2_i st' = incr (l2_i st)
    /\ hasBviIfc st' = hasBviIfc st
    /\ nodeVxlanMap st' = nodeVxlanMap st ∖ {[ Node_Name dstipNode ]}
    /\ l2_report st'
       = l2_report st
         ++ (if bool_decide (Vni (If_Vxlan (If nodeIfc)) = VppVNI v) then []
             else [entry (Node_Name node)
                     (BadVNI (If_Name (If nodeIfc)) (VppInternalName (IfMeta nodeIfc))
                             (Vni (If_Vxlan (If nodeIfc))) (VppVNI v))])
         ++ (if matchingTunnel nodeIfc dstipNode then []
             else [entry (Node_Name node)
                     (NoMatchingTunnel (Node_Name dstipNode) (If_Name (If nodeIfc)))])
    /\ l2_errCnt st'
       = incrBy ((if bool_decide (Vni (If_Vxlan (If nodeIfc)) = VppVNI v) then 0 else 1)
                 + (if matchingTunnel nodeIfc dstipNode then 0 else 1))%nat (l2_errCnt st).
Proof.
  intros Hif Hbvi Htype Hsrc Hself Hdst.
  unfold bdIfcStep, mapIndex. rewrite Hif, Hbvi. simpl. rewrite Htype. simpl.
  rewrite Hsrc. rewrite bool_decide_eq_false_2 by (intros H; by apply H).
  rewrite Hdst. eexists. split; [reflexivity|]. simpl.
  unfold incrBy.
  destruct (decide (Vni (If_Vxlan (If nodeIfc)) = VppVNI v)) as [Hv|Hv].
  - rewrite (bool_decide_eq_true_2 _ Hv).
    rewrite bool_decide_eq_false_2 by (intros H; by apply H).
    destruct (matchingTunnel nodeIfc dstipNode); simpl;
      unfold AppendToNodeReport; rewrite ?app_nil_r; done.
  - rewrite (bool_decide_eq_false_2 _ Hv). rewrite bool_decide_eq_true_2 by done.
    destruct (matchingTunnel nodeIfc dstipNode); simpl;
      unfold AppendToNodeReport; rewrite ?app_nil_r, <- ?app_assoc; done.
Qed.

Lemma tunnel_counted_without_reciprocal_witness :
  exists st',
    bdIfcStep Fixture.twinCluster Fixture.twinNode1
      (buildBdName2Id [(1, "vxlanBVI"); (2, "vxlan2"); (3, "vxlan3")])
      (Fixture.tunnelMember "vxlan2")
      {| l2_errCnt := 0; l2_report := []; l2_i := 0; hasBviIfc := false;
         nodeVxlanMap := {[ "k8s-master"; "k8s-worker1" ]} |} = Done st'
    /\ l2_i st' = incr 0.
Proof.
  destruct (tunnel_counted_without_reciprocal Fixture.twinCluster Fixture.twinNode1
              (buildBdName2Id [(1, "vxlanBVI"); (2, "vxlan2"); (3, "vxlan3")])
              (Fixture.tunnelMember "vxlan2")
              {| l2_errCnt := 0; l2_report := []; l2_i := 0; hasBviIfc := false;
                 nodeVxlanMap := {[ "k8s-master"; "k8s-worker1" ]} |}
              (Fixture.vxlanIfc "vxlan2" "192.168.16.1" "192.168.16.2")
              Fixture.twinNode1 Fixture.twinNode2
              eq_refl eq_refl eq_refl eq_refl eq_refl eq_refl)
    as (st' & Hstep & Hi & _).
  exists st'. split; [exact Hstep|exact Hi].
Defined.

(** ** The ARP validator: which peers are left, and what the summary counts *)

Lemma arpEntryStep_left v node e st n :
  n ∈ loopNodeMap (arpEntryStep v node e st)
  <-> n ∈ loopNodeMap st /\ ~ arpAccounts v node e n.
Proof.
  unfold arpEntryStep, arpAccounts.
  destruct (Static (Ae e)); simpl; [|naive_solver].
  destruct (alookup _ _) as [arpIf|]; simpl; [|naive_solver].
  destruct (decide (IfType (If arpIf) = SOFTWARE_LOOPBACK)) as [Ht|Ht];
    [rewrite (bool_decide_eq_false_2 (IfType (If arpIf) ≠ SOFTWARE_LOOPBACK))
       by (intros H; by apply H)
    |rewrite (bool_decide_eq_true_2 _ Ht); simpl; naive_solver].
  destruct (decide (If_Name (If arpIf) = "vxlanBVI")) as [Hn|Hn];
    [rewrite (bool_decide_eq_false_2 (If_Name (If arpIf) ≠ "vxlanBVI"))
       by (intros H; by apply H)
    |rewrite (bool_decide_eq_true_2 _ Hn); simpl; naive_solver].
  simpl.
  destruct (RetrieveNodeByLoopMacAddr _ _) as [macNode|],
           (RetrieveNodeByLoopIPAddr _ _) as [ipNode|]; simpl.
  - assert (Hset : forall s : ArpState,
              loopNodeMap (if bool_decide (Node_Name macNode ≠ Node_Name ipNode)
                           then arpFail (Node_Name node)
                                  (ArpMismatch (Ae_PhysAddress (Ae e)) (Ae_IPAddress (Ae e))
                                     (Node_Name macNode) (Node_Name ipNode)) s
                           else s) = loopNodeMap s)
      by (intros s; by destruct (bool_decide _)).
    rewrite Hset, elem_of_difference, elem_of_singleton. split.
    + intros [Hin Hne]. split; [done|]. intros (_ & _ & _ & ipNode' & [= <-] & Heq). done.
    + intros [Hin Hacc]. split; [done|]. intros ->. apply Hacc.
      split; [done|]. split; [by exists arpIf|]. split; [by eexists|]. by exists ipNode.
  - split; [|naive_solver]. intros Hin. split; [done|].
    by intros (_ & _ & _ & ipNode' & [=] & _).
  - split; [|naive_solver]. intros Hin. split; [done|].
    by intros (_ & _ & [x [=]] & _).
  - split; [|naive_solver]. intros Hin. split; [done|].
    by intros (_ & _ & [x [=]] & _).
Qed.

Lemma scanArpEntries_left v node st n :
  n ∈ loopNodeMap (scanArpEntries v node st)
  <-> n ∈ loopNodeMap st /\ forall e, e ∈ NodeIPArp node -> ~ arpAccounts v node e n.
Proof.
  unfold scanArpEntries. revert st.
  induction (NodeIPArp node) as [|e l IH]; intros st; simpl.
  - split; [|naive_solver]. intros H. split; [done|]. intros e He. by apply elem_of_nil in He.
  - rewrite IH, arpEntryStep_left. split.
    + intros [[Hin He] Hl]. split; [done|]. intros e' [->|H']%elem_of_cons; auto.
    + intros [Hin Hall]. split; [split; [done|]|].
      * apply Hall. left.
      * intros e' He'. apply Hall. by right.
Qed.

Lemma expectedPeers_elem_of nodeList node n :
  n ∈ expectedPeers nodeList node
  <-> n ≠ Node_Name node /\ exists m, m ∈ nodeList /\ Node_Name m = n.
Proof.
  unfold expectedPeers, nameSet. rewrite elem_of_list_to_set, list_elem_of_In, in_map_iff.
  split.
  - intros (m & <- & Hm). apply list_elem_of_In, list_elem_of_filter in Hm as [Hne Hm].
    split; [done|]. by exists m.
  - intros (Hne & m & Hm & <-). exists m. split; [done|].
    apply list_elem_of_In, list_elem_of_filter. done.
Qed.

(** X7.  For a node of the cluster, a missing-ARP-entry line for the name
    [n] is added to the report of the node exactly when [n] is the name of
    another node of the cache and no static entry of the node on its overlay
    BVI, with a MAC that resolves, has an IP that resolves to the node named
    [n]; the order of the ARP entries plays no part. *)
Theorem arp_missing_line_iff v nodeList node acc :
  exists out,
    snd (validateArpNode v nodeList node acc) = snd acc ++ out
    /\ forall n,
         entry (Node_Name node) (ArpMissing n) ∈ out
         <-> (n ≠ Node_Name node /\ exists m, m ∈ nodeList /\ Node_Name m = n)
             /\ forall e, e ∈ NodeIPArp node -> ~ arpAccounts v node e n.
Proof.
  unfold validateArpNode. simpl. rewrite reportMissingArp_report.
  destruct (scanArpEntries_appends v node
              {| arp_errCnt := fst acc; arp_report := snd acc;
                 loopNodeMap := expectedPeers nodeList node |}) as (out & Hout & Hnm).
  rewrite Hout. simpl. rewrite <- app_assoc. eexists. split; [reflexivity|].
  intros n. rewrite elem_of_app, <- expectedPeers_elem_of.
  rewrite <- (scanArpEntries_left v node
                {| arp_errCnt := fst acc; arp_report := snd acc;
                   loopNodeMap := expectedPeers nodeList node |} n).
  split.
  - intros [Hin|Hin].
    + rewrite Forall_forall in Hnm. destruct (Hnm _ Hin n). done.
    + apply list_elem_of_fmap in Hin as (n' & [= <-] & Hin). by apply elem_of_elements in Hin.
  - intros Hin. right. apply list_elem_of_fmap. exists n. split; [done|].
    by apply elem_of_elements.
Qed.

Lemma incr_wrap z : incr (wrap_int z) = wrap_int (z + 1).
Proof.
  unfold incr, wrap_int. f_equal.
  replace ((z + 2 ^ 63) mod 2 ^ 64 - 2 ^ 63 + 1 + 2 ^ 63) with ((z + 2 ^ 63) mod 2 ^ 64 + 1) by lia.
  replace (z + 1 + 2 ^ 63) with (z + 2 ^ 63 + 1) by lia.
  by rewrite Zplus_mod_idemp_l.
Qed.

(** Counting up from zero gives the count, as an [int]. *)
Lemma incrBy_zero n : incrBy n 0 = wrap_int (Z.of_nat n).
Proof.
  unfold incrBy. induction n as [|n IH]; [reflexivity|].
  simpl Nat.iter. rewrite IH, incr_wrap. f_equal. lia.
Qed.

Lemma incrBy_add n m z : incrBy (n + m) z = incrBy m (incrBy n z).
Proof. unfold incrBy. by rewrite Nat.add_comm, Nat.iter_add. Qed.

Lemma incrBy_S n z : incrBy (S n) z = incrBy n (incr z).
Proof. unfold incrBy. apply Nat.iter_succ_r. Qed.

Lemma arpEntryStep_counted v node e st :
  exists out,
    arp_report (arpEntryStep v node e st) = arp_report st ++ out
    /\ arp_errCnt (arpEntryStep v node e st) = incrBy (length out) (arp_errCnt st).
Proof.
  unfold arpEntryStep.
  destruct (negb _); [exists []; by rewrite app_nil_r|].
  destruct (alookup _ _) as [arpIf|]; [|eexists [_]; split; reflexivity].
  destruct (_ || _); [exists []; by rewrite app_nil_r|].
  destruct (RetrieveNodeByLoopMacAddr _ _) as [macNode|],
           (RetrieveNodeByLoopIPAddr _ _) as [ipNode|];
    try destruct (bool_decide (Node_Name macNode ≠ Node_Name ipNode));
    unfold arpFail, AppendToNodeReport; simpl; rewrite <- ?app_assoc;
    (eexists; split; reflexivity) || (exists []; by rewrite app_nil_r).
Qed.

Lemma validateArpNode_counted v nodeList node acc :
  exists out,
    snd (validateArpNode v nodeList node acc) = snd acc ++ out
    /\ fst (validateArpNode v nodeList node acc) = incrBy (length out) (fst acc).
Proof.
  unfold validateArpNode.
  set (st0 := {| arp_errCnt := fst acc; arp_report := snd acc;
                 loopNodeMap := expectedPeers nodeList node |}).
  assert (Hscan : exists out,
            arp_report (scanArpEntries v node st0) = arp_report st0 ++ out
            /\ arp_errCnt (scanArpEntries v node st0) = incrBy (length out) (arp_errCnt st0)).
  { unfold scanArpEntries. generalize st0. clear.
    induction (NodeIPArp node) as [|e l IH]; intros st; simpl.
    - exists []. by rewrite app_nil_r.
    - destruct (IH (arpEntryStep v node e st)) as (out2 & -> & ->).
      destruct (arpEntryStep_counted v node e st) as (out1 & -> & ->).
      exists (out1 ++ out2). by rewrite app_assoc, length_app, incrBy_add. }
  destruct Hscan as (out1 & H1 & H1c). simpl.
  assert (Hmiss : forall st,
            arp_report (reportMissingArp node st)
            = arp_report st ++ map (fun n => entry (Node_Name node) (ArpMissing n))
                                   (elements (loopNodeMap st))
            /\ arp_errCnt (reportMissingArp node st)
               = incrBy (length (elements (loopNodeMap st))) (arp_errCnt st)).
  { intros st. unfold reportMissingArp. generalize (elements (loopNodeMap st)). intros l.
    revert st. induction l as [|n l IH]; intros st; simpl; [by rewrite app_nil_r|].
    destruct (IH (arpFail (Node_Name node) (ArpMissing n) st)) as [-> ->].
    unfold arpFail, AppendToNodeReport; simpl. rewrite <- app_assoc. split; [done|].
    exact (eq_sym (incrBy_S _ _)). }
  destruct (Hmiss (scanArpEntries v node st0)) as [-> ->]. rewrite H1, H1c.
  eexists. split; [by rewrite <- app_assoc|].
  by rewrite length_app, length_map, incrBy_add.
Qed.

(** X8.  The ARP validator adds its error lines to the report and closes
    with one summary line in the global bucket.  The count in the summary is
    the number of error lines added (as an [int]): the summary says OK
    exactly when that number is zero, and else states the number, with the
    plural [s]. *)
Theorem ValidateArpTables_summary_counts_lines v r :
  exists out,
    ValidateArpTables v r
    = r ++ out ++ [arpSummary v (wrap_int (Z.of_nat (length out)))]
    /\ (out = [] -> ValidateArpTables v r = r ++ [entry (GlobalMsg v) ArpOK])
    /\ (out ≠ [] -> Z.of_nat (length out) < 2 ^ 63 ->
        ValidateArpTables v r
        = r ++ out ++ [entry (GlobalMsg v) (ArpErrors (Z.of_nat (length out)) "s")]).
Proof.
  unfold ValidateArpTables.
  set (nodeList := RetrieveAllNodes (vppCache v)).
  assert (Hfold : forall l acc, exists out,
            snd (fold_left (fun acc node => validateArpNode v nodeList node acc) l acc)
            = snd acc ++ out
            /\ fst (fold_left (fun acc node => validateArpNode v nodeList node acc) l acc)
               = incrBy (length out) (fst acc)).
  { induction l as [|node l IH]; intros acc; simpl.
    - exists []. by rewrite app_nil_r.
    - destruct (IH (validateArpNode v nodeList node acc)) as (out2 & -> & ->).
      destruct (validateArpNode_counted v nodeList node acc) as (out1 & -> & ->).
      exists (out1 ++ out2). by rewrite app_assoc, length_app, incrBy_add. }
  destruct (Hfold nodeList (0, r)) as (out & Hr & Hc).
  destruct (fold_left _ nodeList (0, r)) as [errCnt r']. simpl in Hr, Hc. subst r'.
  rewrite incrBy_zero in Hc. subst errCnt.
  assert (Heq : (if bool_decide (wrap_int (Z.of_nat (length out)) = 0)
                 then AppendToNodeReport (GlobalMsg v) ArpOK (r ++ out)
                 else AppendToNodeReport (GlobalMsg v)
                        (ArpErrors (wrap_int (Z.of_nat (length out)))
                           (printS (wrap_int (Z.of_nat (length out))))) (r ++ out))
                = r ++ out ++ [arpSummary v (wrap_int (Z.of_nat (length out)))]).
  { unfold arpSummary, AppendToNodeReport, entry.
    destruct (bool_decide _); by rewrite <- app_assoc. }
  exists out. split; [exact Heq|]. split.
  - intros ->. rewrite Heq. reflexivity.
  - intros Hne Hlen. rewrite Heq. unfold arpSummary.
    assert (Hw : wrap_int (Z.of_nat (length out)) = Z.of_nat (length out)).
    { unfold wrap_int. change (2 ^ 63) with 9223372036854775808 in *.
      change (2 ^ 64) with 18446744073709551616. rewrite Z.mod_small; lia. }
    rewrite Hw. destruct out as [|x out]; [done|].
    rewrite bool_decide_eq_false_2 by (simpl; lia).
    unfold printS. destruct (Z.ltb_spec 0 (Z.of_nat (length (x :: out)))); [done|].
    simpl in *. lia.
Qed.

(** ** The K8s node cross-validator *)

Lemma nameSet_cons {X} (name : X -> string) x l :
  nameSet name (x :: l) = {[ name x ]} ∪ nameSet name l.
Proof. reflexivity. Qed.

Lemma k8sNodeInfo_fold v l st :
  fold_left (fun st node => k8sNodeInfoStep v node st) l st
  = {| ki_report := ki_report st
                    ++ map (fun n => entry (Node_Name n) (NodeNotInK8s (Node_Name n)))
                           (filter (k8sAbsent v) l);
       ki_nodeMap := ki_nodeMap st ∖ k8sMatched v l;
       ki_k8sNodeMap := ki_k8sNodeMap st ∖ k8sMatched v l |}.
Proof.
  unfold k8sMatched. revert st. induction l as [|node l IH]; intros st; simpl.
  - destruct st. simpl. rewrite app_nil_r. f_equal; set_solver.
  - rewrite IH. clear IH. unfold k8sNodeInfoStep, k8sAbsent.
    destruct (RetrieveK8sNode (k8sCache v) (Node_Name node)) as [k|] eqn:Hk.
    + rewrite (filter_cons_False (k8sAbsent v)) by (unfold k8sAbsent; by rewrite Hk).
      case_bool_decide as Hn.
      * rewrite (filter_cons_True (k8sMatches v)) by (by exists k).
        rewrite nameSet_cons. simpl. rewrite <- Hn. f_equal; set_solver.
      * rewrite (filter_cons_False (k8sMatches v)); [done|].
        intros (k' & Hk' & Hn'). rewrite Hk in Hk'. by injection Hk' as <-.
    + rewrite (filter_cons_True (k8sAbsent v)) by done.
      rewrite (filter_cons_False (k8sMatches v)).
      * simpl. unfold AppendToNodeReport. by rewrite <- app_assoc.
      * intros (k' & Hk' & _). by rewrite Hk in Hk'.
Qed.

(** X9.  The K8s node cross-validator writes, in this order: one line for
    every dataplane node that has no K8s node under its name; one line for
    every K8s node name that no dataplane node with a K8s node of its own
    name carries; one line for every dataplane node name without such a
    match.  A dataplane node that has no K8s node under its name is therefore
    reported twice, by the first line and by the last. *)
Theorem ValidateK8sNodeInfo_lines v r :
  ValidateK8sNodeInfo v r
  = r ++ map (fun n => entry (Node_Name n) (NodeNotInK8s (Node_Name n)))
             (filter (k8sAbsent v) (RetrieveAllNodes (vppCache v)))
      ++ map (fun k => entry k (ContivNodeMissing k))
             (elements (nameSet K8sNode_Name (RetrieveAllK8sNodes (k8sCache v))
                        ∖ k8sMatched v (RetrieveAllNodes (vppCache v))))
      ++ map (fun n => entry n (K8sNodeMissing n))
             (elements (nameSet Node_Name (RetrieveAllNodes (vppCache v))
                        ∖ k8sMatched v (RetrieveAllNodes (vppCache v))))
  /\ forall node,
       node ∈ RetrieveAllNodes (vppCache v) ->
       k8sAbsent v node ->
       Node_Name node ∈ nameSet Node_Name (RetrieveAllNodes (vppCache v))
                        ∖ k8sMatched v (RetrieveAllNodes (vppCache v)).
Proof.
  split.
  - unfold ValidateK8sNodeInfo. rewrite k8sNodeInfo_fold. simpl.
    assert (Hfold : forall (f : string -> Msg) l r0,
              fold_left (fun r n => AppendToNodeReport n (f n) r) l r0
              = r0 ++ map (fun n => entry n (f n)) l).
    { intros f l. induction l as [|n l IH]; intros r0; simpl; [by rewrite app_nil_r|].
      rewrite IH. unfold AppendToNodeReport. by rewrite <- app_assoc. }
    rewrite (Hfold K8sNodeMissing), (Hfold ContivNodeMissing).
    by rewrite <- !app_assoc.
  - intros node Hin Habs. apply elem_of_difference. split.
    + unfold nameSet. apply elem_of_list_to_set, list_elem_of_fmap. by exists node.
    + unfold k8sMatched, nameSet. rewrite elem_of_list_to_set, list_elem_of_fmap.
      intros (m & Hname & Hm). apply list_elem_of_filter in Hm as [(k & Hk & _) _].
      unfold k8sAbsent in Habs. rewrite Hname in Habs. by rewrite Habs in Hk.
Qed.

(** ** The pod cross-validator *)

Lemma podAddrStep_counter p node adr i r :
  fst (podAddrStep p node adr (i, r))
  = if decide (addrCounts p node adr) then incr i else i.
Proof.
  unfold podAddrStep, addrCounts.
  destruct (decide (Addr_Type adr = 3)) as [H3|H3].
  - rewrite (bool_decide_eq_true_2 _ H3). rewrite (bool_decide_eq_false_2 (Addr_Type adr = 1)) by lia.
    destruct (decide (Address adr = HostIPAddress p)) as [Ha|Ha].
    + rewrite bool_decide_eq_false_2 by (intros H; by apply H). simpl.
      rewrite decide_True by auto. done.
    + rewrite bool_decide_eq_true_2 by done. simpl.
      rewrite decide_False; [done|]. intros [[_ ?]|[? _]]; [done|lia].
  - rewrite (bool_decide_eq_false_2 _ H3). simpl.
    destruct (decide (Addr_Type adr = 1)) as [H1|H1].
    + rewrite (bool_decide_eq_true_2 _ H1). simpl.
      destruct (decide (Address adr = Node_Name node)) as [Ha|Ha].
      * rewrite bool_decide_eq_false_2 by (intros H; by apply H). simpl.
        rewrite decide_True by auto. done.
      * rewrite bool_decide_eq_true_2 by done. simpl.
        rewrite decide_False; [done|]. intros [[? _]|[_ ?]]; done.
    + rewrite (bool_decide_eq_false_2 _ H1). simpl.
      rewrite decide_False; [done|]. intros [[? _]|[? _]]; done.
Qed.

Lemma podAddr_fold_counter p node addrs i r :
  fst (fold_left (fun acc adr => podAddrStep p node adr acc) addrs (i, r))
  = incrBy (length (filter (addrCounts p node) addrs)) i.
Proof.
  revert i r. induction addrs as [|adr addrs IH]; intros i r; cbn [fold_left]; [done|].
  destruct (podAddrStep p node adr (i, r)) as [i' r'] eqn:Hstep.
  rewrite IH. pose proof (podAddrStep_counter p node adr i r) as Hc.
  rewrite Hstep in Hc. simpl in Hc. subst i'.
  destruct (decide (addrCounts p node adr)).
  - rewrite filter_cons_True by done. cbn [length]. by rewrite incrBy_S.
  - by rewrite filter_cons_False by done.
Qed.

(** X10.  Once the pod of the node's map is the pod at hand and the K8s
    node of the node is found, the pod leaves the tracking set exactly when
    two address entries of the K8s node count for it, an entry counting when
    it is an internal IP equal to the host IP of the pod or a host name equal
    to the name of the node.  Which two is not asked: two internal-IP
    entries and no host name pass as well. *)
Theorem pod_accounted_iff_two_addresses v p node st k8snode :
  RetrieveK8sNode (k8sCache v) (Node_Name node) = Some k8snode ->
  pi_podMap (podInfoK8s v p node st)
  = if decide (wrap_int (Z.of_nat (length (filter (addrCounts p node) (Addresses k8snode)))) = 2)
    then pi_podMap st ∖ {[ Pod_Name p ]}
    else pi_podMap st.
Proof.
  intros Hk. unfold podInfoK8s. rewrite Hk.
  pose proof (podAddr_fold_counter p node (Addresses k8snode) 0 (pi_report st)) as Hc.
  destruct (fold_left _ (Addresses k8snode) (0, pi_report st)) as [i r]. simpl in Hc.
  rewrite incrBy_zero in Hc. subst i.
  destruct (decide (wrap_int _ = 2)) as [He|Hne].
  - by rewrite bool_decide_eq_false_2 by (intros H; by apply H).
  - by rewrite bool_decide_eq_true_2.
Qed.

Lemma pod_accounted_iff_two_addresses_witness :
  pi_podMap (podInfoK8s (Fixture.tapCluster "10.1.1.0/24" []) Fixture.web (Fixture.tapNode [])
               {| pi_report := []; pi_podMap := {[ "web" ]} |})
  = if decide (wrap_int (Z.of_nat (length (filter (addrCounts Fixture.web (Fixture.tapNode []))
                                             (Addresses (Fixture.tapK8sNode "10.1.1.0/24"))))) = 2)
    then pi_podMap {| pi_report := []; pi_podMap := {[ "web" ]} |} ∖ {[ Pod_Name Fixture.web ]}
    else pi_podMap {| pi_report := []; pi_podMap := {[ "web" ]} |}.
Proof.
  apply (pod_accounted_iff_two_addresses (Fixture.tapCluster "10.1.1.0/24" []) Fixture.web
           (Fixture.tapNode []) {| pi_report := []; pi_podMap := {[ "web" ]} |}
           (Fixture.tapK8sNode "10.1.1.0/24")).
  reflexivity.
Defined.

(** Two internal-IP entries equal to the host IP, and no host name. *)
Example two_internal_ips_pass :
  pi_podMap (podInfoK8s
               (Fixture.validatorOf
                  [Fixture.indexed (Fixture.emptyNode "k8s-master") "1"]
                  [{| K8sNode_Name := "k8s-master";
                      Addresses := [{| Addr_Type := 3; Address := "192.168.16.1" |};
                                    {| Addr_Type := 3; Address := "192.168.16.1" |}];
                      Pod_CIDR := "10.1.1.0/24" |}] [])
               Fixture.web (Fixture.emptyNode "k8s-master")
               {| pi_report := []; pi_podMap := {[ "web" ]} |})
  = ∅.
Proof. by_compute. Qed.

(** ** The pod store *)

Lemma trackPods_from pods podList acc :
  forRange (fun pod podMap => p ← deref pods pod; Done ({[ Pod_Name p ]} ∪ podMap)) podList acc
  = if decide (Forall (validRef pods) podList)
    then Done (podNames pods podList ∪ acc)
    else Panic NilPointerDereference.
Proof.
  unfold podNames.
  set (body := fun (pod : PodRef) (podMap : gset string) =>
                 p ← deref pods pod; Done ({[ Pod_Name p ]} ∪ podMap)).
  assert (Hbody : forall pod podMap,
            body pod podMap = match pods !! pod with
                              | Some p => Done ({[ Pod_Name p ]} ∪ podMap)
                              | None => Panic NilPointerDereference
                              end).
  { intros pod podMap. unfold body, deref. by destruct (pods !! pod). }
  clearbody body. revert acc. induction podList as [|pod podList IH]; intros acc.
  - cbn [forRange]. destruct (decide _) as [_|H]; [|destruct H; constructor].
    f_equal. set_solver.
  - cbn [forRange]. rewrite Hbody. destruct (pods !! pod) as [p|] eqn:Hp.
    + simpl. rewrite IH. destruct (decide (Forall (validRef pods) podList)) as [Hall|Hall].
      * rewrite decide_True by (constructor; [by eexists|done]).
        rewrite Hp. simpl. f_equal. set_solver.
      * rewrite decide_False; [done|]. intros H. by inversion H.
    + simpl. rewrite decide_False; [done|]. intros H. inversion H as [|? ? [? Hv] ?].
      by rewrite Hp in Hv.
Qed.

Lemma trackPods_names_or_panic_aux pods podList :
  Forall (validRef pods) podList -> trackPods pods podList = Done (podNames pods podList).
Proof.
  intros H. unfold trackPods. rewrite trackPods_from, decide_True by done.
  f_equal. set_solver.
Qed.

(** X11.  Both pod validators first collect the names of the listed pods.
    When every listed pointer is an address of the pod store, the tracking
    set is the set of the names of the pods behind them (pods that share a
    name share one place in it); a nil pointer in the list ends the run with
    a nil-pointer panic. *)
Theorem trackPods_names_or_panic pods podList :
  trackPods pods podList
  = if decide (Forall (validRef pods) podList)
    then Done (podNames pods podList)
    else Panic NilPointerDereference.
Proof.
  unfold trackPods. rewrite trackPods_from.
  destruct (decide _); [|done]. f_equal. set_solver.
Qed.

(** ** The binder and the pod store *)

Lemma samePod_refl : forall p, samePod p p.
Proof. done. Qed.

Lemma samePod_trans p q r : samePod p q -> samePod q r -> samePod p r.
Proof. unfold samePod. naive_solver congruence. Qed.

Lemma samePods_refl pods : Forall2 samePod pods pods.
Proof. induction pods; constructor; done. Qed.

Lemma samePods_trans l1 l2 l3 :
  Forall2 samePod l1 l2 -> Forall2 samePod l2 l3 -> Forall2 samePod l1 l3.
Proof.
  intros H12. revert l3. induction H12 as [|x y l k Hxy H12 IH]; intros l3 H23.
  - by inversion H23.
  - inversion H23 as [|? z ? k' Hyz H23']; subst. constructor; [by eapply samePod_trans|auto].
Qed.

Lemma samePods_alter ip intf pod pods :
  Forall2 samePod pods (alter (bindTap ip intf) pod pods).
Proof.
  revert pod. induction pods as [|p pods IH]; intros pod; [constructor|].
  destruct pod as [|pod]; simpl; constructor; [done|apply samePods_refl|done|apply IH].
Qed.

Lemma tapPodStep_samePods v pod st st' :
  tapPodStep v pod st = Done st' -> Forall2 samePod (tap_pods st) (tap_pods st').
Proof.
  unfold tapPodStep, deref.
  destruct (tap_pods st !! pod) as [p|]; [simpl|done].
  destruct (bool_decide _); [intros [= <-]; apply samePods_refl|].
  destruct (RetrieveNodeByHostIPAddr _ _) as [vppNode|]; [|intros [= <-]; apply samePods_refl].
  destruct (RetrieveK8sNode _ _) as [k8sNode|]; [|intros [= <-]; apply samePods_refl].
  unfold bindByCIDR. destruct (_ !! 1%nat) as [mask|]; [|done].
  destruct (strconv.Atoi mask) as [i err]. intros [= <-].
  rewrite scanTaps_candidates, scanCandidates_last.
  destruct (last _) as [c|]; destruct err; simpl;
    apply samePods_alter || apply samePods_refl.
Qed.

Lemma tapPods_run_samePods v podList st st' :
  forRange (tapPodStep v) podList st = Done st' ->
  Forall2 samePod (tap_pods st) (tap_pods st').
Proof.
  revert st. induction podList as [|pod podList IH]; intros st; simpl.
  - intros [= <-]. apply samePods_refl.
  - destruct (tapPodStep v pod st) as [st1|] eqn:Hstep; [simpl|done].
    intros Hrest. eapply samePods_trans; [by eapply tapPodStep_samePods|by apply IH].
Qed.

(** X12.  A run of the binder that returns leaves the pod store with the
    same pods in the same places: no pod is added or removed, and the name,
    the host IP and the IP of every pod are as before; the binding fields are
    all that it writes. *)
Theorem binder_writes_only_binding_fields v w w' :
  ValidateTapToPod v w = Done w' ->
  Forall2 samePod (podStore w) (podStore w')
  /\ length (podStore w') = length (podStore w).
Proof.
  unfold ValidateTapToPod.
  destruct (trackPods _ _) as [podMap|]; [simpl|done].
  destruct (forRange _ _ _) as [st|] eqn:Hrun; [simpl|done].
  intros [= <-]. simpl. apply tapPods_run_samePods in Hrun. simpl in Hrun.
  split; [done|]. symmetry. by eapply Forall2_length.
Qed.

Lemma binder_writes_only_binding_fields_witness :
  exists w',
    ValidateTapToPod (Fixture.tapCluster "10.1.1.0/24" ["172.30.9.5/32"]) Fixture.world = Done w'
    /\ Forall2 samePod (podStore Fixture.world) (podStore w').
Proof.
  destruct (ValidateTapToPod (Fixture.tapCluster "10.1.1.0/24" ["172.30.9.5/32"]) Fixture.world)
    as [w'|] eqn:Hrun.
  - exists w'. split; [reflexivity|].
    exact (proj1 (binder_writes_only_binding_fields _ _ _ Hrun)).
  - vm_compute in Hrun. discriminate Hrun.
Defined.

Lemma validRef_samePods pods pods' pod :
  Forall2 samePod pods pods' -> validRef pods pod -> validRef pods' pod.
Proof.
  unfold validRef. intros H. rewrite !lookup_lt_is_Some. by rewrite (Forall2_length _ _ _ H).
Qed.

(** X13.  The binder returns when no listed pod pointer is nil and every
    K8s node that the cache can answer with has a ['/'] in its Pod CIDR. *)
Theorem binder_returns v w :
  Forall (validRef (podStore w)) (RetrieveAllPods (k8sCache v)) ->
  (forall name k8sNode,
     RetrieveK8sNode (k8sCache v) name = Some k8sNode ->
     is_Some (strings.Split (Pod_CIDR k8sNode) "/"%char !! 1%nat)) ->
  exists w', ValidateTapToPod v w = Done w'.
Proof.
  intros Hvalid Hcidr. unfold ValidateTapToPod.
  rewrite trackPods_names_or_panic_aux by done. simpl.
  assert (Hrun : forall podList st,
            Forall (validRef (tap_pods st)) podList ->
            exists st', forRange (tapPodStep v) podList st = Done st').
  { induction podList as [|pod podList IH]; intros st Hl; simpl; [by eexists|].
    inversion Hl as [|? ? [p Hp] Hl']; subst.
    assert (exists st1, tapPodStep v pod st = Done st1) as [st1 Hstep].
    { unfold tapPodStep, deref. unfold PodRef in *. rewrite Hp. simpl.
      destruct (bool_decide _); [by eexists|].
      destruct (RetrieveNodeByHostIPAddr _ _) as [vppNode|]; [|by eexists].
      destruct (RetrieveK8sNode _ _) as [k8sNode|] eqn:Hk; [|by eexists].
      unfold bindByCIDR. destruct (Hcidr _ _ Hk) as [mask ->].
      destruct (strconv.Atoi mask). by eexists. }
    rewrite Hstep. simpl. apply IH.
    eapply Forall_impl; [exact Hl'|]. intros r.
    apply validRef_samePods. by eapply tapPodStep_samePods. }
  destruct (Hrun (RetrieveAllPods (k8sCache v))
              {| tap_report := report w; tap_pods := podStore w;
                 tap_podMap := podNames (podStore w) (RetrieveAllPods (k8sCache v)) |} Hvalid)
    as [st' ->].
  simpl. by eexists.
Qed.

Lemma binder_returns_witness :
  exists w',
    ValidateTapToPod (Fixture.tapCluster "10.1.1.0/24" ["172.30.9.5/32"]) Fixture.world = Done w'.
Proof.
  apply (binder_returns (Fixture.tapCluster "10.1.1.0/24" ["172.30.9.5/32"]) Fixture.world).
  - apply (bool_decide_unpack _). vm_compute. exact I.
  - intros name k8sNode. cbn [k8sCache RetrieveK8sNode Fixture.tapCluster Fixture.validatorOf
                               Fixture.k8sCacheOf].
    destruct (decide (K8sNode_Name (Fixture.tapK8sNode "10.1.1.0/24") = name)) as [He|Hne].
    + rewrite filter_cons_True by done. intros [= <-]. by eexists.
    + rewrite filter_cons_False by done. discriminate.
Defined.

(** ** The L2 FIB validator without entries to check *)

Lemma fibMissing_fold name l st :
  let st' := fold_left (fun st n => fibFailLog name (FibMissing n) st) l st in
  fib_report st' = fib_report st ++ map (fun n => loggedEntry name (FibMissing n)) l
  /\ fib_errCnt st' = incrBy (length l) (fib_errCnt st)
  /\ fibNodeMap st' = fibNodeMap st.
Proof.
  revert st. induction l as [|n l IH]; intros st; simpl; [by rewrite app_nil_r|].
  destruct (IH (fibFailLog name (FibMissing n) st)) as (-> & -> & ->).
  unfold fibFailLog, LogErrAndAppendToNodeReport; simpl. rewrite <- app_assoc.
  split; [done|]. split; [|done]. exact (eq_sym (incrBy_S _ _)).
Qed.

(** X14.  A node whose L2 FIB has no static entry in the overlay bridge
    domain gets one line for the missing entry of its own loop interface and
    one logged line for every node name of the cache as a missing entry, its
    own name among them, and no other line; the error count grows by one
    more than the number of node names. *)
Theorem fib_without_entries v nodeList node vxLanBD fibs acc :
  Forall (fun e => ~ qualifies vxLanBD e) fibs ->
  scanFib v nodeList node vxLanBD fibs acc
  = (incrBy (S (size (nameSet Node_Name nodeList))) (fst acc),
     snd acc ++ [entry (Node_Name node) FibLoop0NotFound]
             ++ map (fun n => loggedEntry (Node_Name node) (FibMissing n))
                    (elements (nameSet Node_Name nodeList))).
Proof.
  intros Hnone. unfold scanFib.
  assert (Hfilter : filter (qualifies vxLanBD) fibs = []).
  { induction Hnone as [|e l He Hl IH]; [done|]. by rewrite filter_cons_False. }
  rewrite (fold_left_filter (fun s e => fibMarkStep vxLanBD e s) (qualifies vxLanBD))
    by (intros; by apply fibMarkStep_skip).
  rewrite (fold_left_filter (fun st e => fibEntryStep v node vxLanBD e st) (qualifies vxLanBD))
    by (intros; by apply fibEntryStep_skip).
  rewrite Hfilter. cbn [fold_left negb fibHasLoopIF].
  match goal with
  | |- context [fold_left (fun s n => fibFailLog ?name (FibMissing n) s) ?l ?st0] =>
      destruct (fibMissing_fold name l st0) as (Hr & Hc & Hm)
  end.
  cbn [nodeFibMap fibFail] in *. simpl in Hr, Hc, Hm.
  rewrite Hm. rewrite elements_empty. cbn [fold_left]. rewrite Hr, Hc.
  unfold size, set_size. simpl. unfold AppendToNodeReport. rewrite <- app_assoc.
  f_equal. exact (eq_sym (incrBy_S _ _)).
Qed.

Lemma fib_without_entries_witness :
  scanFib Fixture.twinCluster [Fixture.twinNode1; Fixture.twinNode2] Fixture.twinNode1 0
    [] (0, [])
  = (incrBy (S (size (nameSet Node_Name [Fixture.twinNode1; Fixture.twinNode2]))) 0,
     [] ++ [entry "k8s-master" FibLoop0NotFound]
        ++ map (fun n => loggedEntry "k8s-master" (FibMissing n))
               (elements (nameSet Node_Name [Fixture.twinNode1; Fixture.twinNode2]))).
Proof.
  apply (fib_without_entries Fixture.twinCluster [Fixture.twinNode1; Fixture.twinNode2]
           Fixture.twinNode1 0 [] (0, [])).
  constructor.
Defined.

(** ** The whole run *)

(** X15.  The ARP, VXLAN, L2 FIB and K8s node validators always return and
    hand a report on: when [Validate] panics, the panic is that of the pod
    cross-validator or of the binder, run on the pod store that [Validate]
    was given. *)
Theorem Validate_panics_only_in_pod_validators v w why :
  Validate v w = Panic why ->
  (exists r, ValidatePodInfo v (podStore w) r = Panic why)
  \/ (exists r, ValidateTapToPod v {| report := r; podStore := podStore w; stdout := stdout w |}
                = Panic why).
Proof.
  unfold Validate.
  destruct (ValidateL2Connectivity_total v (ValidateArpTables v (report w))) as [r2 ->].
  simpl.
  destruct (ValidatePodInfo v (podStore w) _) as [r5|why'] eqn:Hpod; simpl.
  - intros H. right. by exists r5.
  - intros [= ->]. left. by eexists.
Qed.

Lemma Validate_panics_only_in_pod_validators_witness :
  (exists r, ValidatePodInfo (Fixture.tapCluster "10.1.1.0" ["10.1.1.5/32"])
               (podStore Fixture.world) r = Panic IndexOutOfRange)
  \/ (exists r, ValidateTapToPod (Fixture.tapCluster "10.1.1.0" ["10.1.1.5/32"])
                  {| report := r; podStore := podStore Fixture.world;
                     stdout := stdout Fixture.world |}
                = Panic IndexOutOfRange).
Proof.
  apply (Validate_panics_only_in_pod_validators
           (Fixture.tapCluster "10.1.1.0" ["10.1.1.5/32"]) Fixture.world IndexOutOfRange).
  vm_compute. reflexivity.
Defined.

(** ** What the summaries of the VXLAN and L2 FIB validators count *)

(** Closes a goal [exists out, r' = r ++ out /\ c' = incrBy (length out) c]
    once the lines that were added are explicit. *)
Ltac counted_lines :=
  simpl; rewrite <- ?app_assoc;
  first [ by (exists []; rewrite app_nil_r) | by (eexists; split; reflexivity) ].

Lemma bdIfcStep_counted v node bdName2Id bdIfc st st' :
  bdIfcStep v node bdName2Id bdIfc st = Done st' ->
  exists out,
    l2_report st' = l2_report st ++ out
    /\ l2_errCnt st' = incrBy (length out) (l2_errCnt st).
Proof.
  unfold bdIfcStep, mapIndex, l2Fail, l2Account, AppendToNodeReport.
  destruct (alookup _ _) as [nodeIfc|]; simpl; [|intros [= <-]; counted_lines].
  destruct (BVI bdIfc).
  - destruct (hasBviIfc st), (bool_decide (IfType _ ≠ _));
      try destruct (RetrieveNodeByLoopMacAddr _ _);
      intros [= <-]; counted_lines.
  - destruct (bool_decide (IfType _ ≠ _)); [intros [= <-]; counted_lines|].
    destruct (bool_decide (Vni _ ≠ _));
      (destruct (RetrieveNodeByGigEIPAddr _ (SrcAddress _)); [|intros [= <-]; counted_lines]);
      (destruct (bool_decide (Node_Name _ ≠ _)); [intros [= <-]; counted_lines|]);
      (destruct (RetrieveNodeByGigEIPAddr _ (DstAddress _)) eqn:Hdst;
         [|intros [= <-]; counted_lines]);
      destruct (negb _); intros [= <-]; counted_lines.
Qed.

Lemma scanBD_counted v nodeList node vxLanBD acc st :
  scanBD v nodeList node vxLanBD acc = Done st ->
  exists out,
    l2_report st = acc_report acc ++ out
    /\ l2_errCnt st = incrBy (length out) (acc_errCnt acc).
Proof.
  unfold scanBD. set (m := buildBdName2Id _).
  assert (Hgen : forall members st0,
            forRange (bdIfcStep v node m) members st0 = Done st ->
            exists out, l2_report st = l2_report st0 ++ out
                        /\ l2_errCnt st = incrBy (length out) (l2_errCnt st0)).
  { induction members as [|bdIfc members IH]; intros st0; simpl.
    - intros [= <-]. exists []. by rewrite app_nil_r.
    - destruct (bdIfcStep v node m bdIfc st0) as [st1|] eqn:Hstep; [simpl|done].
      intros (out2 & -> & ->)%IH. apply bdIfcStep_counted in Hstep as (out1 & -> & ->).
      exists (out1 ++ out2). by rewrite app_assoc, length_app, incrBy_add. }
  intros Hscan. by apply Hgen in Hscan.
Qed.

Lemma l2Conclude_counted nodeList node acc st :
  exists out,
    acc_report (l2Conclude nodeList node acc st) = l2_report st ++ out
    /\ acc_errCnt (l2Conclude nodeList node acc st) = incrBy (length out) (l2_errCnt st).
Proof.
  assert (Hmiss : forall name l s,
            let s' := fold_left (fun s n => l2Fail name (BDIfMissing n) s) l s in
            exists out, l2_report s' = l2_report s ++ out
                        /\ l2_errCnt s' = incrBy (length out) (l2_errCnt s)).
  { intros name l. induction l as [|n l IH]; intros s; simpl.
    - exists []. by rewrite app_nil_r.
    - destruct (IH (l2Fail name (BDIfMissing n) s)) as (out & -> & ->).
      unfold l2Fail, AppendToNodeReport; simpl. rewrite <- app_assoc.
      eexists. split; [reflexivity|]. exact (eq_sym (incrBy_S _ _)). }
  unfold l2Conclude.
  set (st1 := if bool_decide _ then _ else st).
  assert (H1 : exists out, l2_report st1 = l2_report st ++ out
                           /\ l2_errCnt st1 = incrBy (length out) (l2_errCnt st)).
  { unfold st1. destruct (bool_decide _); unfold l2Fail, AppendToNodeReport; counted_lines. }
  destruct H1 as (out1 & H1r & H1c). clearbody st1.
  destruct (negb (hasBviIfc st1)).
  - simpl. rewrite H1r, H1c. unfold AppendToNodeReport. rewrite <- app_assoc.
    eexists. split; [reflexivity|]. rewrite length_app, incrBy_add. reflexivity.
  - destruct (bool_decide _).
    + simpl. unfold reportMissingBDIf.
      destruct (Hmiss (Node_Name node) (elements (nodeVxlanMap st1)) st1) as (out2 & -> & ->).
      rewrite H1r, H1c. exists (out1 ++ out2). by rewrite app_assoc, length_app, incrBy_add.
    + simpl. by exists out1.
Qed.

Lemma validateNodeBD_counted v nodeList node acc acc' :
  validateNodeBD v nodeList node acc = Done acc' ->
  exists out,
    acc_report acc' = acc_report acc ++ out
    /\ acc_errCnt acc' = incrBy (length out) (acc_errCnt acc).
Proof.
  unfold validateNodeBD.
  destruct (searchVxlanBD _ _ _) as [| |vxLanBD];
    [intros [= <-]; unfold l2SkipNode, AppendToNodeReport; counted_lines..|].
  destruct (scanBD v nodeList node vxLanBD acc) as [st|] eqn:Hscan; [simpl|done].
  intros [= <-]. apply scanBD_counted in Hscan as (out1 & Hr & Hc).
  destruct (l2Conclude_counted nodeList node acc st) as (out2 & -> & ->).
  rewrite Hr, Hc. exists (out1 ++ out2). by rewrite app_assoc, length_app, incrBy_add.
Qed.

(** X16.  The report of the VXLAN validator is made of its error lines,
    then one failed-validation line for every node name left in the set of
    unvalidated nodes, then the summary.  The summary counts the error lines
    only: the failed-validation lines are not errors of their own. *)
Theorem ValidateL2Connectivity_summary_counts_errors v r :
  exists out final,
    forRange (validateNodeBD v (RetrieveAllNodes (vppCache v))) (RetrieveAllNodes (vppCache v))
      {| acc_errCnt := 0; acc_report := r;
         nodeMap := nameSet Node_Name (RetrieveAllNodes (vppCache v)) |} = Done final
    /\ acc_report final = r ++ out
    /\ ValidateL2Connectivity v r
       = Done (r ++ out
                 ++ map (fun n => entry n FailedToValidateBD) (elements (nodeMap final))
                 ++ [l2Summary v (wrap_int (Z.of_nat (length out)))]).
Proof.
  set (nodeList := RetrieveAllNodes (vppCache v)).
  assert (Hgen : forall l acc acc',
            forRange (validateNodeBD v nodeList) l acc = Done acc' ->
            exists out, acc_report acc' = acc_report acc ++ out
                        /\ acc_errCnt acc' = incrBy (length out) (acc_errCnt acc)).
  { induction l as [|node l IH]; intros acc acc'; simpl.
    - intros [= <-]. exists []. by rewrite app_nil_r.
    - destruct (validateNodeBD v nodeList node acc) as [acc1|] eqn:Hstep; [simpl|done].
      intros (out2 & -> & ->)%IH. apply validateNodeBD_counted in Hstep as (out1 & -> & ->).
      exists (out1 ++ out2). by rewrite app_assoc, length_app, incrBy_add. }
  destruct (forRange_total (validateNodeBD v nodeList) nodeList
              (fun node acc => validateNodeBD_total v nodeList node acc)
              {| acc_errCnt := 0; acc_report := r; nodeMap := nameSet Node_Name nodeList |})
    as [final Hrun].
  destruct (Hgen _ _ _ Hrun) as (out & Hr & Hc). cbn [acc_report acc_errCnt] in Hr, Hc.
  rewrite incrBy_zero in Hc.
  exists out, final. split; [exact Hrun|]. split; [exact Hr|].
  unfold ValidateL2Connectivity. fold nodeList. rewrite Hrun. simpl.
  rewrite reportUnvalidated_report, Hr, Hc. unfold l2Summary, AppendToNodeReport, entry.
  destruct (bool_decide _); by rewrite <- !app_assoc.
Qed.

Lemma fibEntryStep_counted v node vxLanBD e st :
  exists out,
    fib_report (fibEntryStep v node vxLanBD e st) = fib_report st ++ out
    /\ fib_errCnt (fibEntryStep v node vxLanBD e st) = incrBy (length out) (fib_errCnt st).
Proof.
  destruct e as [feKey feVal].
  unfold fibEntryStep, fibFail, fibFailLog, fibAccount, AppendToNodeReport,
    LogErrAndAppendToNodeReport.
  cbv zeta. repeat case_match; counted_lines.
Qed.

Lemma fib_fold_counted {X} (f : X -> FibState -> FibState) l :
  (forall x st, exists out, fib_report (f x st) = fib_report st ++ out
                            /\ fib_errCnt (f x st) = incrBy (length out) (fib_errCnt st)) ->
  forall st, exists out,
    fib_report (fold_left (fun st x => f x st) l st) = fib_report st ++ out
    /\ fib_errCnt (fold_left (fun st x => f x st) l st) = incrBy (length out) (fib_errCnt st).
Proof.
  intros Hf. induction l as [|x l IH]; intros st; simpl.
  - exists []. by rewrite app_nil_r.
  - destruct (IH (f x st)) as (out2 & -> & ->). destruct (Hf x st) as (out1 & -> & ->).
    exists (out1 ++ out2). by rewrite app_assoc, length_app, incrBy_add.
Qed.

Lemma validateFibNode_counted v nodeList node acc :
  exists out,
    snd (validateFibNode v nodeList node acc) = snd acc ++ out
    /\ fst (validateFibNode v nodeList node acc) = incrBy (length out) (fst acc).
Proof.
  unfold validateFibNode. destruct (getVxlanBD node) as [vxLanBD|].
  - unfold scanFib. cbv zeta.
    set (st0 := {| fib_errCnt := fst acc |}).
    destruct (fib_fold_counted (fibEntryStep v node vxLanBD) (NodeL2Fibs node)
                (fibEntryStep_counted v node vxLanBD) st0) as (out1 & H1r & H1c).
    set (st1 := fold_left _ (NodeL2Fibs node) st0) in *. clearbody st1.
    set (st2 := if negb (fibHasLoopIF st1) then _ else st1).
    assert (H2 : exists out, fib_report st2 = fib_report st1 ++ out
                             /\ fib_errCnt st2 = incrBy (length out) (fib_errCnt st1)).
    { unfold st2. destruct (negb _); unfold fibFail, AppendToNodeReport; counted_lines. }
    destruct H2 as (out2 & H2r & H2c). clearbody st2.
    destruct (fib_fold_counted
                (fun n st => fibFailLog (Node_Name node) (FibMissing n) st)
                (elements (nodeFibMap st2))
                (fun n st => ex_intro _ [loggedEntry (Node_Name node) (FibMissing n)]
                               (conj eq_refl eq_refl)) st2) as (out3 & H3r & H3c).
    set (st3 := fold_left _ (elements (nodeFibMap st2)) st2) in *. clearbody st3.
    destruct (fib_fold_counted
                (fun k st => fibFail (Node_Name node) (FibDangling k) st)
                (elements (fibNodeMap st3))
                (fun k st => ex_intro _ [entry (Node_Name node) (FibDangling k)]
                               (conj eq_refl eq_refl)) st3) as (out4 & H4r & H4c).
    simpl. rewrite H4r, H4c, H3r, H3c, H2r, H2c, H1r, H1c.
    exists (out1 ++ out2 ++ out3 ++ out4).
    rewrite !length_app, !incrBy_add, <- !app_assoc. done.
  - simpl. unfold AppendToNodeReport. by eexists [_].
Qed.

(** X17.  The L2 FIB validator adds its error lines, logged or not, to the
    report and closes with one summary line in the global bucket; the count
    in the summary is the number of lines added (as an [int]), and the
    summary says OK exactly when that number is zero. *)
Theorem ValidateL2FibEntries_summary_counts_lines v r :
  exists out,
    ValidateL2FibEntries v r
    = r ++ out ++ [fibSummary v (wrap_int (Z.of_nat (length out)))].
Proof.
  unfold ValidateL2FibEntries.
  set (nodeList := RetrieveAllNodes (vppCache v)).
  assert (Hfold : forall l acc, exists out,
            snd (fold_left (fun acc node => validateFibNode v nodeList node acc) l acc)
            = snd acc ++ out
            /\ fst (fold_left (fun acc node => validateFibNode v nodeList node acc) l acc)
               = incrBy (length out) (fst acc)).
  { induction l as [|node l IH]; intros acc; simpl.
    - exists []. by rewrite app_nil_r.
    - destruct (IH (validateFibNode v nodeList node acc)) as (out2 & -> & ->).
      destruct (validateFibNode_counted v nodeList node acc) as (out1 & -> & ->).
      exists (out1 ++ out2). by rewrite app_assoc, length_app, incrBy_add. }
  destruct (Hfold nodeList (0, r)) as (out & Hr & Hc).
  destruct (fold_left _ nodeList (0, r)) as [errCnt r']. simpl in Hr, Hc. subst r'.
  rewrite incrBy_zero in Hc. subst errCnt. exists out.
  unfold fibSummary, AppendToNodeReport, entry.
  destruct (bool_decide _); by rewrite <- app_assoc.
Qed.

(** ** The pods that the binder prints as unbound *)

Lemma tapPodStep_tracking v pod st st' :
  tapPodStep v pod st = Done st' -> tap_podMap st' ⊆ tap_podMap st.
Proof.
  unfold tapPodStep, deref.
  destruct (tap_pods st !! pod) as [p|]; [simpl|done].
  destruct (bool_decide _); [intros [= <-]; simpl; set_solver|].
  destruct (RetrieveNodeByHostIPAddr _ _) as [vppNode|]; [|by intros [= <-]].
  destruct (RetrieveK8sNode _ _) as [k8sNode|]; [|by intros [= <-]].
  unfold bindByCIDR. destruct (_ !! 1%nat) as [mask|]; [|done].
  destruct (strconv.Atoi mask) as [i err]. intros [= <-].
  rewrite scanTaps_candidates, scanCandidates_last.
  destruct (last _) as [c|]; destruct err; simpl; set_solver.
Qed.

Lemma tapPods_run_tracking v podList st st' :
  forRange (tapPodStep v) podList st = Done st' -> tap_podMap st' ⊆ tap_podMap st.
Proof.
  revert st. induction podList as [|pod podList IH]; intros st; simpl.
  - by intros [= <-].
  - destruct (tapPodStep v pod st) as [st1|] eqn:Hstep; [simpl|done].
    intros Hrest. apply IH in Hrest. apply tapPodStep_tracking in Hstep. set_solver.
Qed.

Lemma tapPods_run_host_network v podList st st' pod p :
  forRange (tapPodStep v) podList st = Done st' ->
  pod ∈ podList ->
  tap_pods st !! pod = Some p ->
  IPAddress p = HostIPAddress p ->
  Pod_Name p ∉ tap_podMap st'.
Proof.
  revert st p. induction podList as [|pod0 podList IH]; intros st p; simpl.
  - intros _ H. by apply elem_of_nil in H.
  - destruct (tapPodStep v pod0 st) as [st1|] eqn:Hstep; [simpl|done].
    intros Hrest Hin Hp Hhost.
    destruct (Forall2_lookup_l _ _ _ _ _ (tapPodStep_samePods _ _ _ _ Hstep) Hp)
      as (p1 & Hp1 & Hname & Hh & Hi).
    destruct (decide (pod = pod0)) as [->|Hne].
    + apply tapPods_run_tracking in Hrest.
      assert (Pod_Name p ∉ tap_podMap st1); [|set_solver].
      revert Hstep. unfold tapPodStep, deref. rewrite Hp. simpl.
      rewrite bool_decide_eq_true_2 by done. intros [= <-]. simpl. set_solver.
    + apply elem_of_cons in Hin as [?|Hin]; [done|].
      rewrite Hname. eapply IH; [exact Hrest|exact Hin|exact Hp1|congruence].
Qed.

Lemma binder_samePod v p q :
  samePod p q -> binderLines v p = binderLines v q /\ binderRemoves v p = binderRemoves v q.
Proof.
  intros (_ & Hh & Hi). unfold binderLines, binderRemoves, tapMatches.
  by rewrite Hh, Hi.
Qed.

Lemma last_filter_existsb {X} (f : X -> bool) (l : list X) :
  is_Some (last (filter (fun x => f x = true) l)) <-> existsb f l = true.
Proof.
  rewrite existsb_exists. split.
  - intros [x Hx]. apply last_Some_elem_of, list_elem_of_filter in Hx as [Hf Hin].
    exists x. split; [by apply list_elem_of_In|done].
  - intros (x & Hin & Hf). destruct (last _) eqn:Hl; [by eexists|].
    apply last_None in Hl. apply list_elem_of_In in Hin.
    destruct (filter_nil_not_elem_of _ _ x Hl Hf Hin).
Qed.

(** One iteration of the binder that returns: the lines it adds and the
    name it takes out of the tracking set. *)
Lemma tapPodStep_lines v pod st st' :
  tapPodStep v pod st = Done st' ->
  exists p,
    tap_pods st !! pod = Some p
    /\ tap_report st' = tap_report st ++ binderLines v p
    /\ tap_podMap st'
       = if binderRemoves v p then tap_podMap st ∖ {[ Pod_Name p ]} else tap_podMap st.
Proof.
  unfold tapPodStep, deref, binderLines, binderRemoves.
  destruct (tap_pods st !! pod) as [p|]; [simpl|done]. intros Hstep. exists p.
  split; [done|]. revert Hstep.
  destruct (bool_decide _); [intros [= <-]; simpl; by rewrite app_nil_r|]. cbn [orb].
  destruct (RetrieveNodeByHostIPAddr _ _) as [vppNode|]; [|by intros [= <-]].
  destruct (RetrieveK8sNode _ _) as [k8sNode|]; [|by intros [= <-]].
  unfold bindByCIDR. destruct (_ !! 1%nat) as [mask|]; [|done].
  destruct (strconv.Atoi mask) as [i err]. intros [= <-]. cbn [fst snd].
  rewrite scanTaps_candidates, scanCandidates_last.
  pose proof (last_filter_existsb (fun c => tapMatches p (maskLength2Mask i) c.2)
                (tapCandidates vppNode)) as Hlast.
  destruct (last _) as [c|].
  - rewrite (proj1 Hlast) by (by eexists).
    destruct err; simpl; by rewrite ?app_nil_r.
  - destruct (existsb _ _); [by destruct (proj2 Hlast eq_refl)|].
    destruct err; simpl; by rewrite ?app_nil_r.
Qed.

Lemma podRecords_cons pods pod podList p :
  pods !! pod = Some p -> podRecords pods (pod :: podList) = p :: podRecords pods podList.
Proof. intros Hp. unfold podRecords. cbn [omap list_omap]. by rewrite Hp. Qed.

Lemma podRecords_cons_None pods pod podList :
  pods !! pod = None -> podRecords pods (pod :: podList) = podRecords pods podList.
Proof. intros Hp. unfold podRecords. cbn [omap list_omap]. by rewrite Hp. Qed.

Lemma binderLines_samePods v pods pods' podList :
  Forall2 samePod pods pods' ->
  flat_map (binderLines v) (podRecords pods podList)
  = flat_map (binderLines v) (podRecords pods' podList).
Proof.
  intros Hsame. induction podList as [|pod podList IH]; [done|].
  destruct (pods !! pod) as [p|] eqn:Hp.
  - destruct (Forall2_lookup_l _ _ _ _ _ Hsame Hp) as (q & Hq & Hpq).
    rewrite (podRecords_cons _ _ _ _ Hp), (podRecords_cons _ _ _ _ Hq). simpl.
    by rewrite IH, (proj1 (binder_samePod v _ _ Hpq)).
  - assert (Hq : pods' !! pod = None).
    { apply lookup_ge_None. apply lookup_ge_None in Hp.
      by rewrite <- (Forall2_length _ _ _ Hsame). }
    by rewrite (podRecords_cons_None _ _ _ Hp), (podRecords_cons_None _ _ _ Hq).
Qed.

(** The iterations of the binder, when they return: the lines added to the
    report are those of the pods in the order of the list, and a name is
    left in the tracking set exactly when it was there and no listed pod of
    that name is taken out. *)
Lemma tapPods_run_lines v podList st st' :
  forRange (tapPodStep v) podList st = Done st' ->
  tap_report st' = tap_report st ++ flat_map (binderLines v) (podRecords (tap_pods st) podList)
  /\ forall n,
       n ∈ tap_podMap st'
       <-> n ∈ tap_podMap st
           /\ forall pod p, pod ∈ podList -> tap_pods st !! pod = Some p ->
                            Pod_Name p = n -> binderRemoves v p = false.
Proof.
  revert st. induction podList as [|pod0 podList IH]; intros st Hrun; simpl in Hrun.
  - injection Hrun as <-. split; [by rewrite app_nil_r|]. intros n. split; [|by intros [? _]].
    intros Hn. split; [done|]. intros pod p H. by apply elem_of_nil in H.
  - destruct (tapPodStep v pod0 st) as [st1|] eqn:Hstep; [simpl in Hrun|done].
    apply IH in Hrun as [Hrep Hmap]. clear IH.
    pose proof (tapPodStep_samePods _ _ _ _ Hstep) as Hsame.
    apply tapPodStep_lines in Hstep as (p0 & Hp0 & Hrep1 & Hmap1).
    split.
    + rewrite Hrep, Hrep1, (podRecords_cons _ _ _ _ Hp0). simpl.
      by rewrite <- app_assoc, <- (binderLines_samePods v _ _ _ Hsame).
    + intros n. rewrite Hmap, Hmap1. clear Hrep Hrep1 Hmap Hmap1. split.
      * intros [Hn Hrest]. split.
        -- destruct (binderRemoves v p0); set_solver.
        -- intros pod p Hin Hp Hname. apply elem_of_cons in Hin as [->|Hin].
           ++ assert (p = p0) as -> by congruence.
              destruct (binderRemoves v p0); [set_solver|done].
           ++ destruct (Forall2_lookup_l _ _ _ _ _ Hsame Hp) as (q & Hq & Hpq).
              rewrite (proj2 (binder_samePod v _ _ Hpq)).
              apply (Hrest pod q Hin Hq). destruct Hpq as [<- _]. done.
      * intros [Hn Hall]. split.
        -- destruct (binderRemoves v p0) eqn:Hrem; [|done].
           apply elem_of_difference. split; [done|]. intros Heq%elem_of_singleton.
           rewrite (Hall pod0 p0) in Hrem; [done|left|done|done].
        -- intros pod q Hin Hq Hname.
           destruct (Forall2_lookup_r _ _ _ _ _ Hsame Hq) as (p & Hp & Hpq).
           rewrite <- (proj2 (binder_samePod v _ _ Hpq)).
           apply (Hall pod p); [by right|done|]. destruct Hpq as [-> _]. done.
Qed.

Lemma binderLines_messages v p e :
  e ∈ binderLines v p -> forall n, message e ≠ NoValidTap n.
Proof.
  unfold binderLines. intros He n.
  repeat match type of He with
         | context [if ?b then _ else _] => destruct b
         | context [match ?x with _ => _ end] => destruct x
         end;
    try (by apply elem_of_nil in He);
    apply list_elem_of_singleton in He; by subst e.
Qed.

(** X18.  A run of the binder that returns adds to the report the lines of
    the listed pods, in the order of the list, and nothing else; none of
    them is a line about a pod without a tap.  To the standard output it
    adds, after what was there, one such line for every name that is left in
    its tracking set, and the names left are exactly the names of listed
    pods of which no listed pod of that name was taken out: a pod is taken
    out when its IP is its host IP, or when its host node and K8s node
    resolve and some candidate entry of the node passes the mask test.  So
    the names left are names of listed pods, and never the name of a listed
    pod whose IP is its host IP. *)
Theorem binder_prints_unbound_pods v w w' :
  ValidateTapToPod v w = Done w' ->
  report w'
  = report w
    ++ flat_map (binderLines v) (podRecords (podStore w) (RetrieveAllPods (k8sCache v)))
  /\ (forall e n,
        e ∈ flat_map (binderLines v) (podRecords (podStore w) (RetrieveAllPods (k8sCache v))) ->
        message e ≠ NoValidTap n)
  /\ exists unbound : gset string,
       stdout w' = stdout w ++ map NoValidTap (elements unbound)
       /\ (forall n,
             n ∈ unbound
             <-> n ∈ podNames (podStore w) (RetrieveAllPods (k8sCache v))
                 /\ forall pod p,
                      pod ∈ RetrieveAllPods (k8sCache v) ->
                      podStore w !! pod = Some p ->
                      Pod_Name p = n ->
                      binderRemoves v p = false)
       /\ unbound ⊆ podNames (podStore w) (RetrieveAllPods (k8sCache v))
       /\ forall pod p,
            pod ∈ RetrieveAllPods (k8sCache v) ->
            podStore w !! pod = Some p ->
            IPAddress p = HostIPAddress p ->
            Pod_Name p ∉ unbound.
Proof.
  unfold ValidateTapToPod, trackPods. rewrite trackPods_from.
  destruct (decide _) as [Hvalid|]; [simpl|done].
  destruct (forRange _ _ _) as [st|] eqn:Hrun; [simpl|done].
  intros [= <-]. simpl.
  destruct (tapPods_run_lines _ _ _ _ Hrun) as [Hrep Hmap]. simpl in Hrep, Hmap.
  split; [done|]. split.
  - intros e n He. apply list_elem_of_In, in_flat_map in He as (p & _ & He).
    apply list_elem_of_In in He. by eapply binderLines_messages.
  - exists (tap_podMap st). split; [done|]. split; [|split].
    + intros n. rewrite Hmap. set_solver.
    + apply tapPods_run_tracking in Hrun. simpl in Hrun. set_solver.
    + intros pod p Hin Hp Hhost. by eapply tapPods_run_host_network.
Qed.

Lemma binder_prints_unbound_pods_witness :
  exists w' (unbound : gset string),
    ValidateTapToPod (Fixture.tapCluster "10.1.1.0/24" ["10.1.1.1/24"]) Fixture.world = Done w'
    /\ report w' = []
    /\ stdout w' = stdout Fixture.world ++ map NoValidTap (elements unbound)
    /\ "web" ∈ unbound.
Proof.
  destruct (ValidateTapToPod (Fixture.tapCluster "10.1.1.0/24" ["10.1.1.1/24"]) Fixture.world)
    as [w'|] eqn:Hrun.
  - destruct (binder_prints_unbound_pods _ _ _ Hrun) as (Hrep & _ & unbound & Hout & Hleft & _).
    exists w', unbound. split; [reflexivity|]. split; [exact Hrep|]. split; [exact Hout|].
    apply Hleft. split.
    + apply (bool_decide_unpack _). vm_compute. exact I.
    + intros pod p Hin Hp _. apply list_elem_of_singleton in Hin. subst pod.
      injection Hp as <-. vm_compute. reflexivity.
  - vm_compute in Hrun. discriminate Hrun.
Defined.

(** ** The index of the overlay bridge domain in an ordered list *)

Lemma rangeOf_lookup {X} (l : list X) k idx x :
  rangeOf l !! k = Some (idx, x) <-> idx = Z.of_nat k /\ l !! k = Some x.
Proof.
  unfold rangeOf. rewrite list_lookup_imap.
  destruct (l !! k) as [y|]; simpl; naive_solver.
Qed.

(** X19.  When the bridge domains of a node are an ordered list, the index
    that [getVxlanBD] returns is the position, counted from zero, of the
    first bridge domain named [vxlanBD]; and [getVxlanBD] fails exactly when
    the list has no such bridge domain. *)
Theorem getVxlanBD_position (bds : list NodeBridgeDomain) :
  (forall idx,
     getVxlanBDIn (rangeOf bds) = Some idx ->
     exists k bd,
       idx = Z.of_nat k
       /\ bds !! k = Some bd
       /\ Bd_Name (Bd bd) = "vxlanBD"
       /\ forall j bd', (j < k)%nat -> bds !! j = Some bd' -> Bd_Name (Bd bd') ≠ "vxlanBD")
  /\ (getVxlanBDIn (rangeOf bds) = None
      <-> Forall (fun bd => Bd_Name (Bd bd) ≠ "vxlanBD") bds).
Proof.
  split.
  - intros idx (k & bd & Hk & Hname & Hfirst)%getVxlanBDIn_first.
    apply rangeOf_lookup in Hk as [-> Hk]. exists k, bd. repeat split; [done..|].
    intros j bd' Hj Hbd'. apply (Hfirst j (Z.of_nat j, bd') Hj). by apply rangeOf_lookup.
  - rewrite getVxlanBDIn_None. unfold overlayBDs. rewrite Forall_forall. split.
    + intros Hnone bd Hin Hname. apply list_elem_of_lookup in Hin as [k Hk].
      assert (Hin' : (Z.of_nat k, bd) ∈ rangeOf bds).
      { apply list_elem_of_lookup. exists k. by apply rangeOf_lookup. }
      by apply (filter_nil_not_elem_of _ _ _ Hnone) in Hin'.
    + intros Hall.
      destruct (filter _ (rangeOf bds)) as [|[i bd] l] eqn:Hf; [done|].
      assert (Hin : (i, bd) ∈ filter (fun e : Z * NodeBridgeDomain =>
                                        Bd_Name (Bd e.2) = "vxlanBD") (rangeOf bds))
        by (rewrite Hf; left).
      apply list_elem_of_filter in Hin as [Hname Hin].
      apply list_elem_of_lookup in Hin as [k Hk]. apply rangeOf_lookup in Hk as [_ Hk].
      destruct (Hall bd); [|done]. apply list_elem_of_lookup. by exists k.
Qed.

(** ** The L2 FIB validator on the entries that qualify *)

Lemma fibEntryStep_qualifying v node vxLanBD feKey feVal st :
  qualifies vxLanBD (feKey, feVal) ->
  fibEntryStep v node vxLanBD (feKey, feVal) st
  = {| fib_errCnt := incrBy (length (fibEntryLines v node feKey feVal)) (fib_errCnt st);
       fib_report := fib_report st ++ fibEntryLines v node feKey feVal;
       fibHasLoopIF := fibHasLoopIF st || fibEntrySetsFlag v feVal;
       nodeFibMap := match fibEntryPeer v node feVal with
                     | Some peer => nodeFibMap st ∖ {[ peer ]}
                     | None => nodeFibMap st
                     end;
       fibNodeMap := match fibEntryPeer v node feVal with
                     | Some _ => fibNodeMap st ∖ {[ feKey ]}
                     | None => fibNodeMap st
                     end |}.
Proof.
  intros [Hbd Hstatic]. simpl in Hbd, Hstatic.
  unfold fibEntryStep, fibEntryLines, fibEntryPeer, fibEntrySetsFlag.
  rewrite bool_decide_eq_false_2 by (intros H; by apply H). rewrite Hstatic. cbn [negb].
  unfold fibFail, fibFailLog, fibAccount, AppendToNodeReport, LogErrAndAppendToNodeReport,
    incrBy, entry, loggedEntry.
  destruct st as [c r flag peers keys]. cbn [fib_errCnt fib_report fibHasLoopIF nodeFibMap fibNodeMap].
  destruct (BridgedVirtualInterface (Fe feVal)); cbn [andb].
  - destruct (GetNodeLoopIFInfo v node) as [loopIf|].
    + destruct (decide (Fe_PhysAddress (Fe feVal) = If_PhysAddress (If loopIf))) as [Hm|Hm].
      * rewrite (bool_decide_eq_true_2 _ Hm).
        rewrite bool_decide_eq_false_2 by (intros H; by apply H).
        destruct (RetrieveNodeByLoopMacAddr _ _) as [n|].
        -- rewrite bool_decide_eq_true_2 by (by eexists). simpl.
           by rewrite app_nil_r, orb_true_r.
        -- rewrite bool_decide_eq_false_2 by (by intros [? ?]). simpl.
           by rewrite orb_false_r.
      * rewrite (bool_decide_eq_false_2 _ Hm). rewrite bool_decide_eq_true_2 by done.
        destruct (RetrieveNodeByLoopMacAddr _ _) as [n|].
        -- rewrite bool_decide_eq_true_2 by (by eexists). simpl. by rewrite orb_true_r.
        -- rewrite bool_decide_eq_false_2 by (by intros [? ?]). simpl.
           by rewrite orb_false_r, <- app_assoc.
    + destruct (RetrieveNodeByLoopMacAddr _ _) as [n|].
      * rewrite bool_decide_eq_true_2 by (by eexists). simpl. by rewrite orb_true_r.
      * rewrite bool_decide_eq_false_2 by (by intros [? ?]). simpl.
        by rewrite orb_false_r, <- app_assoc.
  - rewrite orb_false_r.
    destruct (alookup _ _) as [intf|]; [|done].
    destruct (RetrieveNodeByGigEIPAddr _ _) as [macNode|]; [simpl|done].
    destruct (GetNodeLoopIFInfo v macNode) as [remoteLoopIF|]; [|done].
    destruct (decide (If_PhysAddress (If remoteLoopIF) = Fe_PhysAddress (Fe feVal))) as [Hm|Hm].
    + rewrite (bool_decide_eq_true_2 _ Hm).
      rewrite bool_decide_eq_false_2 by (intros H; by apply H).
      destruct (RetrieveNodeByLoopMacAddr _ _) as [n|]; simpl; by rewrite ?app_nil_r.
    + rewrite (bool_decide_eq_false_2 _ Hm). rewrite bool_decide_eq_true_2 by done.
      destruct (RetrieveNodeByLoopMacAddr _ _) as [n|]; simpl; by rewrite <- ?app_assoc.
Qed.

Lemma fibMark_keys vxLanBD fibs :
  fold_left (fun s e => fibMarkStep vxLanBD e s) fibs ∅
  = list_to_set (filter (qualifies vxLanBD) fibs).*1.
Proof.
  apply set_eq. intros k. rewrite fibMark_elem_of, elem_of_list_to_set, list_elem_of_fmap.
  split.
  - intros [H|(feVal & Hin & Hq)]; [set_solver|].
    exists (k, feVal). split; [done|]. by apply list_elem_of_filter.
  - intros ([k' feVal] & -> & [Hq Hin]%list_elem_of_filter). right. by exists feVal.
Qed.

Lemma fibDangling_fold name l st :
  let st' := fold_left (fun st k => fibFail name (FibDangling k) st) l st in
  fib_report st' = fib_report st ++ map (fun k => entry name (FibDangling k)) l
  /\ fib_errCnt st' = incrBy (length l) (fib_errCnt st).
Proof.
  revert st. induction l as [|k l IH]; intros st; simpl; [by rewrite app_nil_r|].
  destruct (IH (fibFail name (FibDangling k) st)) as (-> & ->).
  unfold fibFail, AppendToNodeReport; simpl. rewrite <- app_assoc.
  split; [done|]. exact (eq_sym (incrBy_S _ _)).
Qed.

(** C3.  With [vxLanBD] the index that [getVxlanBD] finds for the node (the
    index of the first bridge domain named [vxlanBD] in range order), an
    entry of the L2 FIB qualifies exactly when its bridge-domain id is
    [vxLanBD] and it is statically configured.  The set of unaccounted
    entries starts as the keys of the qualifying entries.  An entry that does
    not qualify leaves the state of the scan untouched (no report, no count,
    no change of either set).  An entry that qualifies is acted upon: it adds
    the lines of its branch to the report of the node, one error each, sets
    the flag of the node's own entry when it is a BVI entry whose MAC
    resolves, and, unless it is given up for an outgoing interface or a
    remote node that is not found, takes its key and its peer out of the two
    unaccounted sets.  The validation of the node is the scan of the
    qualifying entries alone, closed by the line for a missing own entry, one
    line for every peer left and one for every key left. *)
Theorem fib_only_qualifying_entries v nodeList node vxLanBD acc :
  getVxlanBD node = Some vxLanBD ->
  (exists k bd,
     NodeBridgeDomains node !! k = Some (vxLanBD, bd)
     /\ Bd_Name (Bd bd) = "vxlanBD"
     /\ forall j e, (j < k)%nat -> NodeBridgeDomains node !! j = Some e ->
                    Bd_Name (Bd e.2) ≠ "vxlanBD")
  /\ (forall feKey,
        feKey ∈ fold_left (fun s e => fibMarkStep vxLanBD e s) (NodeL2Fibs node) ∅
        <-> exists feVal, (feKey, feVal) ∈ NodeL2Fibs node /\ qualifies vxLanBD (feKey, feVal))
  /\ (forall e st, ~ qualifies vxLanBD e -> fibEntryStep v node vxLanBD e st = st)
  /\ (forall feKey feVal st,
        qualifies vxLanBD (feKey, feVal) ->
        fibEntryStep v node vxLanBD (feKey, feVal) st
        = {| fib_errCnt := incrBy (length (fibEntryLines v node feKey feVal)) (fib_errCnt st);
             fib_report := fib_report st ++ fibEntryLines v node feKey feVal;
             fibHasLoopIF := fibHasLoopIF st || fibEntrySetsFlag v feVal;
             nodeFibMap := match fibEntryPeer v node feVal with
                           | Some peer => nodeFibMap st ∖ {[ peer ]}
                           | None => nodeFibMap st
                           end;
             fibNodeMap := match fibEntryPeer v node feVal with
                           | Some _ => fibNodeMap st ∖ {[ feKey ]}
                           | None => fibNodeMap st
                           end |})
  /\ validateFibNode v nodeList node acc
     = scanFib v nodeList node vxLanBD (filter (qualifies vxLanBD) (NodeL2Fibs node)) acc
  /\ (let scanned :=
        fold_left (fun st e => fibEntryStep v node vxLanBD e st)
                  (filter (qualifies vxLanBD) (NodeL2Fibs node))
                  {| fib_errCnt := fst acc; fib_report := snd acc; fibHasLoopIF := false;
                     nodeFibMap := nameSet Node_Name nodeList;
                     fibNodeMap := list_to_set (filter (qualifies vxLanBD) (NodeL2Fibs node)).*1 |} in
      validateFibNode v nodeList node acc
      = (incrBy (length (fibClosingLines node scanned)) (fib_errCnt scanned),
         fib_report scanned ++ fibClosingLines node scanned)).
Proof.
  intros Hbd.
  assert (Hfilter : validateFibNode v nodeList node acc
            = scanFib v nodeList node vxLanBD (filter (qualifies vxLanBD) (NodeL2Fibs node)) acc).
  { unfold validateFibNode. rewrite Hbd. unfold scanFib.
    rewrite <- (fold_left_filter (fun s e => fibMarkStep vxLanBD e s) (qualifies vxLanBD))
      by (intros; by apply fibMarkStep_skip).
    rewrite <- (fold_left_filter (fun st e => fibEntryStep v node vxLanBD e st) (qualifies vxLanBD))
      by (intros; by apply fibEntryStep_skip).
    done. }
  split; [|split; [|split; [|split; [|split]]]].
  - by apply getVxlanBDIn_first in Hbd.
  - intros feKey. rewrite fibMark_elem_of. set_solver.
  - intros e st. apply fibEntryStep_skip.
  - intros feKey feVal st. apply fibEntryStep_qualifying.
  - exact Hfilter.
  - intros scanned. rewrite Hfilter. unfold scanFib. rewrite fibMark_keys.
    rewrite list_filter_filter_l by done. fold scanned.
    set (st2 := if negb (fibHasLoopIF scanned) then _ else scanned).
    assert (H2 : fib_report st2
                  = fib_report scanned
                    ++ (if fibHasLoopIF scanned then []
                        else [entry (Node_Name node) FibLoop0NotFound])
                /\ fib_errCnt st2
                   = incrBy (length (if fibHasLoopIF scanned then []
                                     else [entry (Node_Name node) FibLoop0NotFound]))
                            (fib_errCnt scanned)
                /\ nodeFibMap st2 = nodeFibMap scanned
                /\ fibNodeMap st2 = fibNodeMap scanned).
    { unfold st2. destruct (fibHasLoopIF scanned); simpl; by rewrite ?app_nil_r. }
    destruct H2 as (H2r & H2c & H2p & H2k). clearbody st2.
    destruct (fibMissing_fold (Node_Name node) (elements (nodeFibMap st2)) st2)
      as (H3r & H3c & H3k).
    set (st3 := fold_left _ (elements (nodeFibMap st2)) st2) in *. clearbody st3.
    destruct (fibDangling_fold (Node_Name node) (elements (fibNodeMap st3)) st3) as (H4r & H4c).
    cbv zeta in H4r, H4c. simpl. rewrite H4r, H4c, H3r, H3c, H3k, H2r, H2c, H2p, H2k.
    unfold fibClosingLines. rewrite !length_app, !incrBy_add, !length_map, <- !app_assoc.
    done.
Qed.

Lemma fib_only_qualifying_entries_witness :
  validateFibNode (Fixture.fibCluster Fixture.fibTable)
    [Fixture.fibNode1 Fixture.fibTable; Fixture.twinNode2]
    (Fixture.fibNode1 Fixture.fibTable) (0, [])
  = (0, []).
Proof.
  pose proof (fib_only_qualifying_entries (Fixture.fibCluster Fixture.fibTable)
                [Fixture.fibNode1 Fixture.fibTable; Fixture.twinNode2]
                (Fixture.fibNode1 Fixture.fibTable) 1 (0, []) eq_refl)
    as (_ & _ & _ & _ & _ & H).
  rewrite H. vm_compute. reflexivity.
Defined.

(** A static entry of the overlay bridge domain whose outgoing interface
    does not exist is reported, and its key stays unaccounted. *)
Example fib_entry_without_interface_is_reported :
  validateFibNode
    (Fixture.fibCluster [("02:fe:aa:bb:cc:03", Fixture.fibEntry "02:fe:aa:bb:cc:03" false true 1 9)])
    [Fixture.emptyNode "k8s-master"]
    (Fixture.fibNode1 [("02:fe:aa:bb:cc:03", Fixture.fibEntry "02:fe:aa:bb:cc:03" false true 1 9)])
    (0, [])
  = (4, [entry "k8s-master" (FibOutIfNotFound "02:fe:aa:bb:cc:03" "vxlan2" 9);
         entry "k8s-master" FibLoop0NotFound;
         loggedEntry "k8s-master" (FibMissing "k8s-master");
         entry "k8s-master" (FibDangling "02:fe:aa:bb:cc:03")]).
Proof. vm_compute. reflexivity. Qed.
